(** * go-penguin: the Engine route multiplexer

    A shallow embedding of [Engine], the route multiplexer of the package,
    from its source.  The routing tree, the routing context and the
    middleware chain that the engine drives live in source files that are
    missing; they are modelled from the specification, and every such
    definition says so.  Go pointers to engines, trees and pools become
    indices into an explicit store; a Go panic becomes the [Panic] outcome
    of a small state-and-error monad. *)

From Stdlib Require Import ZArith Lia Bool Ascii String List.
From stdpp Require Import base option list strings gmap.

Local Open Scope string_scope.
Local Open Scope list_scope.
Local Open Scope Z_scope.

(** ** Strings *)

Module Str.

(** [strings.HasPrefix] together with the slice past the prefix. *)
Fixpoint strip_prefix (p s : string) : option string :=
  match p with
  | EmptyString => Some s
  | String a p' =>
      match s with
      | EmptyString => None
      | String b s' => if Ascii.eqb a b then strip_prefix p' s' else None
      end
  end.

(** The run of characters up to the next '/', and what follows it
    (including that '/'). *)
Fixpoint span_slash (s : string) : string * string :=
  match s with
  | EmptyString => (EmptyString, EmptyString)
  | String c s' =>
      if Ascii.eqb c "/" then (EmptyString, s)
      else let '(seg, rest) := span_slash s' in (String c seg, rest)
  end.

Definition snoc (s : string) (c : ascii) : string := s +:+ String c EmptyString.

Fixpoint last_char (s : string) : option ascii :=
  match s with
  | EmptyString => None
  | String c EmptyString => Some c
  | String _ s' => last_char s'
  end.

Definition head_char (s : string) : option ascii :=
  match s with
  | EmptyString => None
  | String c _ => Some c
  end.

Definition is_empty (s : string) : bool :=
  match s with EmptyString => true | _ => false end.

End Str.

(** ** Segments of a routing pattern *)

(** Modelled from the spec: the segment type of the pattern language (the
    tree source file is missing).  A segment is a
    literal, a named placeholder, a placeholder constrained by a regular
    expression, or the trailing wildcard. *)
Inductive Segment :=
| Static (literal : string)
| Param (name : string)
| RegexParam (name expr : string)
| Wildcard.

#[global] Instance Segment_eq_dec : EqDecision Segment.
Proof. solve_decision. Defined.

(** The parameter name a segment binds, if any; the wildcard binds the
    reserved name [*]. *)
Definition seg_key (s : Segment) : option string :=
  match s with
  | Static _ => None
  | Param k => Some k
  | RegexParam k _ => Some k
  | Wildcard => Some "*"
  end.

Definition seg_binds (s : Segment) : bool :=
  match seg_key s with Some _ => true | None => false end.

(** Parser state: inside literal text, inside the name of a placeholder,
    inside the expression of a regex placeholder. *)
Inductive pmode :=
| PLit (acc : string)
| PName (acc : string)
| PExpr (name acc : string).

Definition flush (acc : string) (k : list Segment) : list Segment :=
  if Str.is_empty acc then k else Static acc :: k.

Section Parser.

(** Whether a regular expression compiles (Go's [regexp] is outside the
    repository). *)
Variable rx_valid : string -> bool.

(** Modelled from the spec: the segment pattern parser (tree source file
    missing).  It fails on an
    unterminated placeholder brace, on a regex that does not compile or
    contains literal braces, on a wildcard followed by anything but a
    [/suffix] (which is then ignored), and on an empty segment from a
    doubled [/]. *)
Fixpoint parse_from (s : string) (m : pmode) : option (list Segment) :=
  match s with
  | EmptyString =>
      match m with
      | PLit acc => Some (flush acc [])
      | _ => None
      end
  | String c s' =>
      match m with
      | PLit acc =>
          if Ascii.eqb c "{" then
            option_map (flush acc) (parse_from s' (PName EmptyString))
          else if Ascii.eqb c "*" then
            match Str.head_char s' with
            | None | Some "/"%char => Some (flush acc [Wildcard])
            | Some _ => None
            end
          else if Ascii.eqb c "/" &&
                  match Str.last_char acc with
                  | Some "/"%char => true
                  | _ => false
                  end
          then None
          else parse_from s' (PLit (Str.snoc acc c))
      | PName acc =>
          if Ascii.eqb c "}" then
            option_map (cons (Param acc)) (parse_from s' (PLit EmptyString))
          else if Ascii.eqb c ":" then parse_from s' (PExpr acc EmptyString)
          else if Ascii.eqb c "{" then None
          else parse_from s' (PName (Str.snoc acc c))
      | PExpr name acc =>
          if Ascii.eqb c "}" then
            if rx_valid acc then
              option_map (cons (RegexParam name acc))
                         (parse_from s' (PLit EmptyString))
            else None
          else if Ascii.eqb c "{" then None
          else parse_from s' (PExpr name (Str.snoc acc c))
      end
  end.

Definition parsePattern (pattern : string) : option (list Segment) :=
  parse_from pattern (PLit EmptyString).

End Parser.

(** ** Handlers, middlewares and the method registry *)

(** A middleware, [func(http.Handler) http.Handler], is supplied by the
    integrator.  Two behaviours are told apart: one that runs the next
    handler between its own pre- and post-logic, and one that answers
    early without running it. *)
Inductive Middleware :=
| MwPass (name : string)
| MwStop (name : string).

(** [http.Handler] values, defunctionalised: the closures the package
    builds over engines ([*Engine] itself, [mx.routeHTTP], the mount
    handler, a middleware applied to its successor), the two standard
    responders, and endpoint handlers supplied by the integrator, which
    either return or panic. *)
Inductive Handler :=
| HFunc (name : string)
| HPanic (name : string)
| HEngine (e : nat)
| HRouteHTTP (e : nat)
| HMount (parent : nat) (h : Handler)
| HMw (mw : Middleware) (next : Handler)
| HStdNotFound
| HStdMethodNotAllowed.

#[global] Instance Middleware_eq_dec : EqDecision Middleware.
Proof. solve_decision. Defined.

#[global] Instance Handler_eq_dec : EqDecision Handler.
Proof. solve_decision. Defined.

(** Modelled from the spec: interceptor chain composition (the chain source
    file is missing).  The list is folded so that
    the first-registered interceptor is outermost. *)
Definition chain (middlewares : list Middleware) (endpoint : Handler) : Handler :=
  foldr HMw endpoint middlewares.

(** [methodTyp], a bit-set. *)
Abbreviation methodTyp := Z.

(** Modelled from the spec: the method masks (declared in the tree source
    file, which is missing).  A mask is a bit-set;
    one reserved bit means any method, one marks a mount stub, and the
    standard verbs take the following bits. *)
Definition mSTUB : methodTyp := 1.
Definition mALL : methodTyp := 2.
Definition mCONNECT : methodTyp := 4.
Definition mDELETE : methodTyp := 8.
Definition mGET : methodTyp := 16.
Definition mHEAD : methodTyp := 32.
Definition mOPTIONS : methodTyp := 64.
Definition mPATCH : methodTyp := 128.
Definition mPOST : methodTyp := 256.
Definition mPUT : methodTyp := 512.
Definition mTRACE : methodTyp := 1024.

(** Modelled from the spec: the method registry [methodMap] (tree source
    file missing), pre-seeded with the
    standard verbs. *)
Definition stdMethodMap : gmap string methodTyp :=
  list_to_map
    [("CONNECT", mCONNECT); ("DELETE", mDELETE); ("GET", mGET);
     ("HEAD", mHEAD); ("OPTIONS", mOPTIONS); ("PATCH", mPATCH);
     ("POST", mPOST); ("PUT", mPUT); ("TRACE", mTRACE)].

(** Bit capacity of a mask. *)
Definition mask_width : nat := 63.

Definition has_bit (mask b : methodTyp) : bool := negb (Z.land mask b =? 0).

(** The single-bit masks contained in [mask], the any-method bit apart. *)
Definition concrete_bits (mask : methodTyp) : list methodTyp :=
  filter (fun b => has_bit mask b /\ b <> mALL)
         (map (fun i => Z.shiftl 1 (Z.of_nat i)) (seq 0 mask_width)).

(** ** The routing tree *)

(** Modelled from the spec: a node's handler storage (tree source file
    missing), a mapping from a
    concrete method to a handler plus the any-method entry. *)
Record endpoints := mkEndpoints {
  ep_any : option Handler;
  ep_by : gmap Z Handler
}.

Definition no_endpoints : endpoints := mkEndpoints None ∅.

(** Modelled from the spec: the lookup in a method table (tree source file
    missing); it falls back to the any-method entry when no exact entry
    exists. *)
Definition ep_lookup (eps : endpoints) (method : methodTyp) : option Handler :=
  match ep_by eps !! method with
  | Some h => Some h
  | None => ep_any eps
  end.

(** Modelled from the spec: whether some pattern ends at the node, that is,
    whether its method table (tree source file missing) has an entry. *)
Definition is_leaf (eps : endpoints) : bool :=
  match ep_any eps with
  | Some _ => true
  | None => negb (bool_decide (ep_by eps = ∅))
  end.

(** Modelled from the spec: the terminal step of [InsertRoute] (tree source
    file missing), which stores [h] for every method bit of [mask]; an
    entry of the method itself is looked up before the any-method entry. *)
Definition setEndpoint (mask : methodTyp) (h : Handler) (eps : endpoints) : endpoints :=
  mkEndpoints
    (if has_bit mask mALL then Some h else ep_any eps)
    (foldr (fun b m => <[b := h]> m) (ep_by eps) (concrete_bits mask)).

(** Modelled from the spec: a trie vertex (tree source file missing).  It owns its children, each under
    the segment that leads to it, a method table, an optional reference to
    a mounted sub-router (an index into the store of engines), and the
    pattern registered at it. *)
#[local] Unset Elimination Schemes.
Inductive node :=
| Node (children : list (Segment * node)) (eps : endpoints)
       (subroutes : option nat) (pattern : string).
#[local] Set Elimination Schemes.

Definition children (n : node) := let '(Node cs _ _ _) := n in cs.
Definition node_eps (n : node) := let '(Node _ e _ _) := n in e.
Definition node_subroutes (n : node) := let '(Node _ _ s _) := n in s.
Definition node_pattern (n : node) := let '(Node _ _ _ p) := n in p.

Definition empty_node : node := Node [] no_endpoints None "".

(** Modelled from the spec: the segment types by which a node groups its
    children (tree source file missing). *)
Inductive kind := KStatic | KRegex | KParam | KWild.

#[global] Instance kind_eq_dec : EqDecision kind.
Proof. solve_decision. Defined.

Definition seg_kind (s : Segment) : kind :=
  match s with
  | Static _ => KStatic
  | RegexParam _ _ => KRegex
  | Param _ => KParam
  | Wildcard => KWild
  end.

(** Modelled from the spec: the fixed priority in which the child groups of
    a node are attempted by the lookup (tree source file missing). *)
Definition priority : list kind := [KStatic; KRegex; KParam; KWild].

(** Modelled from the spec: the child groups of a node (tree source file
    missing).  Whether a pattern segment is served by the child under [s']: a literal
    by the child of the same literal, a regex placeholder by the child of
    the same placeholder, and there is at most one named-parameter child
    and at most one wildcard child. *)
Definition same_child (s s' : Segment) : bool :=
  match s, s' with
  | Static a, Static b => bool_decide (a = b)
  | RegexParam k e, RegexParam k' e' => bool_decide (k = k' /\ e = e')
  | Param _, Param _ => true
  | Wildcard, Wildcard => true
  | _, _ => false
  end.

Definition has_child (s : Segment) (cs : list (Segment * node)) : bool :=
  existsb (fun c => same_child s (fst c)) cs.

Fixpoint update_child (s : Segment) (g : node -> node)
         (cs : list (Segment * node)) : list (Segment * node) :=
  match cs with
  | [] => []
  | (s', c) :: cs' =>
      if same_child s s' then (s', g c) :: cs'
      else (s', c) :: update_child s g cs'
  end.

Definition lit_length (s : Segment) : nat :=
  match s with Static l => String.length l | _ => 0%nat end.

(** Modelled from the spec: the order of the children (tree source file
    missing).  A new static child goes before the first static child with a shorter
    literal, so that static children are met longest literal first; any
    other new child goes last, so that regex children are met in
    insertion order. *)
Fixpoint place_child (s : Segment) (c : node)
         (cs : list (Segment * node)) : list (Segment * node) :=
  match cs with
  | [] => [(s, c)]
  | (s', c') :: cs' =>
      if bool_decide (seg_kind s = KStatic) && bool_decide (seg_kind s' = KStatic)
         && (lit_length s' <? lit_length s)%nat
      then (s, c) :: (s', c') :: cs'
      else (s', c') :: place_child s c cs'
  end.

(** Modelled from the spec: the extension of the trie by [InsertRoute],
    one segment at a time (tree source file missing).
    Descend along [segs], creating nodes as needed, and apply [f] at the
    node the last segment leads to. *)
Fixpoint insert_at (segs : list Segment) (f : node -> node) (n : node) : node :=
  match segs with
  | [] => f n
  | s :: segs' =>
      let '(Node cs eps sub pat) := n in
      if has_child s cs
      then Node (update_child s (insert_at segs' f) cs) eps sub pat
      else Node (place_child s (insert_at segs' f empty_node) cs) eps sub pat
  end.

Fixpoint find_child (p : Segment -> bool) (cs : list (Segment * node)) : option node :=
  match cs with
  | [] => None
  | (s', c) :: cs' => if p s' then Some c else find_child p cs'
  end.

(** Modelled from the spec: the walk behind the lookup of a literal pattern
    (tree source file missing): the node that serves the pattern segments
    [segs], if the tree has it. *)
Fixpoint locate (segs : list Segment) (n : node) : option node :=
  match segs with
  | [] => Some n
  | s :: segs' =>
      match find_child (same_child s) (children n) with
      | Some c => locate segs' c
      | None => None
      end
  end.

(** ** The routing context (match state) *)

(** Modelled from the spec: an ordered key list and the parallel value
    list (the type is declared in the context source file, which is
    missing). *)
Record RouteParams := mkRouteParams {
  Keys : list string;
  Values : list string
}.

Definition no_params : RouteParams := mkRouteParams [] [].

(** Modelled from the spec: the match state (its type is declared in the
    context source file, which is missing), with the fields that the
    engine reads and writes under the names the engine uses.  [Routes] is
    the engine that owns the request, [routeParams] the stack of the
    lookup in progress, [URLParams] the finalized bindings. *)
Record Context := mkContext {
  Routes : option nat;
  RoutePath : string;
  RouteMethod : string;
  routeParams : RouteParams;
  URLParams : RouteParams;
  methodNotAllowed : bool
}.

(** Modelled from the spec: a fresh context (context source file missing),
    and the reset that clears every
    field for reuse. *)
Definition NewRouteContext : Context :=
  mkContext None "" "" no_params no_params false.

Definition Reset (x : Context) : Context := NewRouteContext.

Definition set_Routes (e : nat) (x : Context) : Context :=
  mkContext (Some e) (RoutePath x) (RouteMethod x) (routeParams x)
            (URLParams x) (methodNotAllowed x).

Definition set_RoutePath (p : string) (x : Context) : Context :=
  mkContext (Routes x) p (RouteMethod x) (routeParams x)
            (URLParams x) (methodNotAllowed x).

Definition set_RouteMethod (m : string) (x : Context) : Context :=
  mkContext (Routes x) (RoutePath x) m (routeParams x)
            (URLParams x) (methodNotAllowed x).

Definition set_routeParams (ps : RouteParams) (x : Context) : Context :=
  mkContext (Routes x) (RoutePath x) (RouteMethod x) ps
            (URLParams x) (methodNotAllowed x).

Definition set_URLParams (ps : RouteParams) (x : Context) : Context :=
  mkContext (Routes x) (RoutePath x) (RouteMethod x) (routeParams x)
            ps (methodNotAllowed x).

Definition set_methodNotAllowed (b : bool) (x : Context) : Context :=
  mkContext (Routes x) (RoutePath x) (RouteMethod x) (routeParams x)
            (URLParams x) b.

(** Modelled from the spec: the stack discipline of the match state (tree
    source file missing).  Push a tentative binding on the lookup stack. *)
Definition push_param (b : option (string * string)) (x : Context) : Context :=
  match b with
  | Some (k, v) =>
      set_routeParams
        (mkRouteParams (Keys (routeParams x) ++ [k]) (Values (routeParams x) ++ [v])) x
  | None => x
  end.

(** Modelled from the spec: the pop on backtrack (tree source file
    missing), which cuts the stack back to the height [prevlen] it had
    before the abandoned attempt. *)
Definition pop_params (prevlen : nat) (x : Context) : Context :=
  set_routeParams
    (mkRouteParams (take prevlen (Keys (routeParams x)))
                   (take prevlen (Values (routeParams x)))) x.

(** Modelled from the spec: parameter lookup by name (context source file
    missing), where duplicates
    favour the most recently pushed value. *)
Fixpoint param_lookup (ks vs : list string) (key : string) : option string :=
  match ks, vs with
  | k :: ks', v :: vs' =>
      match param_lookup ks' vs' key with
      | Some v' => Some v'
      | None => if bool_decide (k = key) then Some v else None
      end
  | _, _ => None
  end.

Definition URLParam (x : Context) (key : string) : option string :=
  param_lookup (Keys (URLParams x)) (Values (URLParams x)) key.

(** ** Lookup in the routing tree *)

Section Routing.

(** Go's [regexp] is outside the repository: whether an expression
    compiles, and whether a compiled expression matches a path segment. *)
Variable rx_valid : string -> bool.
Variable rx_match : string -> string -> bool.

(** Modelled from the spec: the pattern syntax (tree source file missing).
    What the child under segment [s] consumes of [path]: the binding it
    makes, if any, and the path suffix left.  A named parameter takes the
    run up to the next [/]; a regex parameter takes that run when the
    expression matches it; the wildcard takes the whole remainder. *)
Definition seg_match (s : Segment) (path : string)
  : option (option (string * string) * string) :=
  match s with
  | Static lit =>
      match Str.strip_prefix lit path with
      | Some rest => Some (None, rest)
      | None => None
      end
  | Param k =>
      let '(seg, rest) := Str.span_slash path in Some (Some (k, seg), rest)
  | RegexParam k e =>
      let '(seg, rest) := Str.span_slash path in
      if rx_match e seg then Some (Some (k, seg), rest) else None
  | Wildcard => Some (Some ("*", path), "")
  end.

(** Modelled from the spec: one level of the lookup (tree source file
    missing).  Attempt, in list order, the children of kind [k]: push the binding,
    recurse into the path suffix, and on failure pop what the abandoned
    attempt pushed before the next sibling is tried. *)
Fixpoint try_children (rec : node -> string -> Context -> option node * Context)
         (k : kind) (path : string) (l : list (Segment * node)) (c : Context)
  : option node * Context :=
  match l with
  | [] => (None, c)
  | (s, ch) :: l' =>
      if bool_decide (seg_kind s = k) then
        match seg_match s path with
        | Some (b, rest) =>
            let prevlen := length (Values (routeParams c)) in
            match rec ch rest (push_param b c) with
            | (Some fin, c') => (Some fin, c')
            | (None, c') => try_children rec k path l' (pop_params prevlen c')
            end
        | None => try_children rec k path l' c
        end
      else try_children rec k path l' c
  end.

(** Modelled from the spec: the child groups in priority order, stopping at
    the first success (tree source file missing). *)
Fixpoint try_kinds (attempt : kind -> Context -> option node * Context)
         (ks : list kind) (c : Context) : option node * Context :=
  match ks with
  | [] => (None, c)
  | k :: ks' =>
      match attempt k c with
      | (Some fin, c') => (Some fin, c')
      | (None, c') => try_kinds attempt ks' c'
      end
  end.

(** Modelled from the spec: the end of a match (tree source file missing).
    What a node does with a fully consumed path: it is the match when its
    method table has an applicable entry; when a pattern ends at it but no
    entry applies, the method-not-allowed flag is set. *)
Definition at_node (eps : endpoints) (method : methodTyp) (path : string)
           (c : Context) : bool * Context :=
  if Str.is_empty path then
    if is_leaf eps then
      match ep_lookup eps method with
      | Some _ => (true, c)
      | None => (false, set_methodNotAllowed true c)
      end
    else (false, c)
  else (false, c).

(** Modelled from the spec: the backtracking walk of the match engine
    (tree source file missing). *)
Fixpoint findRoute (n : node) (method : methodTyp) (path : string)
         (rctx : Context) {struct n} : option node * Context :=
  match n with
  | Node cs eps sub pat =>
      match at_node eps method path rctx with
      | (true, c0) => (Some n, c0)
      | (false, c0) =>
          try_kinds
            (fun k c =>
               try_children (fun ch rest c' => findRoute ch method rest c')
                            k path cs c)
            priority c0
      end
  end.

(** Modelled from the spec: [FindRoute] (tree source file missing).  The lookup stack is cleared, the
    tree is walked, and on success the bindings of the winning path are
    appended to the finalized list.  It yields the matched node and the
    handler of its method table. *)
Definition FindRoute (n : node) (rctx : Context) (method : methodTyp)
           (path : string) : option (node * Handler) * Context :=
  let c0 := set_routeParams no_params rctx in
  match findRoute n method path c0 with
  | (Some rn, c1) =>
      let c2 :=
        set_URLParams
          (mkRouteParams (Keys (URLParams c1) ++ Keys (routeParams c1))
                         (Values (URLParams c1) ++ Values (routeParams c1))) c1 in
      match ep_lookup (node_eps rn) method with
      | Some h => (Some (rn, h), c2)
      | None => (None, c2)
      end
  | (None, c1) => (None, c1)
  end.

(** Modelled from the spec: [InsertRoute] (tree source file missing).  The pattern is parsed, the trie
    is extended one segment at a time, and the terminal node stores the
    handler under the mask and records the pattern.  [None] is the parse
    failure that aborts the registration. *)
Definition InsertRoute (n : node) (mask : methodTyp) (pattern : string)
           (h : Handler) : option (node * list Segment) :=
  match parsePattern rx_valid pattern with
  | Some segs =>
      Some (insert_at segs
              (fun t => Node (children t) (setEndpoint mask h (node_eps t))
                             (node_subroutes t) pattern) n,
            segs)
  | None => None
  end.

(** Modelled from the spec: [findPattern], the tree lookup of a literal
    pattern (tree source file missing). *)
Definition findPattern (n : node) (pattern : string) : bool :=
  match parsePattern rx_valid pattern with
  | Some segs =>
      match locate segs n with
      | Some _ => true
      | None => false
      end
  | None => false
  end.

(** Modelled from the spec: the route view, (pattern, method table,
    optional sub-router); its type is declared in the tree source file,
    which is missing. *)
Record Route := mkRoute {
  SubRoutes : option nat;
  Handlers : endpoints;
  Pattern : string
}.

(** Modelled from the spec: [routes] (tree source file missing), the routes
    of a tree, one per node at which a
    pattern ends, produced by a traversal. *)
Fixpoint routes (n : node) : list Route :=
  match n with
  | Node cs eps sub pat =>
      (if is_leaf eps then [mkRoute sub eps pat] else [])
        ++ flat_map (fun c => routes (snd c)) cs
  end.

(** ** The store, and the monad of engine operations *)

Record Request := mkRequest {
  Method : string;
  RawPath : string;
  Path : string
}.

(** [Engine], with pointers as indices into the store. *)
Record Engine := mkEngine {
  handler : option Handler;
  tree : nat;
  methodNotAllowedHandler : option Handler;
  parent : option nat;
  pool : nat;
  notFoundHandler : option Handler;
  middlewares : list Middleware;
  inline : bool
}.

(** What a request leaves in the log: the endpoint or responder that ran
    (with the routing context it saw), the middleware logic around it, and
    each tree lookup an engine starts. *)
Inductive Event :=
| EvCall (name : string) (rctx : option Context)
| EvPanic (name : string)
| EvNotFound
| EvMethodNotAllowed
| EvMwEnter (name : string)
| EvMwLeave (name : string)
| EvMwStop (name : string)
| EvFind (e : nat) (routePath : string) (rctx : Context).

(** The store: the engines, the trees and the context pools they point
    to, the process-wide method registry, and the log. *)
Record World := mkWorld {
  engines : list Engine;
  trees : list node;
  pools : list (list Context);
  methodMap : gmap string methodTyp;
  trace : list Event
}.

Definition init_world : World := mkWorld [] [] [] stdMethodMap [].

Inductive Result (A : Type) :=
| Ok (a : A) (w : World)
| Panic (msg : string) (w : World)
| OutOfFuel.
#[global] Arguments Ok {A} a w.
#[global] Arguments Panic {A} msg w.
#[global] Arguments OutOfFuel {A}.

Definition M (A : Type) : Type := World -> Result A.

Definition ret {A} (a : A) : M A := fun w => Ok a w.

Definition bind {A B} (m : M A) (k : A -> M B) : M B :=
  fun w =>
    match m w with
    | Ok a w' => k a w'
    | Panic msg w' => Panic msg w'
    | OutOfFuel => OutOfFuel
    end.

Definition panic {A} (msg : string) : M A := fun w => Panic msg w.

Notation "x <- m ;; k" := (bind m (fun x => k))
  (at level 100, m at next level, right associativity).
Notation "m ;;; k" := (bind m (fun _ => k))
  (at level 100, right associativity).

Fixpoint forM_ {A} (l : list A) (f : A -> M unit) : M unit :=
  match l with
  | [] => ret tt
  | a :: l' => f a ;;; forM_ l' f
  end.

Definition when (b : bool) (m : M unit) : M unit := if b then m else ret tt.

Definition getE (e : nat) : M Engine :=
  fun w =>
    match engines w !! e with
    | Some x => Ok x w
    | None => Panic "nil pointer dereference" w
    end.

Definition modE (e : nat) (f : Engine -> Engine) : M unit :=
  fun w =>
    match engines w !! e with
    | Some x =>
        Ok tt (mkWorld (<[e := f x]> (engines w)) (trees w) (pools w)
                       (methodMap w) (trace w))
    | None => Panic "nil pointer dereference" w
    end.

Definition getTree (t : nat) : M node :=
  fun w =>
    match trees w !! t with
    | Some n => Ok n w
    | None => Panic "nil pointer dereference" w
    end.

Definition setTree (t : nat) (n : node) : M unit :=
  fun w =>
    Ok tt (mkWorld (engines w) (<[t := n]> (trees w)) (pools w)
                   (methodMap w) (trace w)).

Definition getMethodMap : M (gmap string methodTyp) :=
  fun w => Ok (methodMap w) w.

Definition log (ev : Event) : M unit :=
  fun w =>
    Ok tt (mkWorld (engines w) (trees w) (pools w) (methodMap w)
                   (trace w ++ [ev])).

(** [sync.Pool]: [Get] hands out a pooled context, or a new one when the
    pool is empty; [Put] takes one back. *)
Definition poolGet (p : nat) : M Context :=
  fun w =>
    match pools w !! p with
    | Some (c :: free) =>
        Ok c (mkWorld (engines w) (trees w) (<[p := free]> (pools w))
                      (methodMap w) (trace w))
    | Some [] => Ok NewRouteContext w
    | None => Panic "nil pointer dereference" w
    end.

Definition poolPut (p : nat) (c : Context) : M unit :=
  fun w =>
    match pools w !! p with
    | Some free =>
        Ok tt (mkWorld (engines w) (trees w) (<[p := c :: free]> (pools w))
                       (methodMap w) (trace w))
    | None => Panic "nil pointer dereference" w
    end.

Definition set_handler (h : option Handler) (x : Engine) : Engine :=
  mkEngine h (tree x) (methodNotAllowedHandler x) (parent x) (pool x)
           (notFoundHandler x) (middlewares x) (inline x).

Definition set_middlewares (mws : list Middleware) (x : Engine) : Engine :=
  mkEngine (handler x) (tree x) (methodNotAllowedHandler x) (parent x) (pool x)
           (notFoundHandler x) mws (inline x).

Definition set_notFoundHandler (h : option Handler) (x : Engine) : Engine :=
  mkEngine (handler x) (tree x) (methodNotAllowedHandler x) (parent x) (pool x)
           h (middlewares x) (inline x).

Definition set_methodNotAllowedHandler (h : option Handler) (x : Engine) : Engine :=
  mkEngine (handler x) (tree x) h (parent x) (pool x)
           (notFoundHandler x) (middlewares x) (inline x).

(** ** Engine: registration *)

Definition to_upper_ascii (c : ascii) : ascii :=
  let n := nat_of_ascii c in
  if ((97 <=? n) && (n <=? 122))%nat then ascii_of_nat (n - 32) else c.

(** Whether every byte is below [utf8.RuneSelf]. *)
Fixpoint is_ascii (s : string) : bool :=
  match s with
  | EmptyString => true
  | String c s' => (nat_of_ascii c <? 128)%nat && is_ascii s'
  end.

Fixpoint upper_bytes (s : string) : string :=
  match s with
  | EmptyString => EmptyString
  | String c s' => String (to_upper_ascii c) (upper_bytes s')
  end.

(** [strings.ToUpper]: byte by byte on a string that is all ASCII; on a
    string with a byte outside ASCII every rune is mapped by the Unicode
    case tables of Go's standard library, which are outside the
    repository: that mapping is the parameter [unicode_ToUpper]. *)
Definition ToUpper (unicode_ToUpper : string -> string) (s : string) : string :=
  if is_ascii s then upper_bytes s else unicode_ToUpper s.

Definition is_some {A} (o : option A) : bool :=
  match o with Some _ => true | None => false end.

(** [New]: a fresh engine with its own tree and pool. *)
Definition New : M nat :=
  fun w =>
    let e := length (engines w) in
    let t := length (trees w) in
    let p := length (pools w) in
    Ok e (mkWorld (engines w ++ [mkEngine None t None None p None [] false])
                  (trees w ++ [empty_node]) (pools w ++ [[]])
                  (methodMap w) (trace w)).

(** [updateRouteHandler]: the middleware stack chained around the tree
    router. *)
Definition updateRouteHandler (mx : nat) : M unit :=
  modE mx (fun x => set_handler (Some (chain (middlewares x) (HRouteHTTP mx))) x).

Definition Use (mx : nat) (mws : list Middleware) : M unit :=
  x <- getE mx ;;
  if is_some (handler x)
  then panic "chi: all middlewares must be defined before routes on a mux"
  else modE mx (fun x => set_middlewares (middlewares x ++ mws) x).

(** [handle]: the node it returns is given by the segments that lead to it
    from the root. *)
Definition handle (mx : nat) (method : methodTyp) (pattern : string)
           (h : Handler) : M (list Segment) :=
  if negb (bool_decide (Str.head_char pattern = Some "/"%char))
  then panic ("chi: routing pattern must begin with '/' in '" +:+ pattern +:+ "'")
  else
    x <- getE mx ;;
    when (negb (inline x) && negb (is_some (handler x))) (updateRouteHandler mx) ;;;
    when (inline x) (modE mx (set_handler (Some (HRouteHTTP mx)))) ;;;
    let h' := if inline x then chain (middlewares x) h else h in
    t <- getTree (tree x) ;;
    match InsertRoute t method pattern h' with
    | Some (t', loc) => setTree (tree x) t' ;;; ret loc
    | None => panic "chi: invalid routing pattern"
    end.

Definition Handle (mx : nat) (pattern : string) (h : Handler) : M unit :=
  handle mx mALL pattern h ;;; ret tt.

Definition HandleFunc := Handle.

Definition Method_ (unicode_ToUpper : string -> string) (mx : nat)
           (method pattern : string) (h : Handler) : M unit :=
  mm <- getMethodMap ;;
  match mm !! ToUpper unicode_ToUpper method with
  | Some m => handle mx m pattern h ;;; ret tt
  | None => panic ("chi: '" +:+ method +:+ "' http method is not supported.")
  end.

Definition MethodFunc := Method_.

Definition Connect mx pattern h : M unit := handle mx mCONNECT pattern h ;;; ret tt.
Definition Delete mx pattern h : M unit := handle mx mDELETE pattern h ;;; ret tt.
Definition Get mx pattern h : M unit := handle mx mGET pattern h ;;; ret tt.
Definition Head mx pattern h : M unit := handle mx mHEAD pattern h ;;; ret tt.
Definition Options mx pattern h : M unit := handle mx mOPTIONS pattern h ;;; ret tt.
Definition Patch mx pattern h : M unit := handle mx mPATCH pattern h ;;; ret tt.
Definition Post mx pattern h : M unit := handle mx mPOST pattern h ;;; ret tt.
Definition Put mx pattern h : M unit := handle mx mPUT pattern h ;;; ret tt.
Definition Trace mx pattern h : M unit := handle mx mTRACE pattern h ;;; ret tt.

(** [updateSubRoutes]: run [fn] on every engine mounted in the tree. *)
Definition updateSubRoutes (mx : nat) (fn : nat -> M unit) : M unit :=
  x <- getE mx ;;
  t <- getTree (tree x) ;;
  forM_ (routes t)
        (fun r => match SubRoutes r with
                  | Some subMux => fn subMux
                  | None => ret tt
                  end).

(** [NotFound].  The recursion through the mounted engines is bounded by
    [fuel]. *)
Fixpoint NotFound (fuel : nat) (mx : nat) (handlerFn : Handler) : M unit :=
  match fuel with
  | O => fun _ => OutOfFuel
  | S fuel' =>
      x <- getE mx ;;
      let '(m, hFn) :=
        match inline x, parent x with
        | true, Some p => (p, chain (middlewares x) handlerFn)
        | _, _ => (mx, handlerFn)
        end in
      modE m (set_notFoundHandler (Some hFn)) ;;;
      updateSubRoutes m
        (fun subMux =>
           sx <- getE subMux ;;
           when (negb (is_some (notFoundHandler sx))) (NotFound fuel' subMux hFn))
  end.

Fixpoint MethodNotAllowed (fuel : nat) (mx : nat) (handlerFn : Handler) : M unit :=
  match fuel with
  | O => fun _ => OutOfFuel
  | S fuel' =>
      x <- getE mx ;;
      let '(m, hFn) :=
        match inline x, parent x with
        | true, Some p => (p, chain (middlewares x) handlerFn)
        | _, _ => (mx, handlerFn)
        end in
      modE m (set_methodNotAllowedHandler (Some hFn)) ;;;
      updateSubRoutes m
        (fun subMux =>
           sx <- getE subMux ;;
           when (negb (is_some (methodNotAllowedHandler sx)))
                (MethodNotAllowed fuel' subMux hFn))
  end.

(** [With]: an inline engine sharing the tree and the pool. *)
Definition With (mx : nat) (mws : list Middleware) : M nat :=
  x <- getE mx ;;
  when (negb (inline x) && negb (is_some (handler x))) (updateRouteHandler mx) ;;;
  let mws' := ((if inline x then middlewares x else []) ++ mws) in
  fun w =>
    Ok (length (engines w))
       (mkWorld (engines w ++
                   [mkEngine None (tree x) (methodNotAllowedHandler x) (Some mx)
                             (pool x) (notFoundHandler x) mws' true])
                (trees w) (pools w) (methodMap w) (trace w)).

(** The [*Engine] behind a handler, for the type assertions of [Mount]. *)
Definition as_engine (h : Handler) : option nat :=
  match h with HEngine s => Some s | _ => None end.

Definition set_subroutes (sub : option nat) (t : node) : node :=
  Node (children t) (node_eps t) sub (node_pattern t).

(** [Mount].  A nil handler is [None]. *)
Definition Mount (fuel : nat) (mx : nat) (pattern : string)
           (handler : option Handler) : M unit :=
  match handler with
  | None => panic ("chi: attempting to Mount() a nil handler on '" +:+ pattern +:+ "'")
  | Some h =>
      x <- getE mx ;;
      t <- getTree (tree x) ;;
      if findPattern t (pattern +:+ "*") || findPattern t (pattern +:+ "/*")
      then panic ("chi: attempting to Mount() a handler on an existing path, '"
                  +:+ pattern +:+ "'")
      else
        match as_engine h with
        | Some subr =>
            (sx <- getE subr ;;
             x <- getE mx ;;
             match notFoundHandler sx, notFoundHandler x with
             | None, Some nf => NotFound fuel subr nf
             | _, _ => ret tt
             end) ;;;
            (sx <- getE subr ;;
             x <- getE mx ;;
             match methodNotAllowedHandler sx, methodNotAllowedHandler x with
             | None, Some na => MethodNotAllowed fuel subr na
             | _, _ => ret tt
             end)
        | None => ret tt
        end ;;;
        let mountHandler := HMount mx h in
        pattern' <-
          (if Str.is_empty pattern
              || negb (bool_decide (Str.last_char pattern = Some "/"%char))
           then
             handle mx (Z.lor mALL mSTUB) pattern mountHandler ;;;
             handle mx (Z.lor mALL mSTUB) (pattern +:+ "/") mountHandler ;;;
             ret (pattern +:+ "/")
           else ret pattern) ;;
        let method := if is_some (as_engine h) then Z.lor mALL mSTUB else mALL in
        loc <- handle mx method (pattern' +:+ "*") mountHandler ;;
        match as_engine h with
        | Some subr =>
            x <- getE mx ;;
            t <- getTree (tree x) ;;
            setTree (tree x) (insert_at loc (set_subroutes (Some subr)) t)
        | None => ret tt
        end
  end.

Definition NotFoundHandler (x : Engine) : Handler :=
  match notFoundHandler x with
  | Some h => h
  | None => HStdNotFound
  end.

Definition MethodNotAllowedHandler (x : Engine) : Handler :=
  match methodNotAllowedHandler x with
  | Some h => h
  | None => HStdMethodNotAllowed
  end.

(** ** Engine: dispatch *)

(** [nextRoutePath]: the wildcard match of the lookup just made, behind a
    slash. *)
Definition nextRoutePath (rctx : Context) : string :=
  let ks := Keys (routeParams rctx) in
  let vs := Values (routeParams rctx) in
  match length ks with
  | O => "/"
  | S nx =>
      match ks !! nx, vs !! nx with
      | Some k, Some v => if bool_decide (k = "*") then "/" +:+ v else "/"
      | _, _ => "/"
      end
  end.

(** What the mount handler does to the routing context before it
    delegates: the route path is shifted past the parent, and the wildcard
    entry of the finalized parameters is reset. *)
Definition mount_shift (rctx : Context) : Context :=
  let c := set_RoutePath (nextRoutePath rctx) rctx in
  let ks := Keys (URLParams c) in
  let vs := Values (URLParams c) in
  match length ks with
  | O => c
  | S n =>
      match ks !! n with
      | Some k =>
          if bool_decide (k = "*") && (n <? length vs)%nat
          then set_URLParams (mkRouteParams ks (<[n := ""]> vs)) c
          else c
      | None => c
      end
  end.

(** How [routeHTTP] classifies a request. *)
Inductive Selection :=
| SelHandler (h : Handler)
| SelMethodNotAllowed
| SelNotFound.

Definition requestPath (r : Request) (rctx : Context) : string :=
  if Str.is_empty (RoutePath rctx) then
    let p := if Str.is_empty (RawPath r) then Path r else RawPath r in
    if Str.is_empty p then "/" else p
  else RoutePath rctx.

Definition resolveMethod (r : Request) (rctx : Context) : Context :=
  if Str.is_empty (RouteMethod rctx) then set_RouteMethod (Method r) rctx else rctx.

(** The body of [routeHTTP] up to the call of the handler it settles on. *)
Definition route_select (mm : gmap string methodTyp) (t : node) (r : Request)
           (rctx : Context) : Selection * Context :=
  let routePath := requestPath r rctx in
  let c := resolveMethod r rctx in
  match mm !! RouteMethod c with
  | None => (SelMethodNotAllowed, c)
  | Some method =>
      match FindRoute t c method routePath with
      | (Some (_, h), c') => (SelHandler h, c')
      | (None, c') =>
          if methodNotAllowed c' then (SelMethodNotAllowed, c')
          else (SelNotFound, c')
      end
  end.

Definition selected_handler (x : Engine) (s : Selection) : Handler :=
  match s with
  | SelHandler h => h
  | SelMethodNotAllowed => MethodNotAllowedHandler x
  | SelNotFound => NotFoundHandler x
  end.

(** Serving a request through a handler.  The routing context attached to
    the request is threaded through, since every handler on the way shares
    the one object.  Dispatch is bounded by [fuel]: an engine mounted on
    itself at the root would route for ever. *)
Fixpoint serve (fuel : nat) (h : Handler) (r : Request) (rc : option Context)
  : M (option Context) :=
  match fuel with
  | O => fun _ => OutOfFuel
  | S fuel' =>
      match h with
      | HFunc name => log (EvCall name rc) ;;; ret rc
      | HPanic name => log (EvPanic name) ;;; panic name
      | HStdNotFound => log EvNotFound ;;; ret rc
      | HStdMethodNotAllowed => log EvMethodNotAllowed ;;; ret rc
      | HMw (MwPass name) next =>
          log (EvMwEnter name) ;;;
          rc' <- serve fuel' next r rc ;;
          log (EvMwLeave name) ;;;
          ret rc'
      | HMw (MwStop name) _ => log (EvMwStop name) ;;; ret rc
      | HMount _ h' =>
          match rc with
          | Some rctx => serve fuel' h' r (Some (mount_shift rctx))
          | None => panic "nil pointer dereference"
          end
      | HRouteHTTP mx =>
          match rc with
          | Some rctx =>
              x <- getE mx ;;
              t <- getTree (tree x) ;;
              mm <- getMethodMap ;;
              log (EvFind mx (requestPath r rctx) (resolveMethod r rctx)) ;;;
              let '(sel, c') := route_select mm t r rctx in
              serve fuel' (selected_handler x sel) r (Some c')
          | None => panic "interface conversion: interface is nil"
          end
      | HEngine mx =>
          x <- getE mx ;;
          match handler x with
          | None => serve fuel' (NotFoundHandler x) r rc
          | Some hd =>
              match rc with
              | Some _ => serve fuel' hd r rc
              | None =>
                  got <- poolGet (pool x) ;;
                  let rctx := set_Routes mx (Reset got) in
                  rc' <- serve fuel' hd r (Some rctx) ;;
                  poolPut (pool x) (default rctx rc') ;;;
                  ret None
              end
          end
      end
  end.

(** [Engine.ServeHTTP] as the transport calls it: the request carries no
    routing context yet. *)
Definition ServeHTTP (fuel : nat) (mx : nat) (r : Request) : M (option Context) :=
  serve fuel (HEngine mx) r None.

(** ** Facts about strings *)

Lemma append_cons a (p r : string) : String a p +:+ r = String a (p +:+ r).
Proof. reflexivity. Qed.

Lemma strip_prefix_self p : Str.strip_prefix p p = Some EmptyString.
Proof.
  induction p as [|a p IH]; simpl; [reflexivity|].
  rewrite Ascii.eqb_refl. exact IH.
Qed.

Lemma strip_prefix_Some p s r : Str.strip_prefix p s = Some r -> s = p +:+ r.
Proof.
  revert s; induction p as [|a p IH]; intros s H; simpl in *.
  - injection H as ->. reflexivity.
  - destruct s as [|b s]; [discriminate|].
    destruct (Ascii.eqb_spec a b) as [->|]; [|discriminate].
    rewrite append_cons. f_equal. apply IH, H.
Qed.

(** Induction on the tree: the property holds of a node when it holds of
    all its children. *)
Lemma node_ind (P : node -> Prop) :
  (forall cs eps sub pat,
      Forall (fun c => P (snd c)) cs -> P (Node cs eps sub pat)) ->
  forall n, P n.
Proof.
  intros step.
  fix IH 1. intros [cs eps sub pat]. apply step.
  induction cs as [|[s c] cs IHcs]; constructor; [apply IH | exact IHcs].
Qed.

(** ** Registration after the handler is built *)

(** C5: on an engine whose dispatch handler has been built, [Use] panics
    at once and leaves the store as it was, so no request is ever served
    through the new middleware. *)
Theorem Use_after_build_panics (w : World) (mx : nat) (x : Engine)
        (mws : list Middleware) :
  engines w !! mx = Some x ->
  is_some (handler x) = true ->
  Use mx mws w
  = Panic "chi: all middlewares must be defined before routes on a mux" w.
Proof.
  intros Hx Hh. unfold Use, bind, getE. rewrite Hx. cbn beta iota.
  rewrite Hh. reflexivity.
Qed.

(** [Use] is accepted as long as the handler has not been built. *)
Lemma Use_before_build (w : World) (mx : nat) (x : Engine)
      (mws : list Middleware) :
  engines w !! mx = Some x ->
  handler x = None ->
  Use mx mws w
  = Ok tt (mkWorld (<[mx := set_middlewares (middlewares x ++ mws) x]> (engines w))
                   (trees w) (pools w) (methodMap w) (trace w)).
Proof.
  intros Hx Hh. unfold Use, bind, getE, modE. rewrite Hx. cbn beta iota.
  rewrite Hh. simpl. rewrite Hx. reflexivity.
Qed.

(** C10: an engine on which no handler has been built answers every
    request with its not-found handler and nothing else; with no override
    set, as on a freshly constructed engine, that is the standard
    responder, which returns normally and leaves engines, trees and pools
    untouched. *)
Theorem ServeHTTP_unbuilt (w : World) (mx : nat) (x : Engine) (r : Request)
        (fuel : nat) :
  engines w !! mx = Some x ->
  handler x = None ->
  ServeHTTP (S fuel) mx r w = serve fuel (NotFoundHandler x) r None w /\
  (notFoundHandler x = None ->
   ServeHTTP (S (S fuel)) mx r w
   = Ok None (mkWorld (engines w) (trees w) (pools w) (methodMap w)
                      (trace w ++ [EvNotFound]))).
Proof.
  intros Hx Hh. split.
  - unfold ServeHTTP. simpl. unfold bind, getE. rewrite Hx. cbn beta iota.
    rewrite Hh. reflexivity.
  - intros Hnf. unfold ServeHTTP. simpl. unfold bind, getE. rewrite Hx.
    cbn beta iota. rewrite Hh. unfold NotFoundHandler. rewrite Hnf.
    reflexivity.
Qed.

(** C2, as the code has it: on an engine whose dispatch handler has been
    built, a registration whose pattern begins with a slash and parses is
    accepted, and the route is inserted in the tree (for an inline engine,
    behind its middlewares). *)
Theorem handle_after_build (w : World) (mx : nat) (x : Engine) (t t' : node)
        (method : methodTyp) (pattern : string) (h : Handler)
        (loc : list Segment) :
  engines w !! mx = Some x ->
  is_some (handler x) = true ->
  trees w !! tree x = Some t ->
  Str.head_char pattern = Some "/"%char ->
  InsertRoute t method pattern
              (if inline x then chain (middlewares x) h else h) = Some (t', loc) ->
  handle mx method pattern h w
  = Ok loc (mkWorld (if inline x
                     then <[mx := set_handler (Some (HRouteHTTP mx)) x]> (engines w)
                     else engines w)
                    (<[tree x := t']> (trees w)) (pools w)
                    (methodMap w) (trace w)).
Proof.
  intros Hx Hh Ht Hp Hins. unfold handle.
  rewrite Hp. rewrite bool_decide_eq_true_2 by reflexivity. cbn [negb].
  unfold bind, getE. rewrite Hx. cbn beta iota.
  rewrite Hh. destruct (inline x); cbn [negb andb when ret].
  - unfold modE. rewrite Hx. cbn beta iota.
    unfold getTree. cbn [trees]. rewrite Ht. cbn beta iota. rewrite Hins.
    reflexivity.
  - unfold getTree. rewrite Ht. cbn beta iota. rewrite Hins.
    reflexivity.
Qed.

(** ** The context pool *)

(** C3, as the code has it: a top-level dispatch puts the routing context
    back in the pool when the computed handler returns; when the handler
    panics, the panic leaves [ServeHTTP] before the context is put back. *)
Theorem ServeHTTP_pool (w w1 : World) (mx : nat) (x : Engine) (hd : Handler)
        (r : Request) (fuel : nat) (got : Context) :
  engines w !! mx = Some x ->
  handler x = Some hd ->
  poolGet (pool x) w = Ok got w1 ->
  let rctx := set_Routes mx (Reset got) in
  (forall rc' w2 free,
      serve fuel hd r (Some rctx) w1 = Ok rc' w2 ->
      pools w2 !! pool x = Some free ->
      ServeHTTP (S fuel) mx r w
      = Ok None (mkWorld (engines w2) (trees w2)
                         (<[pool x := default rctx rc' :: free]> (pools w2))
                         (methodMap w2) (trace w2))) /\
  (forall msg w2,
      serve fuel hd r (Some rctx) w1 = Panic msg w2 ->
      ServeHTTP (S fuel) mx r w = Panic msg w2).
Proof.
  intros Hx Hh Hget rctx. split.
  - intros rc' w2 free Hs Hfree.
    unfold ServeHTTP. simpl. unfold bind at 1. unfold getE. rewrite Hx.
    cbn beta iota. rewrite Hh. unfold bind at 1. rewrite Hget.
    unfold bind at 1. fold rctx. rewrite Hs.
    unfold bind, poolPut. rewrite Hfree. reflexivity.
  - intros msg w2 Hs.
    unfold ServeHTTP. simpl. unfold bind at 1. unfold getE. rewrite Hx.
    cbn beta iota. rewrite Hh. unfold bind at 1. rewrite Hget.
    unfold bind at 1. fold rctx. rewrite Hs. reflexivity.
Qed.

(** ** Mount *)

(** C7: mounting a nil handler panics, on every store and every pattern,
    and so does mounting any handler on a pattern whose wildcard form the
    tree of the engine already has; in both cases the store, and with it
    the tree, is left as it was. *)
Theorem Mount_rejects (w : World) (mx : nat) (pattern : string) (fuel : nat) :
  Mount fuel mx pattern None w
  = Panic ("chi: attempting to Mount() a nil handler on '" +:+ pattern +:+ "'") w /\
  (forall (x : Engine) (t : node) (h : Handler),
      engines w !! mx = Some x ->
      trees w !! tree x = Some t ->
      findPattern t (pattern +:+ "*") || findPattern t (pattern +:+ "/*") = true ->
      Mount fuel mx pattern (Some h) w
      = Panic ("chi: attempting to Mount() a handler on an existing path, '"
                 +:+ pattern +:+ "'") w).
Proof.
  split; [reflexivity|]. intros x t h Hx Ht Hf.
  unfold Mount, bind, getE, getTree. rewrite Hx. cbn beta iota.
  rewrite Ht. cbn beta iota. rewrite Hf. reflexivity.
Qed.

(** ** Dispatch, one step at a time *)

Lemma serve_HEngine_top (f : nat) (mx : nat) (x : Engine) (hd : Handler)
      (r : Request) (w : World) :
  engines w !! mx = Some x ->
  handler x = Some hd ->
  serve (S f) (HEngine mx) r None w
  = (got <- poolGet (pool x) ;;
     rc' <- serve f hd r (Some (set_Routes mx (Reset got))) ;;
     poolPut (pool x) (default (set_Routes mx (Reset got)) rc') ;;; ret None) w.
Proof.
  intros Hx Hh. simpl. unfold bind at 1. unfold getE. rewrite Hx.
  cbn beta iota. rewrite Hh. reflexivity.
Qed.

Lemma serve_HEngine_nested (f : nat) (mx : nat) (x : Engine) (hd : Handler)
      (r : Request) (rctx : Context) (w : World) :
  engines w !! mx = Some x ->
  handler x = Some hd ->
  serve (S f) (HEngine mx) r (Some rctx) w = serve f hd r (Some rctx) w.
Proof.
  intros Hx Hh. simpl. unfold bind at 1. unfold getE. rewrite Hx.
  cbn beta iota. rewrite Hh. reflexivity.
Qed.

Lemma serve_HRouteHTTP (f : nat) (mx : nat) (x : Engine) (t : node)
      (r : Request) (rctx : Context) (w : World) :
  engines w !! mx = Some x ->
  trees w !! tree x = Some t ->
  serve (S f) (HRouteHTTP mx) r (Some rctx) w
  = serve f (selected_handler x (fst (route_select (methodMap w) t r rctx))) r
          (Some (snd (route_select (methodMap w) t r rctx)))
          (mkWorld (engines w) (trees w) (pools w) (methodMap w)
                   (trace w ++ [EvFind mx (requestPath r rctx) (resolveMethod r rctx)])).
Proof.
  intros Hx Ht. simpl. unfold bind, getE, getTree, getMethodMap, log.
  rewrite Hx. cbn beta iota. rewrite Ht. cbn beta iota.
  destruct (route_select (methodMap w) t r rctx) as [sel c']. reflexivity.
Qed.

Lemma serve_HMount (f : nat) (p : nat) (h : Handler) (r : Request)
      (rctx : Context) (w : World) :
  serve (S f) (HMount p h) r (Some rctx) w
  = serve f h r (Some (mount_shift rctx)) w.
Proof. reflexivity. Qed.

(** The registry entries of the standard verbs. *)
Lemma stdMethodMap_lookup (m : string) (mt : methodTyp) :
  stdMethodMap !! m = Some mt ->
  In (m, mt)
     [("CONNECT", mCONNECT); ("DELETE", mDELETE); ("GET", mGET);
      ("HEAD", mHEAD); ("OPTIONS", mOPTIONS); ("PATCH", mPATCH);
      ("POST", mPOST); ("PUT", mPUT); ("TRACE", mTRACE)].
Proof.
  intros H. unfold stdMethodMap in H.
  apply elem_of_list_to_map_2 in H. apply list_elem_of_In in H. exact H.
Qed.

(** A parent engine with nothing registered next to an engine [sub] that
    owns the tree [ts]. *)
Definition mount_world (sub : Engine) (ts : node) : World :=
  mkWorld [mkEngine None 0 None None 0 None [] false; sub] [empty_node; ts]
          [[]; []] stdMethodMap [].

(** The routing context with which the parent's lookup of
    [/api/widgets/7] starts, and the one the mount handler hands on. *)
Definition ctx_parent (m : string) : Context :=
  mkContext (Some 0%nat) "" m no_params no_params false.

Definition ctx_delegated (m : string) : Context :=
  mkContext (Some 0%nat) "/widgets/7" m
            (mkRouteParams ["*"] ["widgets/7"]) (mkRouteParams ["*"] [""]) false.

(** C4, as the code has it: after a sub-router is mounted at [/api], a
    request for [/api/widgets/7] is handed to the sub-router with the
    route path [/widgets/7], computed from the wildcard match
    [widgets/7] that still tops the lookup stack; in the finalized
    parameters the wildcard entry has been reset to the empty string by
    then. *)
Theorem mount_delegation (hs nf na : option Handler) (mws : list Middleware)
        (ts : node) (m : string) (mt : methodTyp) (fuel : nat) :
  stdMethodMap !! m = Some mt ->
  let sub := mkEngine hs 1 na None 1 nf mws false in
  let r := mkRequest m "" "/api/widgets/7" in
  exists w1,
    Mount 1 0 "/api" (Some (HEngine 1)) (mount_world sub ts) = Ok tt w1 /\
    ServeHTTP (3 + fuel) 0 r w1
    = (rc' <- serve fuel (HEngine 1) r (Some (ctx_delegated m)) ;;
       poolPut 0 (default (set_Routes 0 NewRouteContext) rc') ;;; ret None)
        (mkWorld (engines w1) (trees w1) (pools w1) (methodMap w1)
                 [EvFind 0 "/api/widgets/7" (ctx_parent m)]) /\
    requestPath r (ctx_delegated m) = "/widgets/7" /\
    routeParams (ctx_delegated m) = mkRouteParams ["*"] ["widgets/7"] /\
    URLParam (ctx_delegated m) "*" = Some "".
Proof.
  intros Hm sub r. subst sub r.
  assert (Hw : exists w1,
             Mount 1 0 "/api" (Some (HEngine 1))
                   (mount_world (mkEngine hs 1 na None 1 nf mws false) ts) = Ok tt w1 /\
             engines w1 !! 0%nat
             = Some (mkEngine (Some (HRouteHTTP 0)) 0 None None 0 None [] false) /\
             pools w1 = [[]; []] /\ methodMap w1 = stdMethodMap /\ trace w1 = [] /\
             exists t, trees w1 !! 0%nat = Some t /\
                  forall m' mt', stdMethodMap !! m' = Some mt' ->
                    route_select stdMethodMap t (mkRequest m' "" "/api/widgets/7")
                                 (set_Routes 0 (Reset NewRouteContext))
                    = (SelHandler (HMount 0 (HEngine 1)),
                       mkContext (Some 0%nat) "" m'
                                 (mkRouteParams ["*"] ["widgets/7"])
                                 (mkRouteParams ["*"] ["widgets/7"]) false)).
  { destruct nf, na; eexists; (split; [vm_compute; reflexivity|]).
    all: repeat (split; [reflexivity|]).
    all: eexists; split; [reflexivity|].
    all: intros m' mt' Hm'; apply stdMethodMap_lookup in Hm'; simpl in Hm'.
    all: repeat (destruct Hm' as [Hm'|Hm']; [injection Hm' as <- <-|]);
      try contradiction; vm_compute; reflexivity. }
  destruct Hw as (w1 & HM & He & Hp & Hmm & Htr & t & Ht & Hsel).
  exists w1. split; [exact HM|]. split; [|repeat split; reflexivity].
  unfold ServeHTTP. change (3 + fuel)%nat with (S (S (S fuel))).
  rewrite (serve_HEngine_top _ _ _ _ _ _ He eq_refl).
  unfold bind at 1. unfold poolGet. cbn [pool]. rewrite Hp. cbn beta iota.
  change ([[]; []] !! 0%nat) with (Some (@nil Context)). cbn beta iota.
  unfold bind at 1.
  rewrite (serve_HRouteHTTP _ _ _ _ _ _ _ He Ht).
  rewrite Hmm, (Hsel _ _ Hm). cbn [fst snd selected_handler].
  rewrite serve_HMount. rewrite Htr, ?Hp.
  reflexivity.
Qed.

(** ** What a lookup finds *)

Definition binding_list (b : option (string * string)) : list (string * string) :=
  match b with Some kv => [kv] | None => [] end.

(** [matches n path segs binds fin]: the children under [segs] lead from
    [n] to [fin], they consume [path] entirely, and they bind [binds] on
    the way, outermost first. *)
Inductive matches : node -> string -> list Segment -> list (string * string)
                    -> node -> Prop :=
| matches_here n : matches n "" [] [] n
| matches_step n s ch path b rest segs binds fin :
    In (s, ch) (children n) ->
    seg_match s path = Some (b, rest) ->
    matches ch rest segs binds fin ->
    matches n path (s :: segs) (binding_list b ++ binds) fin.

(** The lookup stack of [c] with [binds] pushed on it. *)
Definition pushed (c : Context) (binds : list (string * string)) : RouteParams :=
  mkRouteParams (Keys (routeParams c) ++ map fst binds)
                (Values (routeParams c) ++ map snd binds).

(** What a lookup leaves alone. *)
Definition frame (c c' : Context) : Prop :=
  Routes c' = Routes c /\ RoutePath c' = RoutePath c /\
  RouteMethod c' = RouteMethod c /\ URLParams c' = URLParams c.

Definition balanced (c : Context) : Prop :=
  length (Keys (routeParams c)) = length (Values (routeParams c)).

(** The outcome of a search among the candidate matches [Q], started in
    context [c]: a success is a candidate whose method table has an
    applicable entry, and the stack then holds its bindings on top of what
    it held; a failure means that no candidate has an applicable entry,
    the stack is as it was, and the method-not-allowed flag is up exactly
    when it was up already or a pattern ends at some candidate. *)
Definition search_ok (Q : list Segment -> list (string * string) -> node -> Prop)
           (m : methodTyp) (c : Context) (res : option node * Context) : Prop :=
  frame c (snd res) /\
  (methodNotAllowed c = true -> methodNotAllowed (snd res) = true) /\
  match fst res with
  | Some fin =>
      exists segs binds,
        Q segs binds fin /\ is_Some (ep_lookup (node_eps fin) m) /\
        routeParams (snd res) = pushed c binds
  | None =>
      routeParams (snd res) = routeParams c /\
      (forall segs binds fin,
          Q segs binds fin -> ep_lookup (node_eps fin) m = None) /\
      (methodNotAllowed (snd res) = true <->
       methodNotAllowed c = true \/
       exists segs binds fin, Q segs binds fin /\ is_leaf (node_eps fin) = true)
  end.

Definition no_candidate : list Segment -> list (string * string) -> node -> Prop :=
  fun _ _ _ => False.

Definition either (Q1 Q2 : list Segment -> list (string * string) -> node -> Prop) :=
  fun segs binds fin => Q1 segs binds fin \/ Q2 segs binds fin.

Lemma frame_refl c : frame c c.
Proof. repeat split. Qed.

Lemma frame_trans c1 c2 c3 : frame c1 c2 -> frame c2 c3 -> frame c1 c3.
Proof.
  intros (A1 & A2 & A3 & A4) (B1 & B2 & B3 & B4).
  repeat split; congruence.
Qed.

Lemma search_ok_none m c : search_ok no_candidate m c (None, c).
Proof.
  split; [apply frame_refl|]. split; [tauto|]. simpl.
  split; [reflexivity|]. split; [intros ? ? ? []|].
  split; [tauto|]. intros [H|(? & ? & ? & [] & _)]. exact H.
Qed.

Lemma search_ok_equiv Q Q' m c res :
  (forall segs binds fin, Q segs binds fin <-> Q' segs binds fin) ->
  search_ok Q m c res -> search_ok Q' m c res.
Proof.
  intros HQ (Hf & Hm & H). split; [exact Hf|]. split; [exact Hm|].
  destruct (fst res) as [fin|].
  - destruct H as (segs & binds & H1 & H2 & H3).
    exists segs, binds. rewrite <- HQ. auto.
  - destruct H as (H1 & H2 & H3). split; [exact H1|]. split.
    + intros segs binds fin Hq. apply (H2 segs binds fin), HQ, Hq.
    + rewrite H3. split; (intros [?|(s & b & f & Hq & Hl)]; [left; assumption|]);
        right; exists s, b, f; (split; [apply HQ, Hq|exact Hl]).
Qed.

(** A search that succeeds among [Q1] succeeds among [Q1] or [Q2]. *)
Lemma search_ok_first Q1 Q2 m c fin c' :
  search_ok Q1 m c (Some fin, c') -> search_ok (either Q1 Q2) m c (Some fin, c').
Proof.
  intros (Hf & Hm & segs & binds & H1 & H2 & H3).
  split; [exact Hf|]. split; [exact Hm|].
  exists segs, binds. split; [left; exact H1|]. auto.
Qed.

(** A search that fails among [Q1] and goes on among [Q2] from the context
    the failure left is a search among [Q1] or [Q2]. *)
Lemma search_ok_then Q1 Q2 m c c1 res :
  search_ok Q1 m c (None, c1) -> search_ok Q2 m c1 res ->
  search_ok (either Q1 Q2) m c res.
Proof.
  intros (Hf1 & Hm1 & Hs1 & Hn1 & Hfl1) (Hf2 & Hm2 & H2). simpl in *.
  split; [eapply frame_trans; eassumption|]. split; [auto|].
  destruct (fst res) as [fin|].
  - destruct H2 as (segs & binds & Hq & Hl & Hp).
    exists segs, binds. split; [right; exact Hq|]. split; [exact Hl|].
    rewrite Hp. unfold pushed. rewrite Hs1. reflexivity.
  - destruct H2 as (Hs2 & Hn2 & Hfl2).
    split; [congruence|]. split.
    + intros segs binds fin [Hq|Hq]; eauto.
    + rewrite Hfl2, Hfl1. unfold either. split.
      * intros [[?|(s & b & f & Hq & Hl)]|(s & b & f & Hq & Hl)]; eauto 8.
      * intros [?|(s & b & f & [Hq|Hq] & Hl)]; eauto 8.
Qed.

Lemma is_leaf_lookup eps m h : ep_lookup eps m = Some h -> is_leaf eps = true.
Proof.
  unfold ep_lookup, is_leaf. intros H.
  destruct (ep_any eps); [reflexivity|].
  destruct (ep_by eps !! m) eqn:E; [|discriminate].
  apply negb_true_iff, bool_decide_eq_false. intros He.
  rewrite He in E. rewrite lookup_empty in E. discriminate.
Qed.

Lemma routeParams_eta (p : RouteParams) : mkRouteParams (Keys p) (Values p) = p.
Proof. destruct p. reflexivity. Qed.

Lemma balanced_push b c : balanced c -> balanced (push_param b c).
Proof.
  unfold balanced. destruct b as [[k v]|]; simpl; [|auto].
  rewrite !length_app. simpl. lia.
Qed.

Lemma frame_push b c : frame c (push_param b c).
Proof. destruct b as [[k v]|]; repeat split. Qed.

Lemma push_param_pushed b c : routeParams (push_param b c) = pushed c (binding_list b).
Proof.
  destruct b as [[k v]|]; unfold pushed; simpl.
  - reflexivity.
  - rewrite !app_nil_r. symmetry. apply routeParams_eta.
Qed.

Lemma pushed_pushed c c1 b1 b2 :
  routeParams c1 = pushed c b1 ->
  pushed c1 b2 = pushed c (b1 ++ b2).
Proof.
  intros H. unfold pushed. rewrite H. simpl.
  rewrite !map_app, !app_assoc. reflexivity.
Qed.

(** Popping back to the height before the push undoes the push. *)
Lemma pop_after_push b c c' :
  balanced c ->
  routeParams c' = routeParams (push_param b c) ->
  routeParams (pop_params (length (Values (routeParams c))) c') = routeParams c.
Proof.
  intros Hb H. unfold balanced in Hb. unfold pop_params. simpl. rewrite H.
  destruct b as [[k v]|]; simpl.
  - rewrite take_app_length. rewrite <- Hb, take_app_length.
    apply routeParams_eta.
  - rewrite firstn_all. rewrite <- Hb, firstn_all. apply routeParams_eta.
Qed.

(** The candidate matches that go through the child [ch] under [s]. *)
Definition through (path : string) (s : Segment) (ch : node)
  : list Segment -> list (string * string) -> node -> Prop :=
  fun segs binds fin =>
    exists b rest segs' binds',
      seg_match s path = Some (b, rest) /\ segs = s :: segs' /\
      binds = (binding_list b ++ binds') /\ matches ch rest segs' binds' fin.

(** The candidate matches that go through a child of kind [k] in [l]. *)
Definition through_kind (path : string) (k : kind) (l : list (Segment * node))
  : list Segment -> list (string * string) -> node -> Prop :=
  fun segs binds fin =>
    exists s ch, In (s, ch) l /\ seg_kind s = k /\ through path s ch segs binds fin.

Definition find_ok (m : methodTyp) (n : node) : Prop :=
  forall path c, balanced c ->
    search_ok (matches n path) m c (findRoute n m path c).

(** One attempt on a child, followed by the pop when it fails. *)
Definition attempt (m : methodTyp) (ch : node) (b : option (string * string))
           (rest : string) (c : Context) : option node * Context :=
  match findRoute ch m rest (push_param b c) with
  | (Some fin, c') => (Some fin, c')
  | (None, c') => (None, pop_params (length (Values (routeParams c))) c')
  end.

Lemma attempt_ok m path s ch b rest c :
  find_ok m ch ->
  balanced c ->
  seg_match s path = Some (b, rest) ->
  search_ok (through path s ch) m c (attempt m ch b rest c).
Proof.
  intros IH Hb Hs. unfold attempt.
  specialize (IH rest (push_param b c) (balanced_push b c Hb)).
  destruct (findRoute ch m rest (push_param b c)) as [[fin|] c'];
    destruct IH as (Hf & Hm & IH); simpl in *.
  - split; [eapply frame_trans; [apply frame_push|exact Hf]|].
    split; [intros H; apply Hm; destruct b as [[]|]; exact H|].
    destruct IH as (segs & binds & Hq & Hl & Hp).
    exists (s :: segs), (binding_list b ++ binds). split.
    + exists b, rest, segs, binds. auto.
    + split; [exact Hl|]. cbn [snd]. rewrite Hp.
      apply pushed_pushed, push_param_pushed.
  - destruct IH as (Hp & Hn & Hfl).
    assert (Hfl0 : methodNotAllowed (push_param b c) = methodNotAllowed c)
      by (destruct b as [[]|]; reflexivity).
    split.
    { destruct Hf as (A1 & A2 & A3 & A4).
      pose proof (frame_push b c) as (B1 & B2 & B3 & B4).
      repeat split; simpl; congruence. }
    split; [intros H; apply Hm; congruence|].
    split; [apply (pop_after_push b); assumption|]. split.
    + intros segs binds fin (b' & rest' & segs' & binds' & E & -> & -> & Hq).
      rewrite Hs in E. injection E as <- <-. eapply Hn, Hq.
    + change (methodNotAllowed (pop_params (length (Values (routeParams c))) c'))
        with (methodNotAllowed c').
      rewrite Hfl, Hfl0. split.
      * intros [?|(segs & binds & fin & Hq & Hl)]; [left; assumption|].
        right. exists (s :: segs), (binding_list b ++ binds), fin.
        split; [|exact Hl]. exists b, rest, segs, binds. auto.
      * intros [?|(segs & binds & fin & (b' & rest' & segs' & binds' & E & -> & -> & Hq) & Hl)];
          [left; assumption|].
        rewrite Hs in E. injection E as <- <-. right. eauto.
Qed.

Lemma attempt_balanced m ch b rest c :
  find_ok m ch -> balanced c -> balanced (snd (attempt m ch b rest c)).
Proof.
  intros IH Hb. unfold attempt.
  specialize (IH rest (push_param b c) (balanced_push b c Hb)).
  destruct (findRoute ch m rest (push_param b c)) as [[fin|] c'];
    destruct IH as (Hf & Hm & IH); simpl in *.
  - destruct IH as (segs & binds & Hq & Hl & Hp).
    unfold balanced. rewrite Hp. unfold pushed. simpl.
    rewrite !length_app, !length_map.
    pose proof (balanced_push b c Hb) as Hb'. unfold balanced in Hb'. lia.
  - destruct IH as (Hp & _).
    unfold balanced.
    change (routeParams
              (set_routeParams
                 (mkRouteParams
                    (take (length (Values (routeParams c))) (Keys (routeParams c')))
                    (take (length (Values (routeParams c))) (Values (routeParams c'))))
                 c'))
      with (routeParams (pop_params (length (Values (routeParams c))) c')).
    rewrite (pop_after_push b c c' Hb Hp). exact Hb.
Qed.

Lemma through_kind_cons path k s ch l segs binds fin :
  through_kind path k ((s, ch) :: l) segs binds fin <->
  (seg_kind s = k /\ through path s ch segs binds fin) \/
  through_kind path k l segs binds fin.
Proof.
  unfold through_kind. split.
  - intros (s' & ch' & [E|Hin] & Hk & Ht).
    + injection E as <- <-. left. auto.
    + right. eauto.
  - intros [(Hk & Ht)|(s' & ch' & Hin & Hk & Ht)].
    + exists s, ch. split; [left; reflexivity|]. auto.
    + exists s', ch'. split; [right; exact Hin|]. auto.
Qed.

(** The children of one kind, attempted in list order. *)
Lemma try_children_ok m k path l c :
  Forall (fun ch => find_ok m (snd ch)) l ->
  balanced c ->
  search_ok (through_kind path k l) m c
    (try_children (fun ch rest c' => findRoute ch m rest c') k path l c) /\
  balanced (snd (try_children (fun ch rest c' => findRoute ch m rest c') k path l c)).
Proof.
  clear rx_valid.
  intros Hl. revert c. induction Hl as [|[s ch] l Hch Hl IH]; intros c Hb.
  - split; [|exact Hb]. eapply search_ok_equiv; [|apply search_ok_none].
    intros segs binds fin. split; [intros []|].
    intros (? & ? & [] & _).
  - simpl in Hch. cbn [try_children].
    destruct (bool_decide (seg_kind s = k)) eqn:Hk.
    + apply bool_decide_eq_true in Hk.
      destruct (seg_match s path) as [[b rest]|] eqn:Hs.
      * pose proof (attempt_ok m path s ch b rest c Hch Hb Hs) as Ha.
        pose proof (attempt_balanced m ch b rest c Hch Hb) as Hab.
        unfold attempt in Ha, Hab.
        destruct (findRoute ch m rest (push_param b c)) as [[fin|] c'].
        -- split; [|exact Hab].
           eapply search_ok_equiv;
             [|apply (search_ok_first (through path s ch) (through_kind path k l)), Ha].
           intros segs binds fin'. rewrite through_kind_cons. unfold either.
           tauto.
        -- destruct (IH _ Hab) as [IH1 IH2]. split; [|exact IH2].
           eapply search_ok_equiv; [|eapply search_ok_then; [exact Ha|exact IH1]].
           intros segs binds fin'. rewrite through_kind_cons. unfold either.
           tauto.
      * destruct (IH _ Hb) as [IH1 IH2]. split; [|exact IH2].
        eapply search_ok_equiv; [|exact IH1].
        intros segs binds fin'. rewrite through_kind_cons.
        split; [tauto|]. intros [(_ & b & rest & ? & ? & E & _)|H]; [|exact H].
        rewrite Hs in E. discriminate.
    + apply bool_decide_eq_false in Hk.
      destruct (IH _ Hb) as [IH1 IH2]. split; [|exact IH2].
      eapply search_ok_equiv; [|exact IH1].
      intros segs binds fin'. rewrite through_kind_cons. tauto.
Qed.

(** The candidate matches that go through a child whose kind is in [ks]. *)
Definition through_kinds (path : string) (ks : list kind) (l : list (Segment * node))
  : list Segment -> list (string * string) -> node -> Prop :=
  fun segs binds fin => exists k, In k ks /\ through_kind path k l segs binds fin.

Lemma try_kinds_ok m path l ks c :
  Forall (fun ch => find_ok m (snd ch)) l ->
  balanced c ->
  search_ok (through_kinds path ks l) m c
    (try_kinds (fun k c0 =>
                  try_children (fun ch rest c' => findRoute ch m rest c') k path l c0)
               ks c).
Proof.
  clear rx_valid.
  intros Hl. revert c. induction ks as [|k ks IH]; intros c Hb.
  - eapply search_ok_equiv; [|apply search_ok_none].
    intros segs binds fin. split; [intros []|]. intros (? & [] & _).
  - cbn [try_kinds].
    destruct (try_children_ok m k path l c Hl Hb) as [H1 H2].
    destruct (try_children _ k path l c) as [[fin|] c1].
    + eapply search_ok_equiv;
        [|apply (search_ok_first (through_kind path k l) (through_kinds path ks l)), H1].
      intros segs binds fin'. unfold either, through_kinds. split.
      * intros [H|(k' & Hin & H)]; [exists k|exists k']; simpl; auto.
      * intros (k' & [<-|Hin] & H); [left; exact H|right; eauto].
    + eapply search_ok_equiv; [|eapply search_ok_then; [exact H1|apply IH, H2]].
      intros segs binds fin'. unfold either, through_kinds. split.
      * intros [H|(k' & Hin & H)]; [exists k|exists k']; simpl; auto.
      * intros (k' & [<-|Hin] & H); [left; exact H|right; eauto].
Qed.

Lemma kind_in_priority k : In k priority.
Proof. destruct k; simpl; auto. Qed.

Lemma is_leaf_false_lookup eps m : is_leaf eps = false -> ep_lookup eps m = None.
Proof.
  intros H. destruct (ep_lookup eps m) eqn:E; [|reflexivity].
  apply is_leaf_lookup in E. congruence.
Qed.

(** The walk of the tree finds a match when there is one whose method
    table has an applicable entry, leaves on the stack the bindings of the
    match it returns and nothing else, and raises the method-not-allowed
    flag exactly for the paths at which a pattern ends. *)
Lemma findRoute_ok m n : find_ok m n.
Proof.
  clear rx_valid.
  induction n as [cs eps sub pat IH] using node_ind.
  intros path c Hb. cbn [findRoute].
  assert (Hthrough : forall segs binds fin,
             matches (Node cs eps sub pat) path segs binds fin <->
             (path = "" /\ segs = [] /\ binds = [] /\ fin = Node cs eps sub pat) \/
             through_kinds path priority cs segs binds fin).
  { intros segs binds fin. split.
    - intros H. inversion H; subst.
      + left. auto.
      + right. exists (seg_kind s). split; [apply kind_in_priority|].
        exists s, ch. split; [assumption|]. split; [reflexivity|].
        exists b, rest, segs0, binds0. auto.
    - intros [(-> & -> & -> & ->)|(k & _ & s & ch & Hin & _ & b & rest & segs' & binds' & Hs & -> & -> & Hm)].
      + constructor.
      + econstructor; eassumption. }
  pose proof (fun c0 => try_kinds_ok m path cs priority c0 IH) as Hk.
  unfold at_node.
  destruct (Str.is_empty path) eqn:Hp.
  - assert (path = "") as -> by (destruct path; [reflexivity|discriminate]).
    destruct (is_leaf eps) eqn:Hleaf.
    + destruct (ep_lookup eps m) as [h|] eqn:Hlk.
      * split; [apply frame_refl|]. split; [tauto|]. cbn [fst snd].
        exists [], []. split; [constructor|]. split; [simpl; rewrite Hlk; eauto|].
        unfold pushed. simpl. rewrite !app_nil_r. symmetry. apply routeParams_eta.
      * assert (H0 : search_ok
                       (fun segs binds fin =>
                          segs = [] /\ binds = [] /\ fin = Node cs eps sub pat)
                       m c (None, set_methodNotAllowed true c)).
        { split; [repeat split|]. split; [reflexivity|]. cbn [fst snd].
          split; [reflexivity|]. split.
          - intros ? ? ? (_ & _ & ->). exact Hlk.
          - split; [|reflexivity]. intros _. right.
            exists [], [], (Node cs eps sub pat). auto. }
        eapply search_ok_equiv; [|eapply search_ok_then; [exact H0|apply Hk, Hb]].
        intros segs binds fin. rewrite Hthrough. unfold either. tauto.
    + eapply search_ok_equiv; [|eapply search_ok_then; [|apply Hk, Hb]].
      2:{ instantiate (1 := fun segs binds fin =>
                              segs = [] /\ binds = [] /\ fin = Node cs eps sub pat).
          split; [apply frame_refl|]. split; [tauto|]. cbn [fst snd].
          split; [reflexivity|]. split.
          - intros ? ? ? (_ & _ & ->). apply is_leaf_false_lookup, Hleaf.
          - split; [tauto|]. intros [H|(? & ? & ? & (_ & _ & ->) & Hl)]; [exact H|].
            simpl in Hl. congruence. }
      intros segs binds fin. rewrite Hthrough. unfold either. tauto.
  - eapply search_ok_equiv; [|apply Hk, Hb].
    intros segs binds fin. rewrite Hthrough. split; [tauto|].
    intros [(-> & _)|H]; [discriminate|exact H].
Qed.

(** The keys that the segments of a path bind, in order. *)
Definition seg_keys (segs : list Segment) : list string := omap seg_key segs.

(** Every segment binds at most one parameter, under its own key. *)
Lemma seg_match_binding s path b rest :
  seg_match s path = Some (b, rest) ->
  map fst (binding_list b) = seg_keys [s].
Proof.
  unfold seg_keys.
  destruct s as [lit|k|k e|]; simpl.
  - destruct (Str.strip_prefix lit path); intros H; [|discriminate].
    injection H as <- <-. reflexivity.
  - destruct (Str.span_slash path). intros H. injection H as <- <-. reflexivity.
  - destruct (Str.span_slash path). destruct (rx_match e s); intros H; [|discriminate].
    injection H as <- <-. reflexivity.
  - intros H. injection H as <- <-. reflexivity.
Qed.

(** The bindings of a match are those of the binding segments on its
    path, in order. *)
Lemma matches_keys n path segs binds fin :
  matches n path segs binds fin -> map fst binds = seg_keys segs.
Proof.
  induction 1 as [|n s ch path b rest segs binds fin Hin Hs Hm IH].
  - reflexivity.
  - rewrite map_app, IH, (seg_match_binding _ _ _ _ Hs).
    unfold seg_keys. simpl. destruct (seg_key s); reflexivity.
Qed.

Lemma seg_keys_length segs :
  length (seg_keys segs) = length (List.filter seg_binds segs).
Proof.
  unfold seg_keys, seg_binds.
  induction segs as [|s segs IH]; [reflexivity|].
  change (omap seg_key (s :: segs))
    with (match seg_key s with
          | Some y => y :: omap seg_key segs
          | None => omap seg_key segs
          end).
  cbn [List.filter]. destruct (seg_key s); cbn [length]; rewrite IH; reflexivity.
Qed.

Lemma balanced_cleared rctx : balanced (set_routeParams no_params rctx).
Proof. reflexivity. Qed.

(** ** Parameters after a lookup *)

(** C9: when a lookup succeeds, whatever partial matches were tried and
    abandoned before, the lookup stack holds exactly the bindings of the
    winning path: one per named, regex or wildcard segment, outermost
    first, under the keys of those segments; and just these are appended
    to the finalized parameters. *)
Theorem FindRoute_params (t : node) (rctx : Context) (method : methodTyp)
        (path : string) (fin : node) (h : Handler) (c' : Context) :
  FindRoute t rctx method path = (Some (fin, h), c') ->
  exists segs binds,
    matches t path segs binds fin /\
    routeParams c' = mkRouteParams (map fst binds) (map snd binds) /\
    Keys (routeParams c') = seg_keys segs /\
    length (Keys (routeParams c')) = length (List.filter seg_binds segs) /\
    length (Values (routeParams c')) = length (List.filter seg_binds segs) /\
    URLParams c'
    = mkRouteParams (Keys (URLParams rctx) ++ map fst binds)
                    (Values (URLParams rctx) ++ map snd binds).
Proof.
  unfold FindRoute. intros H.
  pose proof (findRoute_ok method t path _ (balanced_cleared rctx)) as Hok.
  destruct (findRoute t method path (set_routeParams no_params rctx))
    as [[rn|] c1]; [|discriminate].
  destruct Hok as (Hf & _ & segs & binds & Hm & Hl & Hp). cbn [fst snd] in *.
  destruct (ep_lookup (node_eps rn) method); [|discriminate].
  injection H as <- <- <-.
  exists segs, binds. split; [exact Hm|].
  assert (Hst : routeParams c1 = mkRouteParams (map fst binds) (map snd binds))
    by (rewrite Hp; reflexivity).
  cbn [routeParams set_URLParams URLParams]. rewrite Hst. cbn [Keys Values].
  split; [reflexivity|]. split; [apply (matches_keys _ _ _ _ _ Hm)|].
  split; [rewrite (matches_keys _ _ _ _ _ Hm); apply seg_keys_length|].
  split.
  - rewrite length_map, <- (length_map fst), (matches_keys _ _ _ _ _ Hm).
    apply seg_keys_length.
  - destruct Hf as (_ & _ & _ & ->). reflexivity.
Qed.

(** ** How a request is classified *)

(** Some registered pattern matches the path. *)
Definition pattern_matches (t : node) (path : string) : Prop :=
  exists segs binds fin,
    matches t path segs binds fin /\ is_leaf (node_eps fin) = true.

(** Some registered pattern matches the path and has an entry that
    applies to the method. *)
Definition method_matches (t : node) (path : string) (method : methodTyp) : Prop :=
  exists segs binds fin,
    matches t path segs binds fin /\ is_Some (ep_lookup (node_eps fin) method).

Lemma method_matches_pattern t path method :
  method_matches t path method -> pattern_matches t path.
Proof.
  intros (segs & binds & fin & Hm & h & Hl).
  exists segs, binds, fin. split; [exact Hm|]. eapply is_leaf_lookup, Hl.
Qed.

(** What [FindRoute] answers, in terms of the patterns of the tree. *)
Lemma FindRoute_classifies (t : node) (rctx : Context) (method : methodTyp)
      (path : string) :
  methodNotAllowed rctx = false ->
  match FindRoute t rctx method path with
  | (Some _, _) => method_matches t path method
  | (None, c') =>
      ~ method_matches t path method /\
      (methodNotAllowed c' = true <-> pattern_matches t path)
  end.
Proof.
  intros Hflag. unfold FindRoute.
  pose proof (findRoute_ok method t path _ (balanced_cleared rctx)) as Hok.
  destruct (findRoute t method path (set_routeParams no_params rctx))
    as [[rn|] c1]; destruct Hok as (Hf & _ & Hok); cbn [fst snd] in *.
  - destruct Hok as (segs & binds & Hm & Hl & Hp).
    destruct Hl as [h Hl]. rewrite Hl. exists segs, binds, rn.
    split; [exact Hm|]. rewrite Hl. eauto.
  - destruct Hok as (_ & Hn & Hfl). split.
    + intros (segs & binds & fin & Hm & h & Hl).
      rewrite (Hn _ _ _ Hm) in Hl. discriminate.
    + rewrite Hfl. simpl. rewrite Hflag. unfold pattern_matches.
      split; [intros [?|?]; [discriminate|assumption]|auto].
Qed.

(** C1, as the code has it: for a request whose routing context has the
    method-not-allowed flag down, as at the start of a top-level dispatch,
    and whose resolved method is in the registry, [routeHTTP] settles on
    the not-found handler exactly when no registered pattern matches the
    path, on the method-not-allowed handler exactly when some pattern
    matches the path but none of the matching ones has an entry for the
    method, and on a route's handler otherwise.  A method that is not in
    the registry goes to the method-not-allowed handler without any
    lookup. *)
Theorem route_select_classifies (mm : gmap string methodTyp) (t : node)
        (r : Request) (rctx : Context) :
  methodNotAllowed rctx = false ->
  let path := requestPath r rctx in
  let sel := fst (route_select mm t r rctx) in
  match mm !! RouteMethod (resolveMethod r rctx) with
  | None => sel = SelMethodNotAllowed
  | Some method =>
      (sel = SelNotFound <-> ~ pattern_matches t path) /\
      (sel = SelMethodNotAllowed <->
       pattern_matches t path /\ ~ method_matches t path method) /\
      ((exists h, sel = SelHandler h) <-> method_matches t path method)
  end.
Proof.
  intros Hflag path sel. subst path sel. unfold route_select.
  assert (Hflag' : methodNotAllowed (resolveMethod r rctx) = false).
  { unfold resolveMethod. destruct (Str.is_empty (RouteMethod rctx)); exact Hflag. }
  destruct (mm !! RouteMethod (resolveMethod r rctx)) as [method|]; [|reflexivity].
  pose proof (FindRoute_classifies t (resolveMethod r rctx) method
                                   (requestPath r rctx) Hflag') as Hc.
  destruct (FindRoute t (resolveMethod r rctx) method (requestPath r rctx))
    as [[[rn h]|] c'].
  - cbn [fst]. pose proof (method_matches_pattern _ _ _ Hc) as Hp.
    split; [split; [discriminate|tauto]|].
    split; [split; [discriminate|tauto]|].
    split; [auto|eauto].
  - destruct Hc as [Hn Hfl].
    destruct (methodNotAllowed c') eqn:Hf; cbn [fst].
    + assert (Hp : pattern_matches t (requestPath r rctx)) by (apply Hfl; reflexivity).
      split; [split; [discriminate|tauto]|].
      split; [tauto|].
      split; [intros [h Hh]; discriminate|tauto].
    + assert (Hp : ~ pattern_matches t (requestPath r rctx)).
      { intros Hp. apply Hfl in Hp. discriminate. }
      split; [tauto|].
      split; [split; [discriminate|tauto]|].
      split; [intros [h Hh]; discriminate|tauto].
Qed.

(** ** Static patterns win *)

Lemma str_app_nil_r (s : string) : s +:+ "" = s.
Proof.
  induction s as [|a s IH]; [reflexivity|].
  rewrite append_cons, IH. reflexivity.
Qed.

Lemma str_app_assoc (a b c : string) : (a +:+ b) +:+ c = a +:+ (b +:+ c).
Proof.
  induction a as [|x a IH]; [reflexivity|].
  rewrite !append_cons, IH. reflexivity.
Qed.

Lemma str_length_app (a b : string) :
  String.length (a +:+ b) = (String.length a + String.length b)%nat.
Proof.
  induction a as [|x a IH]; [reflexivity|].
  rewrite append_cons. simpl. rewrite IH. reflexivity.
Qed.

(** A literal that is a prefix of the path and at least as long is the
    path. *)
Lemma strip_prefix_full lit path rest :
  Str.strip_prefix lit path = Some rest ->
  (String.length path <= String.length lit)%nat ->
  lit = path.
Proof.
  intros H Hlen. apply strip_prefix_Some in H. subst path.
  rewrite str_length_app in Hlen.
  destruct rest as [|x rest]; [symmetry; apply str_app_nil_r|].
  simpl in Hlen. lia.
Qed.

(** A placeholder opens with a segment that is not a literal. *)
Lemma parse_expr_head s name acc k :
  parse_from rx_valid s (PExpr name acc) = Some k ->
  exists seg k', k = seg :: k' /\ seg_kind seg <> KStatic.
Proof.
  revert acc. induction s as [|c s IH]; intros acc H; simpl in H; [discriminate|].
  destruct (Ascii.eqb c "}").
  - destruct (rx_valid acc); [|discriminate].
    destruct (parse_from rx_valid s (PLit "")) as [k0|]; [|discriminate].
    injection H as <-. eexists _, _. split; [reflexivity|discriminate].
  - destruct (Ascii.eqb c "{"); [discriminate|]. eapply IH, H.
Qed.

Lemma parse_name_head s acc k :
  parse_from rx_valid s (PName acc) = Some k ->
  exists seg k', k = seg :: k' /\ seg_kind seg <> KStatic.
Proof.
  revert acc. induction s as [|c s IH]; intros acc H; simpl in H; [discriminate|].
  destruct (Ascii.eqb c "}").
  - destruct (parse_from rx_valid s (PLit "")) as [k0|]; [|discriminate].
    injection H as <-. eexists _, _. split; [reflexivity|discriminate].
  - destruct (Ascii.eqb c ":"); [eapply parse_expr_head, H|].
    destruct (Ascii.eqb c "{"); [discriminate|]. eapply IH, H.
Qed.

(** A pattern that parses to one literal is that literal. *)
Lemma parse_literal s acc lit :
  parse_from rx_valid s (PLit acc) = Some [Static lit] -> lit = acc +:+ s.
Proof.
  revert acc. induction s as [|c s IH]; intros acc H; simpl in H.
  - unfold flush in H. destruct (Str.is_empty acc); [discriminate|].
    injection H as <-. symmetry. apply str_app_nil_r.
  - destruct (Ascii.eqb c "{").
    { destruct (parse_from rx_valid s (PName "")) as [k|] eqn:E; [|discriminate].
      apply parse_name_head in E. destruct E as (seg & k' & -> & Hk).
      simpl in H. unfold flush in H. destruct (Str.is_empty acc).
      - injection H as -> _. contradiction Hk. reflexivity.
      - discriminate. }
    destruct (Ascii.eqb c "*").
    { exfalso. unfold flush in H.
      destruct (Str.head_char s) as [a|];
        [destruct (Ascii.eqb_spec a "/"%char) as [->|]|].
      - destruct (Str.is_empty acc); discriminate.
      - destruct a as [[] [] [] [] [] [] [] []]; try discriminate;
          destruct (Str.is_empty acc); discriminate.
      - destruct (Str.is_empty acc); discriminate. }
    destruct (_ && _); [discriminate|].
    apply IH in H. rewrite H. unfold Str.snoc. rewrite str_app_assoc.
    reflexivity.
Qed.

Lemma parsePattern_literal pattern lit :
  parsePattern rx_valid pattern = Some [Static lit] -> pattern = lit.
Proof. intros H. apply parse_literal in H. rewrite H. reflexivity. Qed.

(** A mask applies to a method when it holds the bit of the method or the
    any-method bit. *)
Definition applies (mask method : methodTyp) : Prop :=
  method ∈ concrete_bits mask \/ has_bit mask mALL = true.

Lemma foldr_insert_lookup (h : Handler) (bits : list Z) (m0 : gmap Z Handler) (k : Z) :
  foldr (fun b m => <[b := h]> m) m0 bits !! k
  = if bool_decide (k ∈ bits) then Some h else m0 !! k.
Proof.
  induction bits as [|b bits IH].
  - rewrite bool_decide_eq_false_2 by apply not_elem_of_nil. reflexivity.
  - cbn [foldr]. destruct (decide (b = k)) as [->|Hne].
    + rewrite lookup_insert_eq.
      rewrite bool_decide_eq_true_2 by apply list_elem_of_here. reflexivity.
    + rewrite lookup_insert_ne by exact Hne. rewrite IH.
      apply (f_equal (fun (b : bool) => if b then Some h else m0 !! k)).
      apply bool_decide_ext. rewrite elem_of_cons. split; [auto|].
      intros [?|?]; [congruence|assumption].
Qed.

(** After a registration the entry for a method is the new handler, under
    a mask that applies to the method, or the entry it was. *)
Lemma ep_lookup_set mask h eps m :
  (ep_lookup (setEndpoint mask h eps) m = Some h /\ applies mask m) \/
  ep_lookup (setEndpoint mask h eps) m = ep_lookup eps m.
Proof.
  unfold ep_lookup, setEndpoint, applies. cbn [ep_by ep_any].
  rewrite foldr_insert_lookup.
  case_bool_decide as E.
  - left. split; [reflexivity|left; exact E].
  - destruct (ep_by eps !! m); [right; reflexivity|].
    destruct (has_bit mask mALL) eqn:Ea; [left|right; reflexivity].
    split; [reflexivity|right; reflexivity].
Qed.

Lemma ep_lookup_set_applies mask h eps m :
  applies mask m -> is_Some (ep_lookup (setEndpoint mask h eps) m).
Proof.
  unfold ep_lookup, setEndpoint, applies. cbn [ep_by ep_any].
  rewrite foldr_insert_lookup. intros [H|H].
  - case_bool_decide; [eauto|contradiction].
  - case_bool_decide; [eauto|].
    destruct (ep_by eps !! m); [eauto|]. rewrite H. eauto.
Qed.

Lemma ep_lookup_set_mono mask h eps m :
  is_Some (ep_lookup eps m) -> is_Some (ep_lookup (setEndpoint mask h eps) m).
Proof.
  intros Hs. destruct (ep_lookup_set mask h eps m) as [[E _]|E]; rewrite E; eauto.
Qed.

(** Static children are met longest literal first. *)
Fixpoint ok_statics (ss : list Segment) : Prop :=
  match ss with
  | [] => True
  | s :: ss' =>
      (seg_kind s = KStatic ->
       forall s', In s' ss' -> seg_kind s' = KStatic ->
                  (lit_length s' <= lit_length s)%nat) /\
      ok_statics ss'
  end.

Lemma update_child_labels s g cs : map fst (update_child s g cs) = map fst cs.
Proof.
  induction cs as [|[s' c] cs IH]; [reflexivity|].
  simpl. destruct (same_child s s'); simpl; [reflexivity|]. rewrite IH. reflexivity.
Qed.

Lemma place_child_In s c cs x :
  In x (map fst (place_child s c cs)) -> x = s \/ In x (map fst cs).
Proof.
  induction cs as [|[s' c'] cs IH]; simpl.
  - intros [<-|[]]. auto.
  - destruct (_ && _); simpl.
    + intros [<-|[<-|H]]; auto.
    + intros [<-|H]; [auto|]. destruct (IH H); auto.
Qed.

Lemma place_child_ok s c cs :
  ok_statics (map fst cs) -> ok_statics (map fst (place_child s c cs)).
Proof.
  induction cs as [|[s' c'] cs IH]; cbn [place_child map fst ok_statics].
  - intros _. split; [intros _ ? []|exact I].
  - intros [Hhd Htl].
    destruct (bool_decide (seg_kind s = KStatic)
              && bool_decide (seg_kind s' = KStatic)
              && (lit_length s' <? lit_length s)%nat) eqn:E;
      cbn [map fst ok_statics].
    + apply andb_true_iff in E. destruct E as [E El].
      apply andb_true_iff in E. destruct E as [Ek Ek'].
      apply bool_decide_eq_true in Ek, Ek'. apply Nat.ltb_lt in El.
      split; [|split; [exact Hhd|exact Htl]].
      intros _ x [<-|Hin] Hx; [lia|].
      specialize (Hhd Ek' x Hin Hx). lia.
    + split; [|apply IH, Htl].
      intros Hs' x Hin Hx. apply place_child_In in Hin.
      destruct Hin as [->|Hin]; [|apply Hhd; assumption].
      rewrite !bool_decide_eq_true_2 in E by assumption.
      cbn [andb] in E. apply Nat.ltb_ge in E. exact E.
Qed.

Lemma same_child_static_l lit s :
  same_child (Static lit) s = bool_decide (s = Static lit).
Proof.
  destruct s; simpl; try reflexivity.
  apply bool_decide_ext. split; congruence.
Qed.

Lemma same_child_static_r lit s :
  same_child s (Static lit) = bool_decide (s = Static lit).
Proof.
  destruct s; simpl; try reflexivity.
  apply bool_decide_ext. split; congruence.
Qed.

Lemma same_child_refl_static lit : same_child (Static lit) (Static lit) = true.
Proof. simpl. apply bool_decide_eq_true. reflexivity. Qed.

(** The child that serves the literal [lit], before and after an
    insertion along [segs]. *)
Lemma find_child_update lit s g cs :
  find_child (same_child (Static lit)) (update_child s g cs)
  = if same_child s (Static lit)
    then option_map g (find_child (same_child (Static lit)) cs)
    else find_child (same_child (Static lit)) cs.
Proof.
  rewrite same_child_static_r.
  induction cs as [|[s' c] cs IH]; cbn [update_child find_child].
  - case_bool_decide; reflexivity.
  - rewrite (same_child_static_l lit s').
    destruct (same_child s s') eqn:E1; cbn [find_child].
    + rewrite (same_child_static_l lit s').
      case_bool_decide as E2; case_bool_decide as E3; try reflexivity; subst.
      * rewrite ?same_child_static_r, ?same_child_static_l in E1.
        apply bool_decide_eq_true in E1. congruence.
      * rewrite ?same_child_static_r, ?same_child_static_l in E1.
        apply bool_decide_eq_true in E1. congruence.
    + rewrite (same_child_static_l lit s'), IH.
      repeat case_bool_decide; subst; try reflexivity.
      rewrite same_child_refl_static in E1. discriminate.
Qed.

Lemma find_child_place lit s c cs :
  has_child s cs = false ->
  find_child (same_child (Static lit)) (place_child s c cs)
  = if same_child s (Static lit) then Some c
    else find_child (same_child (Static lit)) cs.
Proof.
  unfold has_child. rewrite same_child_static_r.
  induction cs as [|[s' c'] cs IH]; cbn [place_child find_child existsb fst].
  - intros _. rewrite same_child_static_l. reflexivity.
  - intros H. apply orb_false_iff in H. destruct H as [H1 H2].
    destruct (_ && _); cbn [find_child].
    + rewrite !same_child_static_l. case_bool_decide; reflexivity.
    + rewrite (IH H2), same_child_static_l.
      repeat case_bool_decide; subst; try reflexivity.
      rewrite same_child_refl_static in H1. discriminate.
Qed.

(** A registration: the mask, the pattern and the handler given to
    [InsertRoute]. *)
Definition registration : Type := Z * string * Handler.

(** [tree_of rs t]: the tree [t] is what the registrations [rs], made in
    this order on a new tree, have built; in between, nodes may have been
    marked as mount points. *)
Inductive tree_of : list registration -> node -> Prop :=
| tree_new : tree_of [] empty_node
| tree_insert rs t mask pattern h t' loc :
    tree_of rs t ->
    InsertRoute t mask pattern h = Some (t', loc) ->
    tree_of (rs ++ [(mask, pattern, h)]) t'
| tree_mark rs t loc sub :
    tree_of rs t ->
    tree_of rs (insert_at loc (set_subroutes sub) t).

Lemma has_child_find s cs :
  has_child s cs = is_some (find_child (same_child s) cs).
Proof.
  unfold has_child. induction cs as [|[s' c] cs IH]; [reflexivity|].
  cbn [existsb find_child fst]. destruct (same_child s s'); [reflexivity|exact IH].
Qed.

Lemma insert_at_cons s segs f n :
  insert_at (s :: segs) f n
  = Node (if has_child s (children n)
          then update_child s (insert_at segs f) (children n)
          else place_child s (insert_at segs f empty_node) (children n))
         (node_eps n) (node_subroutes n) (node_pattern n).
Proof. destruct n as [cs eps sub pat]. simpl. destruct (has_child s cs); reflexivity. Qed.

(** Where an insertion leaves the child that serves [lit]. *)
Lemma insert_at_target lit s segs f n :
  find_child (same_child (Static lit)) (children (insert_at (s :: segs) f n))
  = if same_child s (Static lit)
    then Some (insert_at segs f
                 (default empty_node
                    (find_child (same_child (Static lit)) (children n))))
    else find_child (same_child (Static lit)) (children n).
Proof.
  rewrite insert_at_cons. cbn [children].
  destruct (has_child s (children n)) eqn:Hc.
  - rewrite find_child_update.
    destruct (same_child s (Static lit)) eqn:E; [|reflexivity].
    rewrite same_child_static_r in E. apply bool_decide_eq_true in E. subst s.
    rewrite has_child_find in Hc.
    destruct (find_child (same_child (Static lit)) (children n)); [reflexivity|discriminate].
  - rewrite (find_child_place _ _ _ _ Hc).
    destruct (same_child s (Static lit)) eqn:E; [|reflexivity].
    rewrite same_child_static_r in E. apply bool_decide_eq_true in E. subst s.
    rewrite has_child_find in Hc.
    destruct (find_child (same_child (Static lit)) (children n)); [discriminate|reflexivity].
Qed.

Lemma insert_at_sorted segs f n :
  (forall t, children (f t) = children t) ->
  ok_statics (map fst (children n)) ->
  ok_statics (map fst (children (insert_at segs f n))).
Proof.
  intros Hf. destruct segs as [|s segs]; [simpl; rewrite Hf; auto|].
  rewrite insert_at_cons. cbn [children]. intros H.
  destruct (has_child s (children n)).
  - rewrite update_child_labels. exact H.
  - apply place_child_ok, H.
Qed.

(** An insertion touches the method table and the pattern of the node
    it ends at, and of no other. *)
Lemma insert_at_keeps segs f n :
  (segs <> [] \/ forall t, node_eps (f t) = node_eps t /\ node_pattern (f t) = node_pattern t) ->
  node_eps (insert_at segs f n) = node_eps n /\
  node_pattern (insert_at segs f n) = node_pattern n.
Proof.
  destruct segs as [|s segs].
  - intros [H|H]; [contradiction|]. apply H.
  - intros _. rewrite insert_at_cons. auto.
Qed.

Section StaticWins.

Variable lit : string.
Variable method : Z.
Hypothesis lit_parses : parsePattern rx_valid lit = Some [Static lit].

(** What the registrations guarantee about the child of the root that
    serves the literal pattern [lit]. *)
Record static_inv (rs : list registration) (t : node) : Prop := {
  inv_sorted : ok_statics (map fst (children t));
  inv_present :
    (exists mask h, In (mask, lit, h) rs /\ applies mask method) ->
    exists ch, find_child (same_child (Static lit)) (children t) = Some ch /\
               is_Some (ep_lookup (node_eps ch) method);
  inv_origin :
    forall ch h,
      find_child (same_child (Static lit)) (children t) = Some ch ->
      ep_lookup (node_eps ch) method = Some h ->
      exists mask, In (mask, lit, h) rs /\ applies mask method;
  inv_pattern :
    forall ch,
      find_child (same_child (Static lit)) (children t) = Some ch ->
      node_pattern ch = lit \/ node_eps ch = no_endpoints
}.

Lemma static_inv_new : static_inv [] empty_node.
Proof.
  split; simpl.
  - exact I.
  - intros (? & ? & [] & _).
  - discriminate.
  - discriminate.
Qed.

Lemma ep_lookup_none m : ep_lookup no_endpoints m = None.
Proof. unfold ep_lookup. simpl. rewrite lookup_empty. reflexivity. Qed.

(** Marking a node, or inserting below the child, leaves the invariant. *)
Lemma static_inv_keep rs t segs f :
  (forall t0, children (f t0) = children t0) ->
  (segs <> [Static lit]
   \/ forall t0, node_eps (f t0) = node_eps t0 /\ node_pattern (f t0) = node_pattern t0) ->
  static_inv rs t -> static_inv rs (insert_at segs f t).
Proof.
  intros Hf Hk [Hs Hp Ho Hpat].
  assert (Htgt : forall ch',
             find_child (same_child (Static lit)) (children (insert_at segs f t)) = Some ch' ->
             exists ch0,
               (find_child (same_child (Static lit)) (children t) = Some ch0
                \/ (find_child (same_child (Static lit)) (children t) = None /\ ch0 = empty_node)) /\
               node_eps ch' = node_eps ch0 /\ node_pattern ch' = node_pattern ch0).
  { intros ch' Hch'. destruct segs as [|s segs].
    - simpl in Hch'. rewrite Hf in Hch'. exists ch'. auto.
    - rewrite insert_at_target in Hch'.
      destruct (same_child s (Static lit)) eqn:E; [|exists ch'; auto].
      rewrite same_child_static_r in E. apply bool_decide_eq_true in E. subst s.
      injection Hch' as <-.
      assert (Hk' : segs <> [] \/
                    forall t0, node_eps (f t0) = node_eps t0 /\
                               node_pattern (f t0) = node_pattern t0).
      { destruct Hk as [Hk|Hk]; [left; congruence|right; exact Hk]. }
      destruct (find_child (same_child (Static lit)) (children t)) as [ch0|].
      + exists ch0. split; [left; reflexivity|]. apply insert_at_keeps, Hk'.
      + exists empty_node. split; [right; auto|]. apply insert_at_keeps, Hk'. }
  split.
  - apply insert_at_sorted; assumption.
  - intros Hreg. destruct (Hp Hreg) as (ch0 & Hch0 & Hl).
    destruct segs as [|s segs].
    + simpl. rewrite Hf. eauto.
    + rewrite insert_at_target.
      destruct (same_child s (Static lit)) eqn:E; [|eauto].
      eexists. split; [reflexivity|]. rewrite Hch0.
      change (default empty_node (Some ch0)) with ch0.
      rewrite same_child_static_r in E. apply bool_decide_eq_true in E. subst s.
      assert (Hk' : segs <> [] \/
                    forall t0, node_eps (f t0) = node_eps t0 /\
                               node_pattern (f t0) = node_pattern t0).
      { destruct Hk as [Hk|Hk]; [left; congruence|right; exact Hk]. }
      destruct (insert_at_keeps segs f ch0 Hk') as [-> _]. exact Hl.
  - intros ch' h Hch' Hl.
    destruct (Htgt ch' Hch') as (ch0 & [H0|[H0 ->]] & He & _); rewrite He in Hl.
    + eapply Ho; eassumption.
    + rewrite ep_lookup_none in Hl. discriminate.
  - intros ch' Hch'.
    destruct (Htgt ch' Hch') as (ch0 & [H0|[H0 ->]] & He & Hpt); rewrite He, Hpt.
    + apply Hpat, H0.
    + right. reflexivity.
Qed.

(** Registering under [lit] itself. *)
Lemma static_inv_register rs t mask h :
  static_inv rs t ->
  static_inv (rs ++ [(mask, lit, h)])
    (insert_at [Static lit]
       (fun t0 => Node (children t0) (setEndpoint mask h (node_eps t0))
                       (node_subroutes t0) lit) t).
Proof.
  intros [Hs Hp Ho Hpat].
  set (f := fun t0 => Node (children t0) (setEndpoint mask h (node_eps t0))
                           (node_subroutes t0) lit).
  assert (Htgt : find_child (same_child (Static lit))
                            (children (insert_at [Static lit] f t))
                 = Some (f (default empty_node
                              (find_child (same_child (Static lit)) (children t))))).
  { rewrite insert_at_target, same_child_refl_static. reflexivity. }
  split.
  - apply insert_at_sorted; [reflexivity|exact Hs].
  - intros (mask' & h' & Hin & Ha). rewrite Htgt. eexists. split; [reflexivity|].
    cbn [f node_eps]. apply in_app_or in Hin. destruct Hin as [Hin|[E|[]]].
    + destruct Hp as (ch0 & -> & Hl); [eauto|]. apply ep_lookup_set_mono, Hl.
    + injection E as <- <-. apply ep_lookup_set_applies, Ha.
  - intros ch' h' Hch' Hl. rewrite Htgt in Hch'. injection Hch' as <-.
    cbn [f node_eps] in Hl.
    destruct (ep_lookup_set mask h
                (node_eps (default empty_node
                             (find_child (same_child (Static lit)) (children t))))
                method) as [[E Ha]|E]; rewrite E in Hl.
    + injection Hl as <-. exists mask. split; [|exact Ha].
      apply in_or_app. right. left. reflexivity.
    + destruct (find_child (same_child (Static lit)) (children t)) as [ch0|] eqn:E0.
      * destruct (Ho ch0 h' eq_refl Hl) as (mask' & Hin & Ha).
        exists mask'. split; [apply in_or_app; left; exact Hin|exact Ha].
      * simpl in Hl. rewrite ep_lookup_none in Hl. discriminate.
  - intros ch' Hch'. rewrite Htgt in Hch'. injection Hch' as <-. left. reflexivity.
Qed.

(** A registration under another pattern adds nothing for [lit]. *)
Lemma static_inv_more rs t r :
  snd (fst r) <> lit -> static_inv rs t -> static_inv (rs ++ [r]) t.
Proof.
  intros Hne [Hs Hp Ho Hpat]. split.
  - exact Hs.
  - intros (mask & h & Hin & Ha). apply Hp.
    apply in_app_or in Hin. destruct Hin as [Hin|[->|[]]]; [eauto|].
    contradiction Hne. reflexivity.
  - intros ch h Hch Hl. destruct (Ho ch h Hch Hl) as (mask & Hin & Ha).
    exists mask. split; [apply in_or_app; left; exact Hin|exact Ha].
  - exact Hpat.
Qed.

(** The invariant holds of every tree that registrations build. *)
Lemma tree_of_static_inv rs t : tree_of rs t -> static_inv rs t.
Proof.
  induction 1 as [|rs t mask pattern h t' loc Ht IH Hins|rs t loc sub Ht IH].
  - apply static_inv_new.
  - unfold InsertRoute in Hins.
    destruct (parsePattern rx_valid pattern) as [segs|] eqn:Hparse; [|discriminate].
    injection Hins as <- <-.
    destruct (decide (segs = [Static lit])) as [->|Hne].
    + apply parsePattern_literal in Hparse. subst pattern.
      apply static_inv_register, IH.
    + apply static_inv_keep; [reflexivity|left; exact Hne|].
      apply static_inv_more; [|exact IH].
      cbn [fst snd]. intros ->. rewrite lit_parses in Hparse. congruence.
  - apply static_inv_keep; [reflexivity|right; intros t0; split; reflexivity|exact IH].
Qed.

(** Among the static children, in list order, the one under the whole
    path is the first that matches a prefix of the path. *)
Lemma try_static_hit (cs : list (Segment * node)) (ch : node) (h : Handler)
      (c : Context) :
  ok_statics (map fst cs) ->
  find_child (same_child (Static lit)) cs = Some ch ->
  ep_lookup (node_eps ch) method = Some h ->
  try_children (fun ch0 rest c' => findRoute ch0 method rest c') KStatic lit cs c
  = (Some ch, c).
Proof.
  intros Hs Hf Hl. induction cs as [|[s' c'] cs IH]; [discriminate|].
  cbn [find_child] in Hf. cbn [map fst ok_statics] in Hs. destruct Hs as [Hhd Htl].
  cbn [try_children]. rewrite same_child_static_l in Hf.
  case_bool_decide as Es.
  - injection Hf as ->. subst s'.
    rewrite bool_decide_eq_true_2 by reflexivity.
    cbn [seg_match]. rewrite strip_prefix_self.
    destruct ch as [cs0 eps0 sub0 pat0]. cbn [findRoute node_eps] in *.
    unfold at_node. cbn [Str.is_empty push_param].
    rewrite (is_leaf_lookup _ _ _ Hl), Hl. reflexivity.
  - case_bool_decide as Ek; [|apply IH; assumption].
    destruct s' as [l'| | |]; try discriminate.
    cbn [seg_match].
    destruct (Str.strip_prefix l' lit) as [rest|] eqn:Ep; [|apply IH; assumption].
    exfalso. apply Es. f_equal.
    apply (strip_prefix_full _ _ _ Ep).
    assert (Hin : In (Static lit) (map fst cs)).
    { clear -Hf. induction cs as [|[s0 c0] cs IH]; [discriminate|].
      cbn [find_child] in Hf. rewrite same_child_static_l in Hf.
      case_bool_decide as E; [left; exact E|right; apply IH, Hf]. }
    apply (Hhd eq_refl (Static lit) Hin eq_refl).
Qed.

(** A lookup of the literal path [lit] answers with the node of the
    pattern [lit], whatever else is registered. *)
Lemma FindRoute_static rs t rctx :
  lit <> "" ->
  tree_of rs t ->
  (exists mask h, In (mask, lit, h) rs /\ applies mask method) ->
  exists fin h,
    FindRoute t rctx method lit
    = (Some (fin, h),
       set_URLParams (mkRouteParams (Keys (URLParams rctx) ++ [])
                                    (Values (URLParams rctx) ++ []))
                     (set_routeParams no_params rctx)) /\
    node_pattern fin = lit /\
    exists mask, In (mask, lit, h) rs /\ applies mask method.
Proof.
  intros Hne Ht Hreg. destruct (tree_of_static_inv rs t Ht) as [Hs Hp Ho Hpat].
  destruct (Hp Hreg) as (ch & Hch & h & Hl).
  exists ch, h. split; [|split; [|eapply Ho; eassumption]].
  - unfold FindRoute. destruct t as [cs eps sub pat]. cbn [findRoute children] in *.
    unfold at_node. destruct lit as [|a l] eqn:El; [contradiction|].
    cbn [Str.is_empty]. rewrite <- El in *. cbn [priority try_kinds].
    rewrite (try_static_hit cs ch h _ Hs Hch Hl). rewrite Hl. reflexivity.
  - destruct (Hpat ch Hch) as [E|E]; [exact E|].
    rewrite E, ep_lookup_none in Hl. discriminate.
Qed.
End StaticWins.

(** The group of children that wins at a node is the first one, in the
    order the groups are listed in, with a child that leads to a match
    with an entry for the method. *)
Lemma try_kinds_first m path l ks :
  Forall (fun ch => find_ok m (snd ch)) l ->
  forall c fin c', balanced c ->
    try_kinds (fun k c0 =>
                 try_children (fun ch rest c1 => findRoute ch m rest c1) k path l c0)
              ks c = (Some fin, c') ->
    exists before k after segs binds,
      ks = before ++ k :: after /\
      through_kind path k l segs binds fin /\
      is_Some (ep_lookup (node_eps fin) m) /\
      forall k' segs' binds' fin',
        In k' before -> through_kind path k' l segs' binds' fin' ->
        ep_lookup (node_eps fin') m = None.
Proof.
  clear rx_valid.
  intros Hl. induction ks as [|k ks IH]; intros c fin c' Hb H; [discriminate|].
  cbn [try_kinds] in H.
  destruct (try_children_ok m k path l c Hl Hb) as [H1 H2].
  destruct (try_children _ k path l c) as [[f|] c1].
  - injection H as <- <-. destruct H1 as (_ & _ & segs & binds & HQ & Hs & _).
    exists [], k, ks, segs, binds. split; [reflexivity|]. split; [exact HQ|].
    split; [exact Hs|]. intros k' ? ? ? [].
  - destruct H1 as (_ & _ & _ & Hnone & _). cbn [snd] in H2.
    destruct (IH c1 fin c' H2 H) as (before & k0 & after & segs & binds & E & HQ & Hs & Hb').
    exists (k :: before), k0, after, segs, binds. split; [rewrite E; reflexivity|].
    split; [exact HQ|]. split; [exact Hs|].
    intros k' segs' binds' fin' [<-|Hin] Hq; [eapply Hnone, Hq|eapply Hb'; eassumption].
Qed.

(** C6: in a tree in which [/users/{id}] and [/users/me] are both
    registered for the method of the request, the lookup of [/users/me]
    answers with the node of the static pattern and a handler registered
    under it, and binds no parameter.  And at every node the children are
    attempted static first, then regex, then named parameter, then
    wildcard: a lookup that goes on below a node succeeds whenever some
    child leads to a match with an entry for the method, and the match it
    returns goes through a child of the first kind, in that order, that
    has such a child. *)
Theorem static_beats_param (rs : list registration) (t : node)
        (rctx : Context) (method : Z) :
  tree_of rs t ->
  (exists mask h, In (mask, "/users/{id}", h) rs /\ applies mask method) ->
  (exists mask h, In (mask, "/users/me", h) rs /\ applies mask method) ->
  (exists fin h c',
      FindRoute t rctx method "/users/me" = (Some (fin, h), c') /\
      node_pattern fin = "/users/me" /\
      (exists mask, In (mask, "/users/me", h) rs /\ applies mask method) /\
      routeParams c' = no_params /\
      URLParams c' = URLParams rctx) /\
  (forall cs eps sub pat m path c, balanced c ->
      (forall fin c',
          findRoute (Node cs eps sub pat) m path c = (Some fin, c') ->
          (path = "" /\ fin = Node cs eps sub pat) \/
          exists before k after s ch segs binds,
            [KStatic; KRegex; KParam; KWild] = before ++ k :: after /\
            In (s, ch) cs /\ seg_kind s = k /\
            through path s ch segs binds fin /\
            is_Some (ep_lookup (node_eps fin) m) /\
            forall s' ch' segs' binds' fin',
              In (s', ch') cs -> In (seg_kind s') before ->
              through path s' ch' segs' binds' fin' ->
              ep_lookup (node_eps fin') m = None) /\
      (forall s ch segs binds fin0,
          In (s, ch) cs -> through path s ch segs binds fin0 ->
          is_Some (ep_lookup (node_eps fin0) m) ->
          exists fin c', findRoute (Node cs eps sub pat) m path c = (Some fin, c'))).
Proof.
  intros Ht _ Hme. split.
  { destruct (FindRoute_static "/users/me" method eq_refl rs t rctx
                               ltac:(discriminate) Ht Hme)
      as (fin & h & Hf & Hpat & Hreg).
    exists fin, h. eexists. split; [exact Hf|]. split; [exact Hpat|].
    split; [exact Hreg|]. split; [reflexivity|].
    cbn [URLParams set_URLParams set_routeParams]. rewrite !app_nil_r.
    apply routeParams_eta. }
  intros cs eps sub pat m path c Hb. split.
  - intros fin c' H. cbn [findRoute] in H.
    assert (Hl : Forall (fun ch => find_ok m (snd ch)) cs).
    { apply Forall_forall. intros ch _. apply findRoute_ok. }
    unfold at_node in H.
    assert (Hgo : forall c0, balanced c0 ->
              try_kinds (fun k c1 =>
                           try_children (fun ch rest c2 => findRoute ch m rest c2)
                                        k path cs c1) priority c0 = (Some fin, c') ->
              exists before k after s ch segs binds,
                [KStatic; KRegex; KParam; KWild] = before ++ k :: after /\
                In (s, ch) cs /\ seg_kind s = k /\
                through path s ch segs binds fin /\
                is_Some (ep_lookup (node_eps fin) m) /\
                forall s' ch' segs' binds' fin',
                  In (s', ch') cs -> In (seg_kind s') before ->
                  through path s' ch' segs' binds' fin' ->
                  ep_lookup (node_eps fin') m = None).
    { intros c0 Hb0 H0.
      destruct (try_kinds_first m path cs priority Hl c0 fin c' Hb0 H0)
        as (before & k & after & segs & binds & E & (s & ch & Hin & Hk & Hthr) & Hs & Hno).
      exists before, k, after, s, ch, segs, binds. split; [exact E|].
      split; [exact Hin|]. split; [exact Hk|]. split; [exact Hthr|].
      split; [exact Hs|]. intros s' ch' segs' binds' fin' Hin' Hk' Hthr'.
      apply (Hno (seg_kind s') segs' binds' fin' Hk'). exists s', ch'.
      split; [exact Hin'|]. split; [reflexivity|exact Hthr']. }
    destruct (Str.is_empty path) eqn:Hp.
    + destruct (is_leaf eps).
      * destruct (ep_lookup eps m).
        -- injection H as <- <-. left. split; [|reflexivity].
           destruct path; [reflexivity|discriminate].
        -- right. eapply Hgo; [|exact H]. exact Hb.
      * right. eapply Hgo; [|exact H]. exact Hb.
    + right. eapply Hgo; [|exact H]. exact Hb.
  - intros s ch segs binds fin0 Hin (b & rest & segs' & binds' & Hm & -> & -> & Hmt) Hs.
    pose proof (findRoute_ok m (Node cs eps sub pat) path c Hb) as (_ & _ & Hres).
    destruct (findRoute (Node cs eps sub pat) m path c) as [[fin|] c'];
      [eauto|]. cbn [fst] in Hres. destruct Hres as (_ & Hnone & _).
    rewrite (Hnone (s :: segs') (binding_list b ++ binds') fin0) in Hs.
    + destruct Hs. discriminate.
    + eapply matches_step; eassumption.
Qed.

(** ** Propagation of the not-found and method-not-allowed overrides *)

Lemma bind_ext {A B} (m : M A) (k k' : A -> M B) w :
  (forall a w', k a w' = k' a w') -> bind m k w = bind m k' w.
Proof. intros H. unfold bind. destruct (m w); auto. Qed.

Lemma forM_ext {A} (l : list A) (f g : A -> M unit) w :
  (forall a w', f a w' = g a w') -> forM_ l f w = forM_ l g w.
Proof.
  intros H. revert w. induction l as [|a l IH]; intros w; [reflexivity|].
  cbn [forM_]. unfold bind. rewrite H. destruct (g a w); auto.
Qed.

(** The store with engine [i] replaced. *)
Definition with_engine (w : World) (i : nat) (x : Engine) : World :=
  mkWorld (<[i := x]> (engines w)) (trees w) (pools w) (methodMap w) (trace w).

(** The pointers of the store are sound: every engine has its tree, and
    every sub-router mounted in a tree is an engine of its own, not an
    inline one. *)
Definition mounts_ok (w : World) : Prop :=
  (forall e x, engines w !! e = Some x -> is_Some (trees w !! tree x)) /\
  (forall i t r s,
      trees w !! i = Some t -> In r (routes t) -> SubRoutes r = Some s ->
      exists x, engines w !! s = Some x /\ inline x = false).

Section Propagation.

(** One of the two override fields of an engine. *)
Variable get : Engine -> option Handler.
Variable set : option Handler -> Engine -> Engine.
Hypothesis get_set : forall v x, get (set v x) = v.
Hypothesis set_get : forall x, set (get x) x = x.
Hypothesis set_set : forall u v x, set v (set u x) = set v x.
Hypothesis set_inline : forall v x, inline (set v x) = inline x.
Hypothesis set_tree : forall v x, tree (set v x) = tree x.

(** The common shape of [NotFound] and [MethodNotAllowed]. *)
Fixpoint propagate (fuel : nat) (mx : nat) (handlerFn : Handler) : M unit :=
  match fuel with
  | O => fun _ => OutOfFuel
  | S fuel' =>
      x <- getE mx ;;
      let '(m, hFn) :=
        match inline x, parent x with
        | true, Some p => (p, chain (middlewares x) handlerFn)
        | _, _ => (mx, handlerFn)
        end in
      modE m (set (Some hFn)) ;;;
      updateSubRoutes m
        (fun subMux =>
           sx <- getE subMux ;;
           when (negb (is_some (get sx))) (propagate fuel' subMux hFn))
  end.

(** How one engine may change while an override spreads: only in the
    field, and only from unset to the override. *)
Definition spread (hFn : Handler) (x x' : Engine) : Prop :=
  x' = set (get x') x /\ (get x' = get x \/ (get x = None /\ get x' = Some hFn)).

Definition evolves (hFn : Handler) (w w' : World) : Prop :=
  trees w' = trees w /\ pools w' = pools w /\ methodMap w' = methodMap w /\
  trace w' = trace w /\ Forall2 (spread hFn) (engines w) (engines w').

Lemma spread_refl hFn x : spread hFn x x.
Proof. split; [symmetry; apply set_get|left; reflexivity]. Qed.

Lemma spread_trans hFn x y z : spread hFn x y -> spread hFn y z -> spread hFn x z.
Proof.
  intros [E1 H1] [E2 H2]. split.
  - etransitivity; [exact E2|]. rewrite E1 at 1. apply set_set.
  - destruct H2 as [H2|[H2 H2']]; [rewrite H2; exact H1|].
    destruct H1 as [H1|[H1 H1']]; [|congruence].
    right. split; congruence.
Qed.

Lemma evolves_refl hFn w : evolves hFn w w.
Proof.
  repeat split. apply Forall2_same_length_lookup. split; [reflexivity|].
  intros i x y Hx Hy. rewrite Hx in Hy. injection Hy as <-. apply spread_refl.
Qed.

Lemma evolves_trans hFn w1 w2 w3 :
  evolves hFn w1 w2 -> evolves hFn w2 w3 -> evolves hFn w1 w3.
Proof.
  intros (A1 & A2 & A3 & A4 & A5) (B1 & B2 & B3 & B4 & B5).
  repeat split; try congruence.
  revert B5. generalize (engines w3). induction A5 as [|x y l l' Hxy Hl IH];
    intros l3 B5; inversion B5; subst; constructor.
  - eapply spread_trans; eassumption.
  - apply IH. assumption.
Qed.

(** The engines in which the field is unset. *)
Definition unset (w : World) : nat :=
  length (List.filter (fun x => negb (is_some (get x))) (engines w)).

Lemma spread_unset hFn l l' :
  Forall2 (spread hFn) l l' ->
  (length (List.filter (fun x => negb (is_some (get x))) l')
   <= length (List.filter (fun x => negb (is_some (get x))) l))%nat.
Proof.
  induction 1 as [|x y l l' [_ Hxy] Hl IH]; [reflexivity|].
  cbn [List.filter].
  destruct Hxy as [->|[-> ->]]; cbn [is_some negb].
  - destruct (negb (is_some (get x))); cbn [length]; lia.
  - cbn [length]. lia.
Qed.

Lemma evolves_unset hFn w w' : evolves hFn w w' -> (unset w' <= unset w)%nat.
Proof. intros (_ & _ & _ & _ & H). apply (spread_unset hFn), H. Qed.

Lemma spread_set_some hFn x : get x = None -> spread hFn x (set (Some hFn) x).
Proof.
  intros H. split; [rewrite get_set; reflexivity|].
  right. split; [exact H|apply get_set].
Qed.

Lemma evolves_with_engine hFn w i x :
  engines w !! i = Some x -> get x = None ->
  evolves hFn w (with_engine w i (set (Some hFn) x)).
Proof.
  intros Hx Hg. repeat split. cbn [engines with_engine].
  apply Forall2_same_length_lookup. split; [rewrite length_insert; reflexivity|].
  intros j y y' Hy Hy'. destruct (decide (i = j)) as [->|Hne].
  - rewrite list_lookup_insert_eq in Hy' by (eapply lookup_lt_Some; eassumption).
    injection Hy' as <-. rewrite Hx in Hy. injection Hy as <-.
    apply spread_set_some, Hg.
  - rewrite list_lookup_insert_ne in Hy' by exact Hne.
    rewrite Hy in Hy'. injection Hy' as <-. apply spread_refl.
Qed.

Lemma evolves_lookup hFn w w' i x :
  evolves hFn w w' -> engines w !! i = Some x ->
  exists x', engines w' !! i = Some x' /\ spread hFn x x'.
Proof.
  intros (_ & _ & _ & _ & H) Hx.
  destruct (Forall2_lookup_l _ _ _ _ _ H Hx) as (x' & Hx' & Hs). eauto.
Qed.

Lemma evolves_lookup_r hFn w w' i x' :
  evolves hFn w w' -> engines w' !! i = Some x' ->
  exists x, engines w !! i = Some x /\ spread hFn x x'.
Proof.
  intros (_ & _ & _ & _ & H) Hx.
  destruct (Forall2_lookup_r _ _ _ _ _ H Hx) as (x & Hx0 & Hs). eauto.
Qed.

Lemma spread_keeps hFn x x' : spread hFn x x' -> is_Some (get x) -> get x' = get x.
Proof.
  intros [_ [H|[H _]]] Hs; [exact H|]. rewrite H in Hs. destruct Hs. discriminate.
Qed.

Lemma spread_shape hFn x x' :
  spread hFn x x' -> inline x' = inline x /\ tree x' = tree x.
Proof. intros [E _]. rewrite E, set_inline, set_tree. auto. Qed.

Lemma evolves_mounts_ok hFn w w' : evolves hFn w w' -> mounts_ok w -> mounts_ok w'.
Proof.
  intros He [H1 H2]. pose proof He as (Ht & _). split.
  - intros e x' Hx'. destruct (evolves_lookup_r _ _ _ _ _ He Hx') as (x & Hx & Hs).
    destruct (spread_shape _ _ _ Hs) as [_ ->]. rewrite Ht. eapply H1, Hx.
  - intros i t r s Hi Hr Hsub. rewrite Ht in Hi.
    destruct (H2 i t r s Hi Hr Hsub) as (x & Hx & Hin).
    destruct (evolves_lookup _ _ _ _ _ He Hx) as (x' & Hx' & Hs).
    exists x'. split; [exact Hx'|].
    destruct (spread_shape _ _ _ Hs) as [-> _]. exact Hin.
Qed.

Lemma filter_insert_unset (l : list Engine) i x hFn :
  l !! i = Some x -> get x = None ->
  S (length (List.filter (fun x => negb (is_some (get x)))
                         (<[i := set (Some hFn) x]> l)))
  = length (List.filter (fun x => negb (is_some (get x))) l).
Proof.
  revert i. induction l as [|y l IH]; intros i Hi Hg; [discriminate|].
  destruct i as [|i]; cbn [List.filter].
  - injection Hi as ->. cbn [insert list_insert List.filter].
    rewrite get_set, Hg. reflexivity.
  - change (<[S i := set (Some hFn) x]> (y :: l))
      with (y :: <[i := set (Some hFn) x]> l).
    cbn [List.filter]. destruct (negb (is_some (get y))); cbn [length];
      rewrite <- (IH i Hi Hg); reflexivity.
Qed.

Lemma unset_with_engine w i x hFn :
  engines w !! i = Some x -> get x = None ->
  S (unset (with_engine w i (set (Some hFn) x))) = unset w.
Proof. intros Hi Hg. apply filter_insert_unset; assumption. Qed.


Lemma mounts_ok_with_engine w i x v :
  engines w !! i = Some x -> mounts_ok w -> mounts_ok (with_engine w i (set v x)).
Proof.
  intros Hx [H1 H2]. split; cbn [engines trees with_engine].
  - intros e y Hy. destruct (decide (i = e)) as [->|Hne].
    + rewrite list_lookup_insert_eq in Hy by (eapply lookup_lt_Some; eassumption).
      injection Hy as <-. rewrite set_tree. eapply H1, Hx.
    + rewrite list_lookup_insert_ne in Hy by exact Hne. eapply H1, Hy.
  - intros j t r s Hj Hr Hs. destruct (H2 j t r s Hj Hr Hs) as (y & Hy & Hin).
    destruct (decide (i = s)) as [->|Hne].
    + rewrite Hx in Hy. injection Hy as <-. exists (set v x).
      rewrite list_lookup_insert_eq by (eapply lookup_lt_Some; eassumption).
      rewrite set_inline. auto.
    + exists y. rewrite list_lookup_insert_ne by exact Hne. auto.
Qed.

(** What one iteration of [updateSubRoutes] runs on a route. *)
Definition visit (fuel : nat) (hFn : Handler) (r : Route) : M unit :=
  match SubRoutes r with
  | Some subMux =>
      sx <- getE subMux ;;
      when (negb (is_some (get sx))) (propagate fuel subMux hFn)
  | None => ret tt
  end.

(** A call on a plain engine whose field is unset, with fuel for at least
    the engines whose field is unset. *)
Definition call_ok (fuel : nat) (hFn : Handler) : Prop :=
  forall s w x,
    mounts_ok w -> engines w !! s = Some x -> inline x = false ->
    get x = None -> (unset w <= fuel)%nat ->
    exists w', propagate fuel s hFn w = Ok tt w' /\ evolves hFn w w' /\
               exists x', engines w' !! s = Some x' /\ get x' = Some hFn.

Lemma visit_all_ok fuel hFn :
  call_ok fuel hFn ->
  forall l w,
    mounts_ok w ->
    (forall r s, In r l -> SubRoutes r = Some s ->
                 exists x, engines w !! s = Some x /\ inline x = false) ->
    (unset w <= fuel)%nat ->
    exists w',
      forM_ l (visit fuel hFn) w = Ok tt w' /\ evolves hFn w w' /\
      (forall r s, In r l -> SubRoutes r = Some s ->
                   exists x', engines w' !! s = Some x' /\ is_Some (get x')).
Proof.
  intros Hcall. induction l as [|r l IH]; intros w Hok Hsubs Hfuel.
  - exists w. split; [reflexivity|]. split; [apply evolves_refl|]. intros ? ? [].
  - assert (Hstep : exists w1,
               visit fuel hFn r w = Ok tt w1 /\ evolves hFn w w1 /\
               (forall s, SubRoutes r = Some s ->
                          exists x1, engines w1 !! s = Some x1 /\ is_Some (get x1))).
    { unfold visit. destruct (SubRoutes r) as [s|] eqn:Hs.
      - destruct (Hsubs r s (or_introl eq_refl) Hs) as (x & Hx & Hin).
        unfold bind, getE. rewrite Hx. cbn beta iota.
        destruct (get x) as [v|] eqn:Hg; cbn [is_some negb when].
        + exists w. split; [reflexivity|]. split; [apply evolves_refl|].
          intros s' E. injection E as <-. exists x. rewrite Hg. eauto.
        + destruct (Hcall s w x Hok Hx Hin Hg Hfuel) as (w1 & Hp & He & x1 & Hx1 & Hg1).
          exists w1. split; [exact Hp|]. split; [exact He|].
          intros s' E. injection E as <-.
          exists x1. split; [exact Hx1|]. rewrite Hg1. eauto.
      - exists w. split; [reflexivity|]. split; [apply evolves_refl|]. discriminate. }
    destruct Hstep as (w1 & Hv & He1 & Hdone).
    destruct (IH w1) as (w' & Hl & He2 & Hrest).
    + eapply evolves_mounts_ok; eassumption.
    + intros r' s' Hr' Hs'. destruct (Hsubs r' s' (or_intror Hr') Hs') as (x & Hx & Hin).
      destruct (evolves_lookup _ _ _ _ _ He1 Hx) as (x1 & Hx1 & Hsp).
      exists x1. split; [exact Hx1|].
      destruct (spread_shape _ _ _ Hsp) as [-> _]. exact Hin.
    + pose proof (evolves_unset _ _ _ He1). lia.
    + exists w'. split; [|split].
      * cbn [forM_]. unfold bind. rewrite Hv. exact Hl.
      * eapply evolves_trans; eassumption.
      * intros r' s' [<-|Hr'] Hs'; [|eapply Hrest; eassumption].
        destruct (Hdone s' Hs') as (x1 & Hx1 & Hg1).
        destruct (evolves_lookup _ _ _ _ _ He2 Hx1) as (x' & Hx' & Hsp).
        exists x'. split; [exact Hx'|]. rewrite (spread_keeps _ _ _ Hsp Hg1). exact Hg1.
Qed.

(** One call, given that the calls it makes return. *)
Lemma propagate_step fuel hFn :
  call_ok fuel hFn ->
  forall mx w x,
    mounts_ok w -> engines w !! mx = Some x -> inline x = false ->
    (unset (with_engine w mx (set (Some hFn) x)) <= fuel)%nat ->
    exists w',
      propagate (S fuel) mx hFn w = Ok tt w' /\
      evolves hFn (with_engine w mx (set (Some hFn) x)) w' /\
      (exists x', engines w' !! mx = Some x' /\ get x' = Some hFn) /\
      (forall t r s,
          trees w !! tree x = Some t -> In r (routes t) -> SubRoutes r = Some s ->
          exists x', engines w' !! s = Some x' /\ is_Some (get x')).
Proof.
  intros Hcall mx w x Hok Hx Hin Hfuel.
  set (w1 := with_engine w mx (set (Some hFn) x)) in *.
  assert (Hok1 : mounts_ok w1) by (apply mounts_ok_with_engine; assumption).
  assert (Hx1 : engines w1 !! mx = Some (set (Some hFn) x))
    by (apply list_lookup_insert_eq; eapply lookup_lt_Some; eassumption).
  destruct Hok as [Htree Hmnt]. destruct (Htree mx x Hx) as [t Ht].
  destruct (visit_all_ok fuel hFn Hcall (routes t) w1 Hok1) as (w' & Hl & He & Hsubs).
  { intros r s Hr Hs. destruct Hok1 as [_ Hm1]. eapply (Hm1 (tree x)); eassumption. }
  { exact Hfuel. }
  exists w'. split; [|split; [exact He|split]].
  - cbn [propagate]. unfold bind at 1. unfold getE at 1. rewrite Hx. cbn beta iota.
    rewrite Hin. unfold bind at 1. unfold modE. rewrite Hx. cbn beta iota.
    fold (with_engine w mx (set (Some hFn) x)). fold w1.
    unfold updateSubRoutes, bind at 1. unfold getE at 1. rewrite Hx1. cbn beta iota.
    unfold bind at 1. unfold getTree. rewrite set_tree.
    change (trees w1) with (trees w). rewrite Ht. cbn beta iota.
    exact Hl.
  - destruct (evolves_lookup _ _ _ _ _ He Hx1) as (x' & Hx' & Hsp).
    exists x'. split; [exact Hx'|].
    rewrite (spread_keeps _ _ _ Hsp); rewrite get_set; eauto.
  - intros t' r s Ht' Hr Hs. rewrite Ht in Ht'. injection Ht' as <-.
    eapply Hsubs; eassumption.
Qed.

Lemma unset_pos w s x :
  engines w !! s = Some x -> get x = None -> (1 <= unset w)%nat.
Proof.
  intros Hx Hg. rewrite <- (unset_with_engine w s x (HFunc "") Hx Hg). lia.
Qed.

(** The calls return whenever the fuel covers the engines whose field is
    unset. *)
Lemma call_ok_all fuel hFn : call_ok fuel hFn.
Proof.
  induction fuel as [|fuel IH]; intros s w x Hok Hx Hin Hg Hfuel.
  - pose proof (unset_pos w s x Hx Hg). lia.
  - pose proof (unset_with_engine w s x hFn Hx Hg) as Hu.
    destruct (propagate_step fuel hFn IH s w x Hok Hx Hin ltac:(lia))
      as (w' & Hp & He & Htgt & _).
    exists w'. split; [exact Hp|]. split; [|exact Htgt].
    eapply evolves_trans; [apply evolves_with_engine; eassumption|exact He].
Qed.

(** With fuel for the engines whose field is unset, the call on a plain
    engine returns; the engine then holds the override, every engine
    mounted in its tree holds one, and nothing else changed but unset
    fields that took the override. *)
Lemma propagate_plain fuel hFn mx w x :
  mounts_ok w -> engines w !! mx = Some x -> inline x = false ->
  (unset (with_engine w mx (set (Some hFn) x)) <= fuel)%nat ->
  exists w',
    propagate (S fuel) mx hFn w = Ok tt w' /\
    evolves hFn (with_engine w mx (set (Some hFn) x)) w' /\
    (exists x', engines w' !! mx = Some x' /\ get x' = Some hFn) /\
    (forall t r s,
        trees w !! tree x = Some t -> In r (routes t) -> SubRoutes r = Some s ->
        exists x', engines w' !! s = Some x' /\ is_Some (get x')).
Proof. apply propagate_step, call_ok_all. Qed.

End Propagation.

(** [NotFound] and [MethodNotAllowed] are the two instances. *)
Lemma NotFound_propagate fuel mx h w :
  NotFound fuel mx h w = propagate notFoundHandler set_notFoundHandler fuel mx h w.
Proof.
  revert mx h w. induction fuel as [|fuel IH]; intros mx h w; [reflexivity|].
  cbn [NotFound propagate]. apply bind_ext. intros x w1.
  destruct (inline x), (parent x); cbn beta iota zeta; apply bind_ext; intros u w2;
    unfold updateSubRoutes; apply bind_ext; intros y w3; apply bind_ext;
    intros t w4; apply forM_ext; intros r w5; destruct (SubRoutes r); try reflexivity;
    apply bind_ext; intros sx w6; destruct (negb _); try reflexivity; apply IH.
Qed.

Lemma MethodNotAllowed_propagate fuel mx h w :
  MethodNotAllowed fuel mx h w
  = propagate methodNotAllowedHandler set_methodNotAllowedHandler fuel mx h w.
Proof.
  revert mx h w. induction fuel as [|fuel IH]; intros mx h w; [reflexivity|].
  cbn [MethodNotAllowed propagate]. apply bind_ext. intros x w1.
  destruct (inline x), (parent x); cbn beta iota zeta; apply bind_ext; intros u w2;
    unfold updateSubRoutes; apply bind_ext; intros y w3; apply bind_ext;
    intros t w4; apply forM_ext; intros r w5; destruct (SubRoutes r); try reflexivity;
    apply bind_ext; intros sx w6; destruct (negb _); try reflexivity; apply IH.
Qed.

Lemma unset_le_length get w : (unset get w <= length (engines w))%nat.
Proof. unfold unset. apply List.filter_length_le. Qed.

(** [NotFound] on a plain engine, with more fuel than there are engines. *)
Lemma NotFound_plain fuel h mx w x :
  mounts_ok w -> engines w !! mx = Some x -> inline x = false ->
  (length (engines w) < fuel)%nat ->
  exists w',
    NotFound fuel mx h w = Ok tt w' /\
    evolves notFoundHandler set_notFoundHandler h
            (with_engine w mx (set_notFoundHandler (Some h) x)) w' /\
    (exists x', engines w' !! mx = Some x' /\ notFoundHandler x' = Some h) /\
    (forall t r s,
        trees w !! tree x = Some t -> In r (routes t) -> SubRoutes r = Some s ->
        exists x', engines w' !! s = Some x' /\ is_Some (notFoundHandler x')).
Proof.
  intros Hok Hx Hin Hfuel. destruct fuel as [|fuel]; [lia|].
  rewrite NotFound_propagate.
  apply propagate_plain; try assumption.
  - reflexivity.
  - intros y. destruct y. reflexivity.
  - reflexivity.
  - reflexivity.
  - reflexivity.
  - pose proof (unset_le_length notFoundHandler
                  (with_engine w mx (set_notFoundHandler (Some h) x))) as Hu.
    cbn [engines with_engine] in Hu. rewrite length_insert in Hu. lia.
Qed.

Lemma MethodNotAllowed_plain fuel h mx w x :
  mounts_ok w -> engines w !! mx = Some x -> inline x = false ->
  (length (engines w) < fuel)%nat ->
  exists w',
    MethodNotAllowed fuel mx h w = Ok tt w' /\
    evolves methodNotAllowedHandler set_methodNotAllowedHandler h
            (with_engine w mx (set_methodNotAllowedHandler (Some h) x)) w' /\
    (exists x', engines w' !! mx = Some x' /\ methodNotAllowedHandler x' = Some h) /\
    (forall t r s,
        trees w !! tree x = Some t -> In r (routes t) -> SubRoutes r = Some s ->
        exists x', engines w' !! s = Some x' /\ is_Some (methodNotAllowedHandler x')).
Proof.
  intros Hok Hx Hin Hfuel. destruct fuel as [|fuel]; [lia|].
  rewrite MethodNotAllowed_propagate.
  apply propagate_plain; try assumption.
  - reflexivity.
  - intros y. destruct y. reflexivity.
  - reflexivity.
  - reflexivity.
  - reflexivity.
  - pose proof (unset_le_length methodNotAllowedHandler
                  (with_engine w mx (set_methodNotAllowedHandler (Some h) x))) as Hu.
    cbn [engines with_engine] in Hu. rewrite length_insert in Hu. lia.
Qed.











Section Inheritance.

Variable get : Engine -> option Handler.
Variable set : option Handler -> Engine -> Engine.
Variable other : Engine -> option Handler.
Hypothesis get_set : forall v x, get (set v x) = v.
Hypothesis set_get : forall x, set (get x) x = x.
Hypothesis set_set : forall u v x, set v (set u x) = set v x.
Hypothesis set_inline : forall v x, inline (set v x) = inline x.
Hypothesis set_tree : forall v x, tree (set v x) = tree x.
Hypothesis set_other : forall v x, other (set v x) = other x.



End Inheritance.









End Routing.

(** ** Concrete runs *)

Local Notation "x <- m ;; k" := (bind m (fun x => k))
  (at level 100, m at next level, right associativity).
Local Notation "m ;;; k" := (bind m (fun _ => k))
  (at level 100, right associativity).

(** A regexp engine that accepts every expression and matches nothing;
    the runs below use no regex segment. *)
Definition rx_any (_ : string) : bool := true.
Definition rx_none (_ _ : string) : bool := false.

(** The store an operation leaves, or the initial one when it does not
    return. *)
Definition world_of {A} (r : Result A) : World :=
  match r with
  | Ok _ w => w
  | Panic _ w => w
  | OutOfFuel => init_world
  end.

(** One engine with [GET /x]. *)
Definition w_get_x : World :=
  world_of ((mx <- New ;; Get rx_any mx "/x" (HFunc "x")) init_world).

(** One engine with a route that panics and one that returns, after one
    request has been served. *)
Definition w_boom : World :=
  world_of ((mx <- New ;;
             Get rx_any mx "/boom" (HPanic "boom") ;;;
             Get rx_any mx "/ok" (HFunc "ok") ;;;
             ServeHTTP rx_none 5 mx (mkRequest "GET" "" "/ok")) init_world).

(** A parent with a sub-router mounted at [/api]. *)
Definition w_api : World :=
  world_of ((mx <- New ;;
             sub <- New ;;
             Get rx_any sub "/widgets/{id}" (HFunc "widget") ;;;
             Mount rx_any 3 mx "/api" (Some (HEngine sub))) init_world).

(** A parent with a not-found override and a sub-router with none. *)
Definition w_override : World :=
  world_of ((mx <- New ;;
             sub <- New ;;
             NotFound 3 mx (HFunc "gone")) init_world).

(** [/users/{id}/posts] next to [/users/*]. *)
Definition t_backtrack : node :=
  match InsertRoute rx_any empty_node mGET "/users/{id}/posts" (HFunc "posts") with
  | Some (t, _) =>
      match InsertRoute rx_any t mGET "/users/*" (HFunc "rest") with
      | Some (t', _) => t'
      | None => empty_node
      end
  | None => empty_node
  end.

Definition rs_users : list registration :=
  [(mGET, "/users/{id}", HFunc "byid"); (mGET, "/users/me", HFunc "me")].

Definition t_users : node :=
  match InsertRoute rx_any empty_node mGET "/users/{id}" (HFunc "byid") with
  | Some (t, _) =>
      match InsertRoute rx_any t mGET "/users/me" (HFunc "me") with
      | Some (t', _) => t'
      | None => empty_node
      end
  | None => empty_node
  end.


Definition w_new : World := world_of (New init_world).

Definition t_get_x : node :=
  match InsertRoute rx_any empty_node mGET "/x" (HFunc "x") with
  | Some (t, _) => t
  | None => empty_node
  end.

Definition req (m path : string) : Request := mkRequest m "" path.

(** *** Witnesses *)

Lemma Use_after_build_panics_witness :
  Use 0 [MwPass "log"] w_get_x
  = Panic "chi: all middlewares must be defined before routes on a mux" w_get_x.
Proof.
  apply (Use_after_build_panics w_get_x 0
           (mkEngine (Some (HRouteHTTP 0)) 0 None None 0 None [] false));
    vm_compute; reflexivity.
Defined.

Lemma ServeHTTP_unbuilt_witness :
  ServeHTTP rx_none 2 0 (req "GET" "/") w_new
  = Ok None (mkWorld (engines w_new) (trees w_new) (pools w_new)
                     (methodMap w_new) (trace w_new ++ [EvNotFound])).
Proof.
  apply (ServeHTTP_unbuilt rx_none w_new 0
           (mkEngine None 0 None None 0 None [] false) (req "GET" "/") 0);
    vm_compute; reflexivity.
Defined.

Lemma handle_after_build_witness :
  exists t' loc,
    handle rx_any 0 mGET "/b" (HFunc "b") w_get_x
    = Ok loc (mkWorld (engines w_get_x) (<[0%nat := t']> (trees w_get_x))
                      (pools w_get_x) (methodMap w_get_x) (trace w_get_x)).
Proof.
  eexists. eexists.
  apply (handle_after_build rx_any w_get_x 0
           (mkEngine (Some (HRouteHTTP 0)) 0 None None 0 None [] false) t_get_x);
    vm_compute; reflexivity.
Defined.

Lemma ServeHTTP_pool_witness :
  exists w', ServeHTTP rx_none 5 0 (req "GET" "/ok") w_boom = Ok None w'.
Proof.
  eexists.
  eapply (proj1 (ServeHTTP_pool rx_none w_boom _ 0
                   (mkEngine (Some (HRouteHTTP 0)) 0 None None 0 None [] false)
                   (HRouteHTTP 0) (req "GET" "/ok") 4 _
                   ltac:(vm_compute; reflexivity) ltac:(reflexivity)
                   ltac:(vm_compute; reflexivity)));
    vm_compute; reflexivity.
Defined.

Lemma Mount_rejects_witness :
  Mount rx_any 3 0 "/fresh" None w_new
  = Panic "chi: attempting to Mount() a nil handler on '/fresh'" w_new /\
  Mount rx_any 3 0 "/api" (Some (HFunc "again")) w_api
  = Panic "chi: attempting to Mount() a handler on an existing path, '/api'" w_api.
Proof.
  split.
  - exact (proj1 (Mount_rejects rx_any w_new 0 "/fresh" 3)).
  - eapply (proj2 (Mount_rejects rx_any w_api 0 "/api" 3)); vm_compute; reflexivity.
Defined.

Lemma mount_delegation_witness :
  exists w1,
    Mount rx_any 1 0 "/api" (Some (HEngine 1))
          (mount_world (mkEngine None 1 None None 1 None [] false) empty_node)
    = Ok tt w1 /\
    requestPath (req "GET" "/api/widgets/7") (ctx_delegated "GET") = "/widgets/7" /\
    URLParam (ctx_delegated "GET") "*" = Some "".
Proof.
  destruct (mount_delegation rx_any rx_none None None None [] empty_node
                             "GET" mGET 0 ltac:(vm_compute; reflexivity))
    as (w1 & H1 & _ & H3 & _ & H5).
  exists w1. split; [exact H1|]. split; [exact H3|exact H5].
Defined.

Lemma FindRoute_params_witness :
  exists segs binds fin,
    matches rx_none t_backtrack "/users/7/comments" segs binds fin /\
    map fst binds = ["*"] /\ map snd binds = ["7/comments"] /\
    length (List.filter seg_binds segs) = 1%nat.
Proof.
  assert (E : exists fin h,
             FindRoute rx_none t_backtrack NewRouteContext mGET "/users/7/comments"
             = (Some (fin, h),
                mkContext None "" "" (mkRouteParams ["*"] ["7/comments"])
                          (mkRouteParams ["*"] ["7/comments"]) false))
    by (eexists; eexists; vm_compute; reflexivity).
  destruct E as (fin & h & E).
  destruct (FindRoute_params rx_none _ _ _ _ _ _ _ E)
    as (segs & binds & Hm & Hp & _ & Hk & _).
  exists segs, binds, fin. cbn [routeParams] in Hp. injection Hp as Hk' Hv.
  split; [exact Hm|]. split; [symmetry; exact Hk'|]. split; [symmetry; exact Hv|].
  symmetry. exact Hk.
Defined.

Lemma route_select_classifies_witness :
  fst (route_select rx_none stdMethodMap t_get_x (req "POST" "/x") NewRouteContext)
  = SelMethodNotAllowed <->
  pattern_matches rx_none t_get_x "/x" /\ ~ method_matches rx_none t_get_x "/x" mPOST.
Proof.
  pose proof (route_select_classifies rx_none stdMethodMap t_get_x
                (req "POST" "/x") NewRouteContext eq_refl) as H.
  cbv zeta in H.
  assert (E : stdMethodMap !! RouteMethod (resolveMethod (req "POST" "/x") NewRouteContext)
              = Some mPOST) by (vm_compute; reflexivity).
  rewrite E in H. destruct H as (_ & H & _). exact H.
Defined.

Lemma tree_of_users : tree_of rx_any rs_users t_users.
Proof.
  change rs_users
    with (([] ++ [(mGET, "/users/{id}", HFunc "byid")])
            ++ [(mGET, "/users/me", HFunc "me")]).
  eapply tree_insert; [eapply tree_insert; [apply tree_new|]|];
    vm_compute; reflexivity.
Qed.

Lemma applies_GET : applies mGET mGET.
Proof. left. vm_compute. apply list_elem_of_here. Qed.

(** Every expression matches every segment. *)
Definition rx_all (_ _ : string) : bool := true.

(** [/a/{id}] registered before [/a/{n:x}]. *)
Definition t_prio : node :=
  match InsertRoute rx_any empty_node mGET "/a/{id}" (HFunc "param") with
  | Some (t, _) =>
      match InsertRoute rx_any t mGET "/a/{n:x}" (HFunc "regex") with
      | Some (t', _) => t'
      | None => empty_node
      end
  | None => empty_node
  end.

(** The node below [/a/], with the two placeholder children. *)
Definition n_prio : node := default empty_node (locate [Static "/a/"] t_prio).

Lemma static_beats_param_witness :
  (exists fin h c',
      FindRoute rx_none t_users NewRouteContext mGET "/users/me" = (Some (fin, h), c') /\
      node_pattern fin = "/users/me" /\ routeParams c' = no_params) /\
  map fst (children n_prio) = [Param "id"; RegexParam "n" "x"] /\
  (exists fin c' before after s ch segs binds,
      findRoute rx_all n_prio mGET "7" NewRouteContext = (Some fin, c') /\
      node_pattern fin = "/a/{n:x}" /\
      [KStatic; KRegex; KParam; KWild] = before ++ KRegex :: after /\
      In (s, ch) (children n_prio) /\ seg_kind s = KRegex /\
      through rx_all "7" s ch segs binds fin).
Proof.
  assert (Hid : exists mask h, In (mask, "/users/{id}", h) rs_users /\ applies mask mGET).
  { exists mGET, (HFunc "byid"). split; [left; reflexivity|apply applies_GET]. }
  assert (Hme : exists mask h, In (mask, "/users/me", h) rs_users /\ applies mask mGET).
  { exists mGET, (HFunc "me"). split; [right; left; reflexivity|apply applies_GET]. }
  split; [|split; [vm_compute; reflexivity|]].
  - destruct (static_beats_param rx_any rx_none rs_users t_users NewRouteContext mGET
                tree_of_users Hid Hme) as [(fin & h & c' & H1 & H2 & _ & H4 & _) _].
    exists fin, h, c'. split; [exact H1|]. split; [exact H2|exact H4].
  - pose proof (proj1 (proj2 (static_beats_param rx_any rx_all rs_users t_users
                                NewRouteContext mGET tree_of_users Hid Hme)
                         (children n_prio) (node_eps n_prio) (node_subroutes n_prio)
                         (node_pattern n_prio) mGET "7" NewRouteContext eq_refl)
                  (default empty_node
                     (fst (findRoute rx_all n_prio mGET "7" NewRouteContext)))
                  (snd (findRoute rx_all n_prio mGET "7" NewRouteContext))
                  ltac:(vm_compute; reflexivity)) as H.
    destruct H as [[Hp _]|(before & k & after & s & ch & segs & binds
                           & E & Hin & Hk & Hthr & Hs & Hno)]; [discriminate|].
    assert (Hreg : In KRegex before -> False).
    { intros Hb.
      pose (ch_r := default empty_node
                      (find_child (same_child (RegexParam "n" "x")) (children n_prio))).
      assert (Hl : ep_lookup (node_eps ch_r) mGET = None).
      { apply (Hno (RegexParam "n" "x") ch_r [RegexParam "n" "x"] [("n", "7")]).
        - vm_compute. right. left. reflexivity.
        - exact Hb.
        - exists (Some ("n", "7")), "", [], []. split; [reflexivity|].
          split; [reflexivity|]. split; [reflexivity|]. apply matches_here. }
      vm_compute in Hl. discriminate. }
    assert (Ek : k = KRegex).
    { vm_compute in Hin. destruct Hin as [Hin|[Hin|[]]]; injection Hin as <- <-;
        cbn [seg_kind] in Hk; subst k; [|reflexivity].
      exfalso. apply Hreg.
      destruct before as [|b1 [|b2 [|b3 [|b4 before]]]]; try discriminate;
        injection E as <- ; try discriminate; subst; cbn; auto. }
    rewrite Ek in E, Hk.
    do 2 eexists. exists before, after, s, ch, segs, binds.
    split; [vm_compute; reflexivity|]. split; [vm_compute; reflexivity|].
    split; [exact E|]. split; [exact Hin|]. split; [exact Hk|exact Hthr].
Defined.

Lemma w_override_eq :
  w_override
  = mkWorld [mkEngine None 0 None None 0 (Some (HFunc "gone")) [] false;
             mkEngine None 1 None None 1 None [] false]
            [empty_node; empty_node] [[]; []] stdMethodMap [].
Proof. vm_compute. reflexivity. Qed.

Lemma mounts_ok_override : mounts_ok w_override.
Proof.
  rewrite w_override_eq. split; cbn [engines trees].
  - intros [|[|e]] x Hx; simpl in Hx; try discriminate;
      injection Hx as <-; simpl; eauto.
  - intros [|[|i]] t r s Ht Hr; simpl in Ht; try discriminate;
      injection Ht as <-; destruct Hr.
Qed.


(** *** Where the code departs from the specification *)

(** C1: a method outside the registry goes to the method-not-allowed
    handler although no pattern matches the path. *)
Lemma route_select_unknown_method :
  ~ (fst (route_select rx_none stdMethodMap t_get_x (req "BREW" "/y") NewRouteContext)
     = SelNotFound <->
     ~ pattern_matches rx_none t_get_x "/y").
Proof.
  intros [_ H].
  assert (Hsel : fst (route_select rx_none stdMethodMap t_get_x (req "BREW" "/y")
                                   NewRouteContext) = SelMethodNotAllowed)
    by (vm_compute; reflexivity).
  rewrite Hsel in H.
  assert (Hno : ~ pattern_matches rx_none t_get_x "/y").
  { pose proof (FindRoute_classifies rx_none t_get_x NewRouteContext mGET "/y" eq_refl)
      as Hc.
    assert (E : FindRoute rx_none t_get_x NewRouteContext mGET "/y"
                = (None, NewRouteContext)) by (vm_compute; reflexivity).
    rewrite E in Hc. destruct Hc as [_ Hc]. intros Hp. apply Hc in Hp. discriminate. }
  specialize (H Hno). discriminate.
Qed.

(** C2: on an engine whose handler has been built, a registration goes
    through and the tree has the new route. *)
Lemma registration_after_build_accepted :
  exists x w',
    engines w_get_x !! 0%nat = Some x /\ is_some (handler x) = true /\
    Get rx_any 0 "/b" (HFunc "b") w_get_x = Ok tt w' /\
    findPattern rx_any (default empty_node (trees w_get_x !! 0%nat)) "/b" = false /\
    findPattern rx_any (default empty_node (trees w' !! 0%nat)) "/b" = true.
Proof.
  eexists. eexists. split; [vm_compute; reflexivity|].
  split; [reflexivity|]. split; [vm_compute; reflexivity|].
  split; vm_compute; reflexivity.
Qed.

(** C3: when the dispatched handler panics, the context taken from the
    pool is not put back. *)
Lemma panic_keeps_context :
  exists c w2,
    pools w_boom = [[c]] /\
    ServeHTTP rx_none 5 0 (req "GET" "/boom") w_boom = Panic "boom" w2 /\
    pools w2 = [[]].
Proof.
  eexists. eexists. split; [vm_compute; reflexivity|].
  split; [vm_compute; reflexivity|]. reflexivity.
Qed.

(** C4: when the lookup of the sub-router starts, the wildcard entry of
    the finalized parameters is the empty string. *)
Lemma wildcard_reset_before_delegation :
  exists w' c,
    ServeHTTP rx_none 6 0 (req "GET" "/api/widgets/7") w_api = Ok None w' /\
    trace w' !! 1%nat = Some (EvFind 1 "/widgets/7" c) /\
    RoutePath c = "/widgets/7" /\
    URLParam c "*" = Some "" /\
    URLParam c "*" <> Some "widgets/7".
Proof.
  eexists. eexists. split; [vm_compute; reflexivity|].
  split; [reflexivity|]. split; [reflexivity|].
  split; [reflexivity|]. discriminate.
Qed.






(** * Further properties of the engine *)

(** ** What serving a request leaves untouched *)

(** The store an operation leaves behind, whether it returns or panics. *)
Definition left_world {A} (r : Result A) : option World :=
  match r with
  | Ok _ w => Some w
  | Panic _ w => Some w
  | OutOfFuel => None
  end.

(** Serving only reads the routing data and only adds to the log. *)
Definition same_routing (w w' : World) : Prop :=
  engines w' = engines w /\ trees w' = trees w /\ methodMap w' = methodMap w /\
  exists evs, trace w' = trace w ++ evs.

Lemma same_routing_refl w : same_routing w w.
Proof. repeat split. exists []. rewrite app_nil_r. reflexivity. Qed.

Lemma same_routing_trans w1 w2 w3 :
  same_routing w1 w2 -> same_routing w2 w3 -> same_routing w1 w3.
Proof.
  intros (A1 & A2 & A3 & e1 & A4) (B1 & B2 & B3 & e2 & B4).
  repeat split; try congruence.
  exists (e1 ++ e2). rewrite B4, A4, app_assoc. reflexivity.
Qed.

(** A relation on stores that an operation respects on every exit. *)
Definition respects {A} (R : World -> World -> Prop) (m : M A) (w : World) : Prop :=
  forall w', left_world (m w) = Some w' -> R w w'.

Lemma respects_bind {A B} (R : World -> World -> Prop) (m : M A) (k : A -> M B) w :
  (forall w1 w2 w3, R w1 w2 -> R w2 w3 -> R w1 w3) ->
  respects R m w ->
  (forall a w1, m w = Ok a w1 -> respects R (k a) w1) ->
  respects R (bind m k) w.
Proof.
  intros Htrans Hm Hk w'. unfold bind.
  destruct (m w) as [a w1|msg w1|] eqn:E.
  - intros H. eapply Htrans; [apply Hm; rewrite E; reflexivity|].
    eapply Hk; [reflexivity|exact H].
  - intros H. apply Hm. rewrite E. exact H.
  - discriminate.
Qed.

Lemma respects_log R ev w :
  R w (mkWorld (engines w) (trees w) (pools w) (methodMap w) (trace w ++ [ev])) ->
  respects R (log ev) w.
Proof. intros H w' E. injection E as <-. exact H. Qed.

Lemma respects_getE R e w : R w w -> respects R (getE e) w.
Proof. intros H w' E. unfold getE in E. destruct (engines w !! e); injection E as <-; exact H. Qed.

Lemma respects_getTree R t w : R w w -> respects R (getTree t) w.
Proof. intros H w' E. unfold getTree in E. destruct (trees w !! t); injection E as <-; exact H. Qed.

Lemma respects_ret {A} R (a : A) w : R w w -> respects R (ret a) w.
Proof. intros H w' E. injection E as <-. exact H. Qed.

Lemma respects_panic {A} R msg w : R w w -> respects R (@panic A msg) w.
Proof. intros H w' E. injection E as <-. exact H. Qed.

(** The relation of a dispatch that already has its routing context: the
    routing data and the pools are as they were. *)
Definition nested_frame (w w' : World) : Prop :=
  same_routing w w' /\ pools w' = pools w.

Lemma nested_frame_refl w : nested_frame w w.
Proof. split; [apply same_routing_refl|reflexivity]. Qed.

Lemma nested_frame_trans w1 w2 w3 :
  nested_frame w1 w2 -> nested_frame w2 w3 -> nested_frame w1 w3.
Proof.
  intros [A1 A2] [B1 B2]. split; [eapply same_routing_trans; eassumption|congruence].
Qed.

Lemma nested_frame_log w ev :
  nested_frame w (mkWorld (engines w) (trees w) (pools w) (methodMap w)
                          (trace w ++ [ev])).
Proof. split; [|reflexivity]. repeat split. eauto. Qed.

(** The store with other pools. *)
Definition set_pools (ps : list (list Context)) (w : World) : World :=
  mkWorld (engines w) (trees w) ps (methodMap w) (trace w).

Definition map_world {A} (f : World -> World) (r : Result A) : Result A :=
  match r with
  | Ok a w => Ok a (f w)
  | Panic msg w => Panic msg (f w)
  | OutOfFuel => OutOfFuel
  end.

(** An operation that does not look at the pools. *)
Definition pool_blind {A} (m : M A) : Prop :=
  forall ps w, m (set_pools ps w) = map_world (set_pools ps) (m w).

Lemma pool_blind_bind {A B} (m : M A) (k : A -> M B) :
  pool_blind m -> (forall a, pool_blind (k a)) -> pool_blind (bind m k).
Proof.
  intros Hm Hk ps w. unfold bind. rewrite Hm.
  destruct (m w) as [a w1|msg w1|]; cbn [map_world]; [apply Hk|reflexivity|reflexivity].
Qed.

Lemma pool_blind_log ev : pool_blind (log ev).
Proof. intros ps w. reflexivity. Qed.

Lemma pool_blind_ret {A} (a : A) : pool_blind (ret a).
Proof. intros ps w. reflexivity. Qed.

Lemma pool_blind_panic {A} msg : pool_blind (@panic A msg).
Proof. intros ps w. reflexivity. Qed.

Lemma pool_blind_getE e : pool_blind (getE e).
Proof. intros ps w. unfold getE. cbn [engines set_pools]. destruct (engines w !! e); reflexivity. Qed.

Lemma pool_blind_getTree t : pool_blind (getTree t).
Proof. intros ps w. unfold getTree. cbn [trees set_pools]. destruct (trees w !! t); reflexivity. Qed.

Lemma pool_blind_getMethodMap : pool_blind getMethodMap.
Proof. intros ps w. reflexivity. Qed.

Section Serving.

Variable rx_match : string -> string -> bool.

Lemma serve_nested (fuel : nat) :
  forall h r rctx w,
    respects nested_frame (serve rx_match fuel h r (Some rctx)) w.
Proof.
  induction fuel as [|fuel IH]; intros h r rctx w; [intros w' E; discriminate|].
  destruct h as [name|name|mx|mx|p h'|[name|name] next| |]; cbn [serve].
  - apply respects_bind; [apply nested_frame_trans|apply respects_log, nested_frame_log|].
    intros _ w1 _. apply respects_ret, nested_frame_refl.
  - apply respects_bind; [apply nested_frame_trans|apply respects_log, nested_frame_log|].
    intros _ w1 _. apply respects_panic, nested_frame_refl.
  - apply respects_bind; [apply nested_frame_trans|apply respects_getE, nested_frame_refl|].
    intros x w1 _. destruct (handler x); apply IH.
  - apply respects_bind; [apply nested_frame_trans|apply respects_getE, nested_frame_refl|].
    intros x w1 _.
    apply respects_bind; [apply nested_frame_trans|apply respects_getTree, nested_frame_refl|].
    intros t w2 _.
    apply respects_bind; [apply nested_frame_trans| |].
    { intros w' E. injection E as <-. apply nested_frame_refl. }
    intros mm w3 _.
    apply respects_bind; [apply nested_frame_trans|apply respects_log, nested_frame_log|].
    intros _ w4 _. destruct (route_select rx_match mm t r rctx) as [sel c']. apply IH.
  - apply IH.
  - apply respects_bind; [apply nested_frame_trans|apply respects_log, nested_frame_log|].
    intros _ w1 _.
    apply respects_bind; [apply nested_frame_trans|apply IH|].
    intros rc' w2 _.
    apply respects_bind; [apply nested_frame_trans|apply respects_log, nested_frame_log|].
    intros _ w3 _. apply respects_ret, nested_frame_refl.
  - apply respects_bind; [apply nested_frame_trans|apply respects_log, nested_frame_log|].
    intros _ w1 _. apply respects_ret, nested_frame_refl.
  - apply respects_bind; [apply nested_frame_trans|apply respects_log, nested_frame_log|].
    intros _ w1 _. apply respects_ret, nested_frame_refl.
  - apply respects_bind; [apply nested_frame_trans|apply respects_log, nested_frame_log|].
    intros _ w1 _. apply respects_ret, nested_frame_refl.
Qed.

Lemma same_routing_pools w ps :
  same_routing w (mkWorld (engines w) (trees w) ps (methodMap w) (trace w)).
Proof. repeat split. exists []. cbn [trace]. rewrite app_nil_r. reflexivity. Qed.

Lemma respects_poolGet p w : respects same_routing (poolGet p) w.
Proof.
  intros w' E. unfold poolGet in E.
  destruct (pools w !! p) as [[|c free]|]; injection E as <-;
    first [apply same_routing_refl|apply same_routing_pools].
Qed.

Lemma respects_poolPut p c w : respects same_routing (poolPut p c) w.
Proof.
  intros w' E. unfold poolPut in E.
  destruct (pools w !! p); injection E as <-;
    first [apply same_routing_refl|apply same_routing_pools].
Qed.

Lemma same_routing_log w ev :
  same_routing w (mkWorld (engines w) (trees w) (pools w) (methodMap w)
                          (trace w ++ [ev])).
Proof. repeat split. eauto. Qed.

Lemma serve_frame (fuel : nat) :
  forall h r rc w, respects same_routing (serve rx_match fuel h r rc) w.
Proof.
  induction fuel as [|fuel IH]; intros h r rc w; [intros w' E; discriminate|].
  destruct rc as [rctx|].
  { intros w' E. apply (serve_nested (S fuel) h r rctx w w' E). }
  destruct h as [name|name|mx|mx|p h'|[name|name] next| |]; cbn [serve].
  - apply respects_bind; [apply same_routing_trans|apply respects_log, same_routing_log|].
    intros _ w1 _. apply respects_ret, same_routing_refl.
  - apply respects_bind; [apply same_routing_trans|apply respects_log, same_routing_log|].
    intros _ w1 _. apply respects_panic, same_routing_refl.
  - apply respects_bind; [apply same_routing_trans|apply respects_getE, same_routing_refl|].
    intros x w1 _. destruct (handler x) as [hd|]; [|apply IH].
    apply respects_bind; [apply same_routing_trans|apply respects_poolGet|].
    intros got w2 _.
    apply respects_bind; [apply same_routing_trans|apply IH|].
    intros rc' w3 _.
    apply respects_bind; [apply same_routing_trans|apply respects_poolPut|].
    intros _ w4 _. apply respects_ret, same_routing_refl.
  - apply respects_panic, same_routing_refl.
  - apply respects_panic, same_routing_refl.
  - apply respects_bind; [apply same_routing_trans|apply respects_log, same_routing_log|].
    intros _ w1 _.
    apply respects_bind; [apply same_routing_trans|apply IH|].
    intros rc' w2 _.
    apply respects_bind; [apply same_routing_trans|apply respects_log, same_routing_log|].
    intros _ w3 _. apply respects_ret, same_routing_refl.
  - apply respects_bind; [apply same_routing_trans|apply respects_log, same_routing_log|].
    intros _ w1 _. apply respects_ret, same_routing_refl.
  - apply respects_bind; [apply same_routing_trans|apply respects_log, same_routing_log|].
    intros _ w1 _. apply respects_ret, same_routing_refl.
  - apply respects_bind; [apply same_routing_trans|apply respects_log, same_routing_log|].
    intros _ w1 _. apply respects_ret, same_routing_refl.
Qed.

(** Serving a request, whether the handler returns or panics, leaves the
    engines, the trees and the method registry as they were, and only
    adds to the log: nothing is registered at request time. *)
Theorem ServeHTTP_reads_only (fuel : nat) (mx : nat) (r : Request) (w w' : World) :
  left_world (ServeHTTP rx_match fuel mx r w) = Some w' ->
  engines w' = engines w /\ trees w' = trees w /\ methodMap w' = methodMap w /\
  exists evs, trace w' = trace w ++ evs.
Proof. intros E. exact (serve_frame fuel (HEngine mx) r None w w' E). Qed.

(** A router reached with a routing context already attached to the
    request, as a mounted sub-router is, takes nothing from the pool and
    puts nothing back. *)
Theorem nested_dispatch_keeps_pools (fuel : nat) (mx : nat) (r : Request)
        (rctx : Context) (w w' : World) :
  left_world (serve rx_match fuel (HEngine mx) r (Some rctx) w) = Some w' ->
  pools w' = pools w.
Proof. intros E. exact (proj2 (serve_nested fuel (HEngine mx) r rctx w w' E)). Qed.

(** A top-level dispatch that returns leaves the pool of the engine with
    the contexts it had, the first one replaced by the context of this
    request, or with that one context when the pool was empty; the other
    pools are untouched. *)
Theorem ServeHTTP_pool_size (fuel : nat) (mx : nat) (x : Engine) (hd : Handler)
        (r : Request) (free : list Context) (rc' : option Context) (w w' : World) :
  engines w !! mx = Some x ->
  handler x = Some hd ->
  pools w !! pool x = Some free ->
  ServeHTTP rx_match fuel mx r w = Ok rc' w' ->
  rc' = None /\
  exists c, pools w' = <[pool x := c :: tail free]> (pools w).
Proof.
  intros Hx Hh Hp E. destruct fuel as [|fuel]; [discriminate|].
  unfold ServeHTTP in E. rewrite (serve_HEngine_top rx_match _ _ _ _ _ _ Hx Hh) in E.
  unfold bind at 1 in E.
  assert (Hget : exists got w1,
             poolGet (pool x) w = Ok got w1 /\
             pools w1 = <[pool x := tail free]> (pools w) /\
             pools w1 !! pool x = Some (tail free)).
  { unfold poolGet. rewrite Hp. destruct free as [|c free'].
    - exists NewRouteContext, w. split; [reflexivity|].
      rewrite list_insert_id by exact Hp. auto.
    - eexists _, _. split; [reflexivity|]. cbn [pools tail]. split; [reflexivity|].
      apply list_lookup_insert_eq. eapply lookup_lt_Some, Hp. }
  destruct Hget as (got & w1 & Hg & Hp1 & Hl1). rewrite Hg in E.
  unfold bind at 1 in E.
  destruct (serve rx_match fuel hd r (Some (set_Routes mx (Reset got))) w1)
    as [rc2 w2|msg w2|] eqn:Es; [|discriminate|discriminate].
  assert (Hn : pools w2 = pools w1).
  { apply (serve_nested fuel hd r (set_Routes mx (Reset got)) w1 w2).
    rewrite Es. reflexivity. }
  unfold bind, poolPut in E. rewrite Hn, Hl1 in E. injection E as <- <-.
  split; [reflexivity|]. eexists. cbn [pools]. rewrite Hp1, list_insert_insert_eq.
  reflexivity.
Qed.

Lemma serve_pool_blind (fuel : nat) :
  forall h r rctx, pool_blind (serve rx_match fuel h r (Some rctx)).
Proof.
  induction fuel as [|fuel IH]; intros h r rctx; [intros ps w; reflexivity|].
  destruct h as [name|name|mx|mx|p h'|[name|name] next| |]; cbn [serve].
  - apply pool_blind_bind; [apply pool_blind_log|intros; apply pool_blind_ret].
  - apply pool_blind_bind; [apply pool_blind_log|intros; apply pool_blind_panic].
  - apply pool_blind_bind; [apply pool_blind_getE|].
    intros x. destruct (handler x); apply IH.
  - apply pool_blind_bind; [apply pool_blind_getE|]. intros x.
    apply pool_blind_bind; [apply pool_blind_getTree|]. intros t.
    apply pool_blind_bind; [apply pool_blind_getMethodMap|]. intros mm.
    apply pool_blind_bind; [apply pool_blind_log|]. intros _.
    destruct (route_select rx_match mm t r rctx) as [sel c']. apply IH.
  - apply IH.
  - apply pool_blind_bind; [apply pool_blind_log|]. intros _.
    apply pool_blind_bind; [apply IH|]. intros rc'.
    apply pool_blind_bind; [apply pool_blind_log|intros; apply pool_blind_ret].
  - apply pool_blind_bind; [apply pool_blind_log|intros; apply pool_blind_ret].
  - apply pool_blind_bind; [apply pool_blind_log|intros; apply pool_blind_ret].
  - apply pool_blind_bind; [apply pool_blind_log|intros; apply pool_blind_ret].
Qed.

(** The log a dispatch leaves, with the routing contexts that the
    handlers and the lookups saw. *)
Definition seen {A} (r : Result A) : option (list Event) :=
  option_map trace (left_world r).

(** A top-level dispatch resets the context it takes from the pool: what
    the handlers and the lookups of the request see does not depend on
    what earlier requests left in the pool. *)
Theorem ServeHTTP_ignores_pool_contents (fuel : nat) (mx : nat) (x : Engine)
        (hd : Handler) (r : Request) (w : World) (ps : list (list Context))
        (free free' : list Context) :
  engines w !! mx = Some x ->
  handler x = Some hd ->
  pools w !! pool x = Some free ->
  ps !! pool x = Some free' ->
  seen (ServeHTTP rx_match fuel mx r (set_pools ps w))
  = seen (ServeHTTP rx_match fuel mx r w).
Proof.
  intros Hx Hh Hp Hp'. destruct fuel as [|fuel]; [reflexivity|].
  unfold ServeHTTP.
  rewrite (serve_HEngine_top rx_match _ _ _ _ _ w Hx Hh).
  rewrite (serve_HEngine_top rx_match _ _ _ _ _ (set_pools ps w) Hx Hh).
  assert (Hshape : forall (q : list (list Context)) (fr : list Context),
             q !! pool x = Some fr ->
             seen ((got <- poolGet (pool x) ;;
                    rc' <- serve rx_match fuel hd r (Some (set_Routes mx (Reset got))) ;;
                    poolPut (pool x) (default (set_Routes mx (Reset got)) rc') ;;;
                    ret (@None Context)) (set_pools q w))
             = seen (serve rx_match fuel hd r (Some (set_Routes mx NewRouteContext)) w)).
  { intros q fr Hq. unfold bind at 1.
    assert (Hget : exists got q1,
               poolGet (pool x) (set_pools q w) = Ok got (set_pools q1 w) /\
               is_Some (q1 !! pool x)).
    { unfold poolGet. cbn [pools set_pools]. rewrite Hq. destruct fr as [|c fr'].
      - exists NewRouteContext, q. split; [reflexivity|]. rewrite Hq. eauto.
      - eexists _, _. split; [reflexivity|].
        rewrite list_lookup_insert_eq by (eapply lookup_lt_Some, Hq). eauto. }
    destruct Hget as (got & q1 & -> & fr1 & Hq1).
    unfold bind at 1. change (Reset got) with NewRouteContext.
    rewrite (serve_pool_blind fuel hd r _ q1 w).
    destruct (serve rx_match fuel hd r (Some (set_Routes mx NewRouteContext)) w)
      as [rc2 w2|msg w2|]; cbn [map_world]; [|reflexivity|reflexivity].
    unfold bind, poolPut. cbn [pools set_pools]. rewrite Hq1. reflexivity. }
  rewrite (Hshape ps free' Hp').
  pose proof (Hshape (pools w) free Hp) as H2.
  assert (Ew : set_pools (pools w) w = w) by (destruct w; reflexivity).
  rewrite Ew in H2. symmetry. exact H2.
Qed.

End Serving.

(** ** Match *)

Section Matching.

Variable rx_match : string -> string -> bool.

(** [Engine.Match]: the lookup that routing makes, without the call of the
    handler; a mount is followed into the sub-router.  The routing
    context is updated on the way and handed back. *)
Fixpoint Match (fuel : nat) (mx : nat) (rctx : Context) (method path : string)
  : M (bool * Context) :=
  match fuel with
  | O => fun _ => OutOfFuel
  | S fuel' =>
      mm <- getMethodMap ;;
      match mm !! method with
      | None => ret (false, rctx)
      | Some m =>
          x <- getE mx ;;
          t <- getTree (tree x) ;;
          match FindRoute rx_match t rctx m path with
          | (Some (n, _), c) =>
              match node_subroutes n with
              | Some sub =>
                  let c' := set_RoutePath (nextRoutePath c) c in
                  Match fuel' sub c' method (RoutePath c')
              | None => ret (true, c)
              end
          | (None, c) => ret (false, c)
          end
      end
  end.

(** What [FindRoute] answers, whatever the flag of the context was. *)
Lemma FindRoute_finds (t : node) (rctx : Context) (m : Z) (path : string) :
  match FindRoute rx_match t rctx m path with
  | (Some (n, h), _) =>
      ep_lookup (node_eps n) m = Some h /\
      exists segs binds, matches rx_match t path segs binds n
  | (None, _) => ~ method_matches rx_match t path m
  end.
Proof.
  unfold FindRoute.
  pose proof (findRoute_ok rx_match m t path _ (balanced_cleared rctx)) as Hok.
  destruct (findRoute rx_match t m path (set_routeParams no_params rctx))
    as [[rn|] c1]; destruct Hok as (_ & _ & Hok); cbn [fst snd] in *.
  - destruct Hok as (segs & binds & Hm & [h Hl] & _). rewrite Hl. eauto.
  - destruct Hok as (_ & Hn & _).
    intros (segs & binds & fin & Hm & h & Hl).
    rewrite (Hn _ _ _ Hm) in Hl. discriminate.
Qed.

(** The node of a match at which a pattern ends is one of the routes of
    the tree. *)
Lemma matches_route (t : node) path segs binds fin :
  matches rx_match t path segs binds fin ->
  is_leaf (node_eps fin) = true ->
  In (mkRoute (node_subroutes fin) (node_eps fin) (node_pattern fin)) (routes t).
Proof.
  induction 1 as [n|n s ch path b rest segs binds fin Hin Hs Hm IH]; intros Hl.
  - destruct n as [cs eps sub pat]. cbn [routes node_eps node_subroutes node_pattern] in *.
    rewrite Hl. left. reflexivity.
  - destruct n as [cs eps sub pat]. cbn [routes children] in *.
    apply in_or_app. right. apply in_flat_map. exists (s, ch). split; [exact Hin|].
    apply IH, Hl.
Qed.

(** No router is mounted in the tree. *)
Definition no_mounts (t : node) : Prop :=
  forall r, In r (routes t) -> SubRoutes r = None.

(** A query never changes the store. *)
Theorem Match_reads_only (fuel : nat) :
  forall mx rctx method path w w',
    left_world (Match fuel mx rctx method path w) = Some w' -> w' = w.
Proof.
  induction fuel as [|fuel IH]; intros mx rctx method path w w'; [discriminate|].
  cbn [Match]. unfold bind at 1. unfold getMethodMap.
  destruct (methodMap w !! method) as [m|]; [|intros E; injection E as <-; reflexivity].
  unfold bind at 1. unfold getE. destruct (engines w !! mx) as [x|];
    [|intros E; injection E as <-; reflexivity].
  unfold bind at 1. unfold getTree. destruct (trees w !! tree x) as [t|];
    [|intros E; injection E as <-; reflexivity].
  destruct (FindRoute rx_match t rctx m path) as [[[n h]|] c];
    [|intros E; injection E as <-; reflexivity].
  destruct (node_subroutes n) as [sub|]; [apply IH|].
  intros E. injection E as <-. reflexivity.
Qed.

(** On a router in which nothing is mounted, [Match] answers at once, and
    answers true exactly when some registered pattern matches the path
    with an entry that applies to the method, which is exactly when
    [routeHTTP] settles on the handler of a route for such a request. *)
Theorem Match_predicts_dispatch (fuel : nat) (mx : nat) (x : Engine) (t : node)
        (method path : string) (mt : Z) (rctx : Context) (w : World) :
  engines w !! mx = Some x ->
  trees w !! tree x = Some t ->
  methodMap w !! method = Some mt ->
  no_mounts t ->
  exists b c,
    Match (S fuel) mx rctx method path w = Ok (b, c) w /\
    (b = true <-> method_matches rx_match t path mt) /\
    (RoutePath rctx = "" -> RouteMethod rctx = "" -> method <> "" -> path <> "" ->
     (b = true <->
      exists h, fst (route_select rx_match (methodMap w) t (mkRequest method "" path) rctx)
                = SelHandler h)).
Proof.
  intros Hx Ht Hm Hno.
  pose proof (FindRoute_finds t rctx mt path) as Hf.
  assert (Hsel : RoutePath rctx = "" -> RouteMethod rctx = "" -> method <> "" ->
                 path <> "" ->
                 route_select rx_match (methodMap w) t (mkRequest method "" path) rctx
                 = match FindRoute rx_match t (set_RouteMethod method rctx) mt path with
                   | (Some (_, h), c') => (SelHandler h, c')
                   | (None, c') =>
                       if methodNotAllowed c' then (SelMethodNotAllowed, c')
                       else (SelNotFound, c')
                   end).
  { intros Hrp Hrm Hmne Hpne. unfold route_select, requestPath, resolveMethod.
    rewrite Hrp, Hrm. cbn [Str.is_empty RawPath Path Method RouteMethod set_RouteMethod].
    destruct path as [|a p]; [contradiction|]. cbn [Str.is_empty].
    rewrite Hm. reflexivity. }
  pose proof (FindRoute_finds t (set_RouteMethod method rctx) mt path) as Hf'.
  cbn [Match]. unfold bind at 1. unfold getMethodMap. rewrite Hm.
  unfold bind at 1. unfold getE. rewrite Hx. cbn beta iota.
  unfold bind at 1. unfold getTree. rewrite Ht. cbn beta iota.
  destruct (FindRoute rx_match t rctx mt path) as [[[n h]|] c].
  - destruct Hf as (Hl & segs & binds & Hmt).
    assert (Hmm : method_matches rx_match t path mt).
    { exists segs, binds, n. split; [exact Hmt|]. rewrite Hl. eauto. }
    pose proof (Hno _ (matches_route t path segs binds n Hmt
                         (is_leaf_lookup _ _ _ Hl))) as Hsub.
    cbn [SubRoutes] in Hsub. rewrite Hsub.
    exists true, c. split; [reflexivity|]. split; [tauto|].
    intros Hrp Hrm Hmne Hpne. rewrite (Hsel Hrp Hrm Hmne Hpne).
    destruct (FindRoute rx_match t (set_RouteMethod method rctx) mt path)
      as [[[n' h']|] c'].
    + split; [intros _; exists h'; reflexivity|reflexivity].
    + contradiction.
  - exists false, c. split; [reflexivity|]. split; [split; [discriminate|contradiction]|].
    intros Hrp Hrm Hmne Hpne. rewrite (Hsel Hrp Hrm Hmne Hpne).
    destruct (FindRoute rx_match t (set_RouteMethod method rctx) mt path)
      as [[[n' h']|] c'].
    + destruct Hf' as (Hl' & segs & binds & Hmt). exfalso. apply Hf.
      exists segs, binds, n'. split; [exact Hmt|]. rewrite Hl'. eauto.
    + split; [discriminate|]. intros [h0 Hh]. destruct (methodNotAllowed c'); discriminate.
Qed.

End Matching.

(** ** Registration *)

Lemma bind_Ok_inv {A B} (m : M A) (k : A -> M B) w b w' :
  bind m k w = Ok b w' -> exists a w1, m w = Ok a w1 /\ k a w1 = Ok b w'.
Proof.
  unfold bind. destruct (m w) as [a w1| |]; try discriminate. eauto.
Qed.

Lemma head_char_app p s :
  p <> EmptyString -> Str.head_char (p +:+ s) = Str.head_char p.
Proof. destruct p; [contradiction|reflexivity]. Qed.

Section Registering.

Variable rx_valid : string -> bool.

(** What [strings.ToUpper] does to a name with a byte outside ASCII. *)
Variable unicode_ToUpper : string -> string.

Lemma handle_needs_slash mx m pattern h w :
  Str.head_char pattern <> Some "/"%char ->
  handle rx_valid mx m pattern h w
  = Panic ("chi: routing pattern must begin with '/' in '" +:+ pattern +:+ "'") w.
Proof.
  intros Hp. unfold handle. case_bool_decide; [contradiction|]. reflexivity.
Qed.

(** The registration helpers that take the method from their name. *)
Definition verb_helpers : list (string * (nat -> string -> Handler -> M unit)) :=
  [("CONNECT", Connect rx_valid); ("DELETE", Delete rx_valid); ("GET", Get rx_valid);
   ("HEAD", Head rx_valid); ("OPTIONS", Options rx_valid); ("PATCH", Patch rx_valid);
   ("POST", Post rx_valid); ("PUT", Put rx_valid); ("TRACE", Trace rx_valid)].

(** [Method] reads the method name through [strings.ToUpper] alone: with
    two spellings that have the same upper-case form it does the same
    when that form is in the registry, and with both it panics and
    registers nothing when it is not; the message of the panic names the
    spelling that was given. *)
Theorem Method_case_insensitive (mx : nat) (method method' pattern : string)
        (h : Handler) (w : World) :
  ToUpper unicode_ToUpper method = ToUpper unicode_ToUpper method' ->
  (is_Some (methodMap w !! ToUpper unicode_ToUpper method) ->
   Method_ rx_valid unicode_ToUpper mx method pattern h w
   = Method_ rx_valid unicode_ToUpper mx method' pattern h w) /\
  (methodMap w !! ToUpper unicode_ToUpper method = None ->
   Method_ rx_valid unicode_ToUpper mx method pattern h w
   = Panic ("chi: '" +:+ method +:+ "' http method is not supported.") w /\
   Method_ rx_valid unicode_ToUpper mx method' pattern h w
   = Panic ("chi: '" +:+ method' +:+ "' http method is not supported.") w).
Proof.
  intros E. unfold Method_, bind, getMethodMap. rewrite <- E. split.
  - intros [m Hm]. rewrite Hm. reflexivity.
  - intros Hm. rewrite Hm. split; reflexivity.
Qed.

(** With the registry of the standard verbs, [Method] under the name of
    a verb, in any case, does what the helper of that verb does. *)
Theorem Method_is_verb_helper (mx : nat) (method pattern name : string)
        (f : nat -> string -> Handler -> M unit) (h : Handler) (w : World) :
  methodMap w = stdMethodMap ->
  In (name, f) verb_helpers ->
  ToUpper unicode_ToUpper method = name ->
  Method_ rx_valid unicode_ToUpper mx method pattern h w = f mx pattern h w.
Proof.
  intros Hm Hin Hu. unfold Method_, bind at 1, getMethodMap. rewrite Hm, Hu.
  unfold verb_helpers in Hin. cbn [In] in Hin.
  repeat (destruct Hin as [E|Hin]; [injection E as <- <-; reflexivity|]).
  contradiction.
Qed.

(** With the registry of the standard verbs, [Method] under a name whose
    upper-case form, as [strings.ToUpper] gives it, is none of them
    panics, and nothing is registered. *)
Theorem Method_unsupported (mx : nat) (method pattern : string) (h : Handler)
        (w : World) :
  methodMap w = stdMethodMap ->
  ~ In (ToUpper unicode_ToUpper method) (map fst verb_helpers) ->
  Method_ rx_valid unicode_ToUpper mx method pattern h w
  = Panic ("chi: '" +:+ method +:+ "' http method is not supported.") w.
Proof.
  intros Hm Hn. unfold Method_, bind at 1, getMethodMap. rewrite Hm.
  destruct (stdMethodMap !! ToUpper unicode_ToUpper method) as [mt|] eqn:E;
    [|reflexivity].
  exfalso. apply Hn. apply stdMethodMap_lookup in E.
  cbn [map fst verb_helpers In] in *.
  repeat (destruct E as [E|E]; [injection E as <- _; auto 12|]).
  contradiction.
Qed.

(** Every registration helper refuses a pattern that does not begin with
    a slash, and leaves the store as it was. *)
Theorem helpers_need_slash (f : nat -> string -> Handler -> M unit) (mx : nat)
        (pattern : string) (h : Handler) (w : World) :
  In f (Handle rx_valid :: HandleFunc rx_valid :: map snd verb_helpers) ->
  Str.head_char pattern <> Some "/"%char ->
  f mx pattern h w
  = Panic ("chi: routing pattern must begin with '/' in '" +:+ pattern +:+ "'") w.
Proof.
  intros Hin Hp. cbn [map snd verb_helpers In] in Hin.
  repeat (destruct Hin as [<-|Hin];
          [cbv beta delta [Handle HandleFunc Connect Delete Get Head Options Patch
                             Post Put Trace bind];
           rewrite handle_needs_slash by exact Hp; reflexivity|]).
  contradiction.
Qed.

(** [Mount] never succeeds on a pattern that does not begin with a
    slash. *)
Theorem Mount_needs_slash (fuel : nat) (mx : nat) (pattern : string)
        (h : option Handler) (w w' : World) :
  Str.head_char pattern <> Some "/"%char ->
  Mount rx_valid fuel mx pattern h w <> Ok tt w'.
Proof.
  intros Hp H. unfold Mount in H. destruct h as [h|]; [|discriminate].
  apply bind_Ok_inv in H as (x & w1 & _ & H).
  apply bind_Ok_inv in H as (t & w2 & _ & H).
  destruct (findPattern rx_valid t (pattern +:+ "*")
            || findPattern rx_valid t (pattern +:+ "/*")); [discriminate|].
  apply bind_Ok_inv in H as (u & w3 & _ & H).
  apply bind_Ok_inv in H as (pattern' & w4 & H1 & H).
  destruct (Str.is_empty pattern
            || negb (bool_decide (Str.last_char pattern = Some "/"%char))) eqn:Hc.
  - apply bind_Ok_inv in H1 as (l & w5 & H1 & _).
    rewrite handle_needs_slash in H1 by exact Hp. discriminate.
  - injection H1 as <- <-.
    apply bind_Ok_inv in H as (l & w5 & H1 & _).
    rewrite handle_needs_slash in H1; [discriminate|].
    apply orb_false_iff in Hc as [Hc _].
    rewrite head_char_app; [exact Hp|]. destruct pattern; [discriminate|discriminate].
Qed.

End Registering.

(** ** Middlewares and inline engines *)

(** Two calls of [Use] in a row are one call with the two lists in a
    row, whatever the outcome. *)
Theorem Use_appends (mx : nat) (a b : list Middleware) (w : World) :
  (Use mx a ;;; Use mx b) w = Use mx (a ++ b) w.
Proof.
  unfold Use, bind, getE, modE, panic.
  destruct (engines w !! mx) as [x|] eqn:Hx; [|reflexivity].
  destruct (handler x) as [hd|] eqn:Hh; cbn [is_some]; [reflexivity|].
  rewrite Hx. cbn [engines].
  rewrite list_lookup_insert_eq by (eapply lookup_lt_Some; exact Hx).
  cbn [set_middlewares handler]. rewrite Hh. cbn [is_some].
  cbn [engines trees pools methodMap trace].
  rewrite list_lookup_insert_eq by (eapply lookup_lt_Some; exact Hx).
  rewrite list_insert_insert_eq.
  cbn [set_middlewares handler tree methodNotAllowedHandler parent pool
       notFoundHandler middlewares inline].
  rewrite app_assoc. reflexivity.
Qed.

(** [With] hands out a new inline engine on the tree and the pool of the
    engine it is called on, with that engine as parent and the handlers
    for unmatched requests copied; the inline engine of an inline engine
    starts from the middlewares of the latter.  A parent that is not
    inline is built on the way: it takes no middleware after. *)
Theorem With_inline_engine (mx : nat) (x : Engine) (mws : list Middleware)
        (w : World) :
  engines w !! mx = Some x ->
  exists w',
    With mx mws w = Ok (length (engines w)) w' /\
    engines w' !! length (engines w)
    = Some (mkEngine None (tree x) (methodNotAllowedHandler x) (Some mx) (pool x)
                     (notFoundHandler x)
                     ((if inline x then middlewares x else []) ++ mws) true) /\
    trees w' = trees w /\ pools w' = pools w /\
    (inline x = false ->
     forall more, exists msg, Use mx more w' = Panic msg w').
Proof.
  intros Hx. pose proof (lookup_lt_Some _ _ _ Hx) as Hlt.
  unfold With, bind at 1, getE. rewrite Hx. cbn beta iota.
  unfold bind, when, updateRouteHandler, modE, ret.
  destruct (negb (inline x) && negb (is_some (handler x))) eqn:Hc.
  - rewrite Hx. cbn [engines trees pools methodMap trace].
    rewrite length_insert. eexists. split; [reflexivity|].
    cbn [engines trees pools]. split.
    { rewrite lookup_app_r by (rewrite length_insert; lia).
      rewrite length_insert, Nat.sub_diag. reflexivity. }
    split; [reflexivity|]. split; [reflexivity|].
    intros _ more. unfold Use, bind, getE. cbn [engines].
    rewrite lookup_app_l by (rewrite length_insert; exact Hlt).
    rewrite list_lookup_insert_eq by exact Hlt.
    cbn [set_handler handler is_some]. eexists. reflexivity.
  - eexists. split; [reflexivity|]. cbn [engines trees pools]. split.
    { rewrite lookup_app_r by lia. rewrite Nat.sub_diag. reflexivity. }
    split; [reflexivity|]. split; [reflexivity|].
    intros Hi more. rewrite Hi in Hc. cbn [negb andb] in Hc.
    unfold Use, bind, getE. cbn [engines].
    rewrite lookup_app_l by exact Hlt. rewrite Hx.
    destruct (handler x); [|discriminate]. cbn [is_some]. eexists. reflexivity.
Qed.

Section InlineRoutes.

Variable rx_valid : string -> bool.

(** A route registered on an inline engine goes into the tree of the
    engine [With] was called on, its handler wrapped in the middlewares
    of the inline engine; and the inline engine is given the tree router
    as handler. *)
Theorem With_registers_in_parent_tree (mx : nat) (x : Engine) (t : node)
        (mws : list Middleware) (m : methodTyp) (pattern : string)
        (h : Handler) (segs : list Segment) (w : World) :
  engines w !! mx = Some x ->
  trees w !! tree x = Some t ->
  Str.head_char pattern = Some "/"%char ->
  parsePattern rx_valid pattern = Some segs ->
  exists w' t',
    (im <- With mx mws ;; handle rx_valid im m pattern h) w = Ok segs w' /\
    InsertRoute rx_valid t m pattern
      (chain ((if inline x then middlewares x else []) ++ mws) h) = Some (t', segs) /\
    trees w' = <[tree x := t']> (trees w) /\
    (handler <$> engines w' !! length (engines w))
    = Some (Some (HRouteHTTP (length (engines w)))).
Proof.
  intros Hx Ht Hp Hs.
  destruct (With_inline_engine mx x mws w Hx) as (w1 & HW & Hi & Htr & _ & _).
  unfold bind at 1. rewrite HW.
  unfold handle. rewrite Hp.
  rewrite bool_decide_eq_true_2 by reflexivity. cbn [negb].
  unfold bind at 1. unfold getE. rewrite Hi.
  cbn [inline handler is_some negb andb when middlewares tree].
  unfold bind at 1. unfold ret at 1.
  unfold bind at 1. unfold modE. rewrite Hi.
  unfold bind at 1. unfold getTree. cbn [trees]. rewrite Htr, Ht.
  unfold InsertRoute. rewrite Hs.
  unfold bind, setTree, ret. cbn [engines trees pools methodMap trace].
  eexists _, _. split; [reflexivity|]. split; [reflexivity|].
  cbn [trees engines]. split; [reflexivity|].
  rewrite list_lookup_insert_eq by (eapply lookup_lt_Some; exact Hi).
  reflexivity.
Qed.

End InlineRoutes.

(** ** The path and the parameters a mounted handler sees *)

Lemma nextRoutePath_slash (c : Context) :
  Str.head_char (nextRoutePath c) = Some "/"%char.
Proof.
  unfold nextRoutePath.
  destruct (length (Keys (routeParams c))) as [|n]; [reflexivity|].
  destruct (Keys (routeParams c) !! n) as [k|]; [|reflexivity].
  destruct (Values (routeParams c) !! n) as [v|]; [|reflexivity].
  case_bool_decide; reflexivity.
Qed.

Lemma mount_shift_RoutePath (c : Context) :
  RoutePath (mount_shift c) = nextRoutePath c.
Proof.
  unfold mount_shift. cbn [set_RoutePath URLParams].
  destruct (length (Keys (URLParams c))) as [|n]; [reflexivity|].
  destruct (Keys (URLParams c) !! n) as [k|]; [|reflexivity].
  destruct (bool_decide (k = "*") && (n <? length (Values (URLParams c)))%nat);
    reflexivity.
Qed.

(** Behind a mount the lookup path is the one the mount handler
    computed: it begins with a slash, and the path of the request itself
    is not looked at again. *)
Theorem mounted_lookup_path (r : Request) (c : Context) :
  requestPath r (mount_shift c) = nextRoutePath c /\
  Str.head_char (requestPath r (mount_shift c)) = Some "/"%char.
Proof.
  assert (E : requestPath r (mount_shift c) = nextRoutePath c).
  { unfold requestPath. rewrite mount_shift_RoutePath.
    pose proof (nextRoutePath_slash c) as H.
    destruct (nextRoutePath c); [discriminate|reflexivity]. }
  rewrite E. split; [reflexivity|apply nextRoutePath_slash].
Qed.

Lemma param_lookup_insert_other ks : forall vs n k v key,
  ks !! n = Some k -> k <> key ->
  param_lookup ks (<[n := v]> vs) key = param_lookup ks vs key.
Proof.
  induction ks as [|k0 ks IH]; intros vs n k v key Hk Hne; [discriminate|].
  destruct vs as [|v0 vs]; [reflexivity|].
  destruct n as [|n]; cbn [param_lookup].
  - injection Hk as ->. change (<[0%nat := v]> (v0 :: vs)) with (v :: vs).
    cbn [param_lookup]. destruct (param_lookup ks vs key); [reflexivity|].
    rewrite !bool_decide_eq_false_2 by exact Hne. reflexivity.
  - change (<[S n := v]> (v0 :: vs)) with (v0 :: <[n := v]> vs).
    cbn [param_lookup]. rewrite (IH vs n k v key Hk Hne). reflexivity.
Qed.

Lemma param_lookup_insert_last ks : forall vs n k v,
  length ks = S n -> ks !! n = Some k -> (n < length vs)%nat ->
  param_lookup ks (<[n := v]> vs) k = Some v.
Proof.
  induction ks as [|k0 ks IH]; intros vs n k v Hl Hk Hn; [discriminate|].
  destruct vs as [|v0 vs]; [cbn in Hn; lia|].
  destruct n as [|n].
  - destruct ks; [|discriminate]. injection Hk as ->.
    change (<[0%nat := v]> (v0 :: vs)) with (v :: vs). cbn [param_lookup].
    rewrite bool_decide_eq_true_2 by reflexivity. reflexivity.
  - change (<[S n := v]> (v0 :: vs)) with (v0 :: <[n := v]> vs).
    cbn [param_lookup]. cbn [length] in Hl, Hn.
    rewrite (IH vs n k v) by (try lia; exact Hk). reflexivity.
Qed.

(** The reset that the mount handler makes touches the wildcard alone:
    every parameter under another name reads in the sub-router as it
    read in the parent, the names and the number of values stay, and
    when the last parameter is the wildcard and has a value, the wildcard
    reads empty. *)
Theorem mount_shift_params (c : Context) :
  (forall key, key <> "*" -> URLParam (mount_shift c) key = URLParam c key) /\
  Keys (URLParams (mount_shift c)) = Keys (URLParams c) /\
  length (Values (URLParams (mount_shift c))) = length (Values (URLParams c)) /\
  (forall n, length (Keys (URLParams c)) = S n ->
             Keys (URLParams c) !! n = Some "*" ->
             (n < length (Values (URLParams c)))%nat ->
             URLParam (mount_shift c) "*" = Some "").
Proof.
  unfold URLParam, mount_shift. cbn [set_RoutePath URLParams].
  destruct (length (Keys (URLParams c))) as [|n] eqn:Hl.
  { cbn [URLParams]. repeat split; try reflexivity. intros n Hn. discriminate. }
  destruct (Keys (URLParams c) !! n) as [k|] eqn:Hk.
  2:{ cbn [URLParams]. repeat split; try reflexivity.
      intros n' Hn' Hk'. injection Hn' as <-. rewrite Hk in Hk'. discriminate. }
  destruct (bool_decide (k = "*") && (n <? length (Values (URLParams c)))%nat) eqn:Hc.
  - apply andb_true_iff in Hc as [Hs Hn]. apply bool_decide_eq_true_1 in Hs.
    apply Nat.ltb_lt in Hn. subst k.
    cbn [set_URLParams URLParams Keys Values]. repeat split.
    + intros key Hne. apply param_lookup_insert_other with (k := "*"); [exact Hk|].
      intros E. apply Hne. symmetry. exact E.
    + apply length_insert.
    + intros n' Hn' _ _. injection Hn' as <-.
      apply param_lookup_insert_last; assumption.
  - cbn [URLParams]. repeat split; try reflexivity.
    intros n' Hn' Hk' Hlt. injection Hn' as <-. rewrite Hk in Hk'. injection Hk' as ->.
    rewrite bool_decide_eq_true_2 in Hc by reflexivity.
    apply Nat.ltb_lt in Hlt. rewrite Hlt in Hc. discriminate.
Qed.

(** ** What a registration leaves behind *)

Lemma getE_Ok e w x w1 : getE e w = Ok x w1 -> w1 = w /\ engines w !! e = Some x.
Proof.
  unfold getE. destruct (engines w !! e); [|discriminate].
  intros E. injection E as <- <-. auto.
Qed.

Lemma bind_getE {B} e x (k : Engine -> M B) w :
  engines w !! e = Some x -> bind (getE e) k w = k x w.
Proof. intros H. unfold bind, getE. rewrite H. reflexivity. Qed.

Lemma modE_Ok e f w u w1 :
  modE e f w = Ok u w1 ->
  exists x, engines w !! e = Some x /\ w1 = with_engine w e (f x).
Proof.
  unfold modE. destruct (engines w !! e) as [x|]; [|discriminate].
  intros E. injection E as <-. eauto.
Qed.

Lemma getTree_Ok i w t w1 : getTree i w = Ok t w1 -> w1 = w /\ trees w !! i = Some t.
Proof.
  unfold getTree. destruct (trees w !! i); [|discriminate].
  intros E. injection E as <- <-. auto.
Qed.

Section Built.

Variable rx_valid : string -> bool.

(** A registration that succeeds leaves the engine built, so that [Use]
    on it panics from then on, and changes nothing of the engine but its
    handler; the other engines, the pools, the registry of methods and
    the log stay as they were, and so does every tree but its own. *)
Theorem handle_builds_engine (mx : nat) (m : methodTyp) (pattern : string)
        (h : Handler) (w w' : World) (loc : list Segment) :
  handle rx_valid mx m pattern h w = Ok loc w' ->
  (exists x x',
      engines w !! mx = Some x /\ engines w' !! mx = Some x' /\
      is_some (handler x') = true /\ set_handler (handler x) x' = x /\
      (forall i, i <> tree x -> trees w' !! i = trees w !! i)) /\
  (forall e, e <> mx -> engines w' !! e = engines w !! e) /\
  pools w' = pools w /\ methodMap w' = methodMap w /\ trace w' = trace w /\
  (forall more, exists msg, Use mx more w' = Panic msg w').
Proof.
  intros H. unfold handle in H.
  destruct (negb (bool_decide (Str.head_char pattern = Some "/"%char)));
    [discriminate|].
  apply bind_Ok_inv in H as (x & w1 & Hx & H). apply getE_Ok in Hx as [-> Hx].
  pose proof (lookup_lt_Some _ _ _ Hx) as Hlt.
  apply bind_Ok_inv in H as (u1 & w1 & H1 & H).
  apply bind_Ok_inv in H as (u2 & w2 & H2 & H).
  apply bind_Ok_inv in H as (t & w3 & Ht & H). apply getTree_Ok in Ht as [-> Ht].
  destruct (InsertRoute rx_valid t m pattern
              (if inline x then chain (middlewares x) h else h)) as [[t' l]|];
    [|discriminate].
  apply bind_Ok_inv in H as (u3 & w4 & H3 & H). injection H as <- <-.
  unfold setTree in H3. injection H3 as <- <-.
  cbn [engines trees pools methodMap trace].
  assert (Hw2 : exists x', engines w2 !! mx = Some x' /\
                           is_some (handler x') = true /\
                           set_handler (handler x) x' = x /\
                           (forall e, e <> mx -> engines w2 !! e = engines w !! e) /\
                           trees w2 = trees w /\ pools w2 = pools w /\
                           methodMap w2 = methodMap w /\ trace w2 = trace w).
  { destruct (inline x) eqn:Hi; cbn [negb andb when] in H1, H2.
    - injection H1 as <- <-. apply modE_Ok in H2 as (y & Hy & ->).
      rewrite Hx in Hy. injection Hy as <-.
      exists (set_handler (Some (HRouteHTTP mx)) x). cbn [with_engine engines].
      rewrite list_lookup_insert_eq by exact Hlt.
      repeat split; try reflexivity.
      + destruct x; reflexivity.
      + intros e He. apply list_lookup_insert_ne. auto.
    - injection H2 as <- <-. destruct (handler x) as [hd|] eqn:Hh; cbn [is_some negb when] in H1.
      + injection H1 as <- <-. exists x. rewrite Hh. repeat split; try assumption.
        destruct x; cbn in *; subst; reflexivity.
      + unfold updateRouteHandler in H1. apply modE_Ok in H1 as (y & Hy & ->).
        rewrite Hx in Hy. injection Hy as <-.
        eexists. cbn [with_engine engines].
        rewrite list_lookup_insert_eq by exact Hlt.
        repeat split; try reflexivity.
        * rewrite <- Hh. destruct x; reflexivity.
        * intros e He. apply list_lookup_insert_ne. auto. }
  destruct Hw2 as (x' & Hx' & Hb & Hs & Ho & Htr & Hpo & Hmm & Htc).
  split; [|repeat split; try assumption].
  - exists x, x'. repeat split; try assumption.
    intros i Hi. rewrite list_lookup_insert_ne by auto. rewrite Htr. reflexivity.
  - intros more. unfold Use, bind, getE. cbn [engines]. rewrite Hx', Hb.
    eexists. reflexivity.
Qed.

End Built.

(** ** Handlers for unmatched requests *)

Section Overrides.

Variable get : Engine -> option Handler.
Variable set : option Handler -> Engine -> Engine.
Hypothesis set_get : forall x, set (get x) x = x.
Hypothesis set_set : forall u v x, set v (set u x) = set v x.

(** What [evolves] says engine by engine. *)
Lemma evolves_frame hFn w mx x w' :
  engines w !! mx = Some x ->
  evolves get set hFn (with_engine w mx (set (Some hFn) x)) w' ->
  trees w' = trees w /\ pools w' = pools w /\ methodMap w' = methodMap w /\
  trace w' = trace w /\
  (forall e y, engines w !! e = Some y ->
     exists y', engines w' !! e = Some y' /\ set (get y) y' = y /\
                (e <> mx -> get y' = get y \/ (get y = None /\ get y' = Some hFn))).
Proof.
  intros Hx (Ht & Hp & Hm & Hc & Hf). cbn [with_engine trees pools methodMap trace] in *.
  repeat split; try assumption.
  intros e y Hy. cbn [with_engine engines] in Hf.
  destruct (decide (e = mx)) as [->|Hne].
  - rewrite Hx in Hy. injection Hy as <-.
    assert (Hi : <[mx := set (Some hFn) x]> (engines w) !! mx = Some (set (Some hFn) x))
      by (apply list_lookup_insert_eq; eapply lookup_lt_Some; exact Hx).
    destruct (Forall2_lookup_l _ _ _ _ _ Hf Hi) as (y' & Hy' & [E _]).
    exists y'. split; [exact Hy'|]. split; [|contradiction].
    rewrite E, !set_set. apply set_get.
  - assert (Hi : <[mx := set (Some hFn) x]> (engines w) !! e = Some y)
      by (rewrite list_lookup_insert_ne by auto; exact Hy).
    destruct (Forall2_lookup_l _ _ _ _ _ Hf Hi) as (y' & Hy' & [E Hg]).
    exists y'. split; [exact Hy'|]. split; [|intros _; exact Hg].
    rewrite E, set_set. apply set_get.
Qed.

End Overrides.

(** [NotFound] on an engine that is not inline, in a store with sound
    pointers and with more fuel than there are engines: it returns; the
    engine answers unmatched paths with the given handler from then on;
    every router mounted in its tree has a handler of its own after; an
    engine other than this one is changed at most in that its unset
    handler is set to the given one; and the trees, the pools, the
    registry of methods and the log are as before. *)
Theorem NotFound_sets_and_spreads (fuel : nat) (h : Handler) (mx : nat)
        (w : World) (x : Engine) :
  mounts_ok w -> engines w !! mx = Some x -> inline x = false ->
  (length (engines w) < fuel)%nat ->
  exists w',
    NotFound fuel mx h w = Ok tt w' /\
    (exists x', engines w' !! mx = Some x' /\ NotFoundHandler x' = h) /\
    (forall t r s,
        trees w !! tree x = Some t -> In r (routes t) -> SubRoutes r = Some s ->
        exists x', engines w' !! s = Some x' /\ is_Some (notFoundHandler x')) /\
    (forall e y, engines w !! e = Some y ->
       exists y', engines w' !! e = Some y' /\
                  set_notFoundHandler (notFoundHandler y) y' = y /\
                  (e <> mx -> notFoundHandler y' = notFoundHandler y \/
                              (notFoundHandler y = None /\ notFoundHandler y' = Some h))) /\
    trees w' = trees w /\ pools w' = pools w /\ methodMap w' = methodMap w /\
    trace w' = trace w.
Proof.
  intros Hok Hx Hin Hfuel.
  destruct (NotFound_plain fuel h mx w x Hok Hx Hin Hfuel) as (w' & HN & He & Hs & Hsub).
  exists w'. split; [exact HN|].
  destruct (evolves_frame notFoundHandler set_notFoundHandler
              ltac:(intros []; reflexivity) ltac:(reflexivity)
              h w mx x w' Hx He) as (Ht & Hp & Hm & Hc & Hf).
  repeat split; try assumption.
  destruct Hs as (x' & Hx' & Hg). exists x'. split; [exact Hx'|].
  unfold NotFoundHandler. rewrite Hg. reflexivity.
Qed.

(** The same for [MethodNotAllowed]. *)
Theorem MethodNotAllowed_sets_and_spreads (fuel : nat) (h : Handler) (mx : nat)
        (w : World) (x : Engine) :
  mounts_ok w -> engines w !! mx = Some x -> inline x = false ->
  (length (engines w) < fuel)%nat ->
  exists w',
    MethodNotAllowed fuel mx h w = Ok tt w' /\
    (exists x', engines w' !! mx = Some x' /\ MethodNotAllowedHandler x' = h) /\
    (forall t r s,
        trees w !! tree x = Some t -> In r (routes t) -> SubRoutes r = Some s ->
        exists x', engines w' !! s = Some x' /\ is_Some (methodNotAllowedHandler x')) /\
    (forall e y, engines w !! e = Some y ->
       exists y', engines w' !! e = Some y' /\
                  set_methodNotAllowedHandler (methodNotAllowedHandler y) y' = y /\
                  (e <> mx -> methodNotAllowedHandler y' = methodNotAllowedHandler y \/
                              (methodNotAllowedHandler y = None /\
                               methodNotAllowedHandler y' = Some h))) /\
    trees w' = trees w /\ pools w' = pools w /\ methodMap w' = methodMap w /\
    trace w' = trace w.
Proof.
  intros Hok Hx Hin Hfuel.
  destruct (MethodNotAllowed_plain fuel h mx w x Hok Hx Hin Hfuel)
    as (w' & HN & He & Hs & Hsub).
  exists w'. split; [exact HN|].
  destruct (evolves_frame methodNotAllowedHandler set_methodNotAllowedHandler
              ltac:(intros []; reflexivity) ltac:(reflexivity)
              h w mx x w' Hx He) as (Ht & Hp & Hm & Hc & Hf).
  repeat split; try assumption.
  destruct Hs as (x' & Hx' & Hg). exists x'. split; [exact Hx'|].
  unfold MethodNotAllowedHandler. rewrite Hg. reflexivity.
Qed.

(** [NotFound] on an inline engine is [NotFound] on its parent, with the
    handler wrapped in the middlewares of the inline engine, as long as
    the parent is not itself the inline engine of another. *)
Theorem NotFound_inline_delegates (fuel : nat) (im p : nat) (xi : Engine)
        (h : Handler) (w : World) :
  engines w !! im = Some xi -> inline xi = true -> parent xi = Some p ->
  (forall xp, engines w !! p = Some xp -> inline xp = false \/ parent xp = None) ->
  NotFound (S fuel) im h w = NotFound (S fuel) p (chain (middlewares xi) h) w.
Proof.
  intros Hi Hin Hp Hplain. cbn [NotFound].
  rewrite (bind_getE im xi) by exact Hi. rewrite Hin, Hp. cbn beta iota zeta.
  destruct (engines w !! p) as [xp|] eqn:Hxp.
  - rewrite (bind_getE p xp) by exact Hxp.
    destruct (Hplain xp eq_refl) as [E|E]; rewrite E.
    + reflexivity.
    + destruct (inline xp); reflexivity.
  - unfold bind, modE, getE. rewrite Hxp. reflexivity.
Qed.

(** ** Middlewares around a handler *)

Definition add_trace (evs : list Event) (w : World) : World :=
  mkWorld (engines w) (trees w) (pools w) (methodMap w) (trace w ++ evs).

Lemma add_trace_nil w : add_trace [] w = w.
Proof. destruct w. unfold add_trace. cbn. rewrite app_nil_r. reflexivity. Qed.

Lemma add_trace_app evs evs' w :
  add_trace evs' (add_trace evs w) = add_trace (evs ++ evs') w.
Proof. unfold add_trace. cbn. rewrite app_assoc. reflexivity. Qed.

Lemma chain_app (l1 l2 : list Middleware) (h : Handler) :
  chain (l1 ++ l2) h = chain l1 (chain l2 h).
Proof. unfold chain. apply foldr_app. Qed.

Section Chains.

Variable rx_match : string -> string -> bool.

(** What the post-logic of the passing middlewares [names] adds to the
    outcome of the handler they wrap. *)
Definition unwind (names : list string) (res : Result (option Context))
  : Result (option Context) :=
  match res with
  | Ok rc' w' => Ok rc' (add_trace (map EvMwLeave (rev names)) w')
  | Panic msg w' => Panic msg w'
  | OutOfFuel => OutOfFuel
  end.

(** Middlewares that call their successor run their pre-logic in the
    order of the list, first one outermost, then the handler, then their
    post-logic in the reverse order; a panic of the handler leaves every
    post-logic out. *)
Theorem serve_chain_pass (names : list string) (h : Handler) (r : Request)
        (rc : option Context) (fuel : nat) (w : World) :
  serve rx_match (length names + fuel) (chain (map MwPass names) h) r rc w
  = unwind names (serve rx_match fuel h r rc (add_trace (map EvMwEnter names) w)).
Proof.
  revert w. induction names as [|n names IH]; intros w.
  - cbn [length Nat.add map chain foldr rev]. rewrite add_trace_nil.
    destruct (serve rx_match fuel h r rc w) as [rc' w'| |]; cbn [unwind map];
      rewrite ?add_trace_nil; reflexivity.
  - cbn [length Nat.add map chain foldr serve].
    unfold bind at 1. unfold log at 1.
    unfold bind at 1. fold (chain (map MwPass names) h).
    change (mkWorld (engines w) (trees w) (pools w) (methodMap w)
                    (trace w ++ [EvMwEnter n]))
      with (add_trace [EvMwEnter n] w).
    rewrite IH, add_trace_app. cbn [app].
    destruct (serve rx_match fuel h r rc (add_trace (EvMwEnter n :: map EvMwEnter names) w))
      as [rc' w'| |]; cbn [unwind]; try reflexivity.
    unfold bind, log, ret. cbn [engines trees pools methodMap trace add_trace rev].
    unfold add_trace. rewrite map_app, app_assoc. reflexivity.
Qed.

(** A middleware that answers by itself ends the chain: the middlewares
    before it run around it, and neither the middlewares after it nor
    the handler have any part in the outcome. *)
Theorem serve_chain_stop (names : list string) (n : string)
        (rest : list Middleware) (h : Handler) (r : Request)
        (rc : option Context) (fuel : nat) (w : World) :
  serve rx_match (length names + S fuel)
        (chain (map MwPass names ++ MwStop n :: rest) h) r rc w
  = Ok rc (add_trace (map EvMwEnter names ++ [EvMwStop n]
                        ++ map EvMwLeave (rev names)) w).
Proof.
  rewrite chain_app, serve_chain_pass.
  cbn [chain foldr serve]. unfold bind, log, ret. cbn [unwind].
  unfold add_trace. cbn [engines trees pools methodMap trace].
  rewrite <- !app_assoc. reflexivity.
Qed.

End Chains.

Lemma find_child_ext (p p' : Segment -> bool) cs :
  (forall s, p s = p' s) -> find_child p cs = find_child p' cs.
Proof.
  intros H. induction cs as [|[s c] cs IH]; [reflexivity|].
  cbn [find_child]. rewrite H, IH. reflexivity.
Qed.

(** ** Patterns that a tree holds *)

Lemma same_child_refl s : same_child s s = true.
Proof.
  destruct s; cbn [same_child]; try reflexivity;
    apply bool_decide_eq_true; auto.
Qed.

Lemma same_child_sym s s' : same_child s s' = same_child s' s.
Proof.
  destruct s, s'; cbn [same_child]; try reflexivity;
    apply bool_decide_ext; intuition congruence.
Qed.

Lemma same_child_trans a b c :
  same_child a b = true -> same_child b c = same_child a c.
Proof.
  destruct a, b; cbn [same_child]; try discriminate; intros H;
    try apply bool_decide_eq_true in H; try reflexivity.
  - subst. reflexivity.
  - destruct H as [-> ->]. reflexivity.
Qed.

Lemma same_child_apart a b c :
  same_child a b = true -> same_child a c = false -> same_child c b = false.
Proof.
  intros H1 H2. rewrite same_child_sym. rewrite (same_child_sym a b) in H1.
  rewrite <- (same_child_trans b a c H1). exact H2.
Qed.

(** The child that serves the segment [q], after an insertion. *)
Lemma find_child_update_any q s g cs :
  find_child (same_child q) (update_child s g cs)
  = if same_child s q
    then option_map g (find_child (same_child q) cs)
    else find_child (same_child q) cs.
Proof.
  induction cs as [|[s' c] cs IH]; cbn [update_child find_child].
  - destruct (same_child s q); reflexivity.
  - destruct (same_child s s') eqn:E1; cbn [find_child].
    + destruct (same_child s q) eqn:E2.
      * rewrite (same_child_trans s q s' E2), E1. reflexivity.
      * rewrite (same_child_apart s s' q E1 E2). reflexivity.
    + rewrite IH. destruct (same_child s q) eqn:E2.
      * rewrite (same_child_trans s q s' E2), E1. reflexivity.
      * destruct (same_child q s'); reflexivity.
Qed.

Lemma find_child_place_any q s c cs :
  has_child s cs = false ->
  find_child (same_child q) (place_child s c cs)
  = if same_child s q then Some c else find_child (same_child q) cs.
Proof.
  unfold has_child.
  induction cs as [|[s' c'] cs IH]; cbn [place_child find_child existsb fst].
  - intros _. rewrite (same_child_sym q s). reflexivity.
  - intros H. apply orb_false_iff in H. destruct H as [H1 H2].
    destruct (_ && _); cbn [find_child].
    + rewrite (same_child_sym q s). reflexivity.
    + rewrite (IH H2). destruct (same_child s q) eqn:E2; [|reflexivity].
      rewrite (same_child_trans s q s' E2), H1. reflexivity.
Qed.

(** The node that an insertion along [segs] ends at can be located
    along [segs] after. *)
Lemma locate_insert_at segs f : forall n,
  is_some (locate segs (insert_at segs f n)) = true.
Proof.
  induction segs as [|s segs IH]; intros n; [reflexivity|].
  rewrite insert_at_cons. cbn [locate children].
  destruct (has_child s (children n)) eqn:Hc.
  - rewrite find_child_update_any, same_child_refl.
    rewrite has_child_find in Hc.
    destruct (find_child (same_child s) (children n)) as [c|]; [|discriminate].
    cbn [option_map]. apply IH.
  - rewrite (find_child_place_any _ _ _ _ Hc), same_child_refl. apply IH.
Qed.

(** What could be located before an insertion can be located after. *)
Lemma locate_insert_at_keeps q f : forall segs n,
  (forall t, children (f t) = children t) ->
  is_some (locate q n) = true ->
  is_some (locate q (insert_at segs f n)) = true.
Proof.
  induction q as [|a q IH]; intros segs n Hf; [reflexivity|].
  destruct segs as [|s segs].
  - cbn [insert_at locate]. rewrite Hf. auto.
  - rewrite insert_at_cons. cbn [locate children].
    destruct (find_child (same_child a) (children n)) as [c|] eqn:Hfind;
      [|discriminate].
    intros Hl. destruct (has_child s (children n)) eqn:Hc.
    + rewrite find_child_update_any, Hfind.
      destruct (same_child s a); [|exact Hl].
      cbn [option_map]. apply IH; assumption.
    + rewrite (find_child_place_any _ _ _ _ Hc), Hfind.
      destruct (same_child s a) eqn:E; [|exact Hl].
      rewrite has_child_find, (find_child_ext _ (same_child a)), Hfind in Hc;
        [discriminate|].
      intros s'. symmetry. apply same_child_trans. exact E.
Qed.

Section Mounted.

Variable rx_valid : string -> bool.

Lemma findPattern_InsertRoute t m p h t' loc :
  InsertRoute rx_valid t m p h = Some (t', loc) ->
  findPattern rx_valid t' p = true /\
  (forall q, findPattern rx_valid t q = true -> findPattern rx_valid t' q = true).
Proof.
  unfold InsertRoute, findPattern.
  destruct (parsePattern rx_valid p) as [segs|]; [|discriminate].
  intros E. injection E as <- <-. split.
  - pose proof (locate_insert_at segs
                  (fun t0 => Node (children t0) (setEndpoint m h (node_eps t0))
                                  (node_subroutes t0) p) t) as H.
    destruct (locate segs _); [reflexivity|discriminate].
  - intros q. destruct (parsePattern rx_valid q) as [qs|]; [|discriminate].
    intros H.
    pose proof (locate_insert_at_keeps qs
                  (fun t0 => Node (children t0) (setEndpoint m h (node_eps t0))
                                  (node_subroutes t0) p) segs t
                  ltac:(reflexivity)) as H'.
    destruct (locate qs t); [|discriminate]. specialize (H' eq_refl).
    destruct (locate qs _); [reflexivity|discriminate].
Qed.

Lemma findPattern_mark t loc sub q :
  findPattern rx_valid t q = true ->
  findPattern rx_valid (insert_at loc (set_subroutes sub) t) q = true.
Proof.
  unfold findPattern. destruct (parsePattern rx_valid q) as [qs|]; [|discriminate].
  intros H.
  pose proof (locate_insert_at_keeps qs (set_subroutes sub) loc t
                ltac:(reflexivity)) as H'.
  destruct (locate qs t); [|discriminate]. specialize (H' eq_refl).
  destruct (locate qs _); [reflexivity|discriminate].
Qed.

(** The tree of the engine [mx] holds the pattern [q]. *)
Definition has_pattern (w : World) (mx : nat) (q : string) : Prop :=
  exists x t, engines w !! mx = Some x /\ trees w !! tree x = Some t /\
              findPattern rx_valid t q = true.

Lemma handle_Ok_inv mx m p h w loc w' :
  handle rx_valid mx m p h w = Ok loc w' ->
  exists x x' t t',
    engines w !! mx = Some x /\ engines w' !! mx = Some x' /\ tree x' = tree x /\
    trees w !! tree x = Some t /\
    InsertRoute rx_valid t m p (if inline x then chain (middlewares x) h else h)
    = Some (t', loc) /\
    trees w' = <[tree x := t']> (trees w).
Proof.
  intros H. unfold handle in H.
  destruct (negb (bool_decide (Str.head_char p = Some "/"%char))); [discriminate|].
  apply bind_Ok_inv in H as (x & w1 & Hx & H). apply getE_Ok in Hx as [-> Hx].
  pose proof (lookup_lt_Some _ _ _ Hx) as Hlt.
  apply bind_Ok_inv in H as (u1 & w1 & H1 & H).
  apply bind_Ok_inv in H as (u2 & w2 & H2 & H).
  apply bind_Ok_inv in H as (t & w3 & Ht & H). apply getTree_Ok in Ht as [-> Ht].
  destruct (InsertRoute rx_valid t m p
              (if inline x then chain (middlewares x) h else h)) as [[t' l]|] eqn:HI;
    [|discriminate].
  apply bind_Ok_inv in H as (u3 & w4 & H3 & H). injection H as <- <-.
  unfold setTree in H3. injection H3 as <- <-.
  cbn [engines trees].
  assert (Hw2 : exists x', engines w2 !! mx = Some x' /\ tree x' = tree x /\
                           trees w2 = trees w).
  { unfold when in H1, H2.
    destruct (negb (inline x) && negb (is_some (handler x))).
    - unfold updateRouteHandler in H1. apply modE_Ok in H1 as (y & Hy & ->).
      rewrite Hx in Hy. injection Hy as <-.
      destruct (inline x).
      + apply modE_Ok in H2 as (y & Hy & ->). cbn [with_engine engines trees] in *.
        rewrite list_lookup_insert_eq in Hy by exact Hlt. injection Hy as <-.
        rewrite list_lookup_insert_eq by (rewrite length_insert; exact Hlt).
        eexists. split; [reflexivity|]. split; reflexivity.
      + injection H2 as <- <-. cbn [with_engine engines trees].
        rewrite list_lookup_insert_eq by exact Hlt.
        eexists. split; [reflexivity|]. split; reflexivity.
    - injection H1 as <- <-. destruct (inline x).
      + apply modE_Ok in H2 as (y & Hy & ->). rewrite Hx in Hy. injection Hy as <-.
        cbn [with_engine engines trees].
        rewrite list_lookup_insert_eq by exact Hlt.
        eexists. split; [reflexivity|]. split; reflexivity.
      + injection H2 as <- <-. exists x. auto. }
  destruct Hw2 as (x' & Hx' & Htx & Htr). rewrite Htr in Ht.
  exists x, x', t, t'. rewrite Htr. auto 10.
Qed.

Lemma handle_has_pattern mx m p h w loc w' :
  handle rx_valid mx m p h w = Ok loc w' ->
  has_pattern w' mx p /\ (forall q, has_pattern w mx q -> has_pattern w' mx q).
Proof.
  intros H. apply handle_Ok_inv in H as (x & x' & t & t' & Hx & Hx' & Htx & Ht & HI & Htr).
  apply findPattern_InsertRoute in HI as [Hp Hk].
  assert (Ht' : trees w' !! tree x' = Some t').
  { rewrite Htr, Htx. apply list_lookup_insert_eq. eapply lookup_lt_Some, Ht. }
  split.
  - exists x', t'. auto.
  - intros q (x0 & t0 & Hx0 & Ht0 & Hq). rewrite Hx in Hx0. injection Hx0 as <-.
    rewrite Ht in Ht0. injection Ht0 as <-. exists x', t'. auto.
Qed.

(** What a mount that succeeded has registered. *)
Lemma Mount_leaves fuel mx pattern h w w' :
  Mount rx_valid fuel mx pattern h w = Ok tt w' ->
  if Str.is_empty pattern
     || negb (bool_decide (Str.last_char pattern = Some "/"%char))
  then has_pattern w' mx pattern /\ has_pattern w' mx (pattern +:+ "/") /\
       has_pattern w' mx (pattern +:+ "/*")
  else has_pattern w' mx (pattern +:+ "*").
Proof.
  intros H. unfold Mount in H. destruct h as [h|]; [|discriminate].
  apply bind_Ok_inv in H as (x & w1 & _ & H).
  apply bind_Ok_inv in H as (t & w2 & _ & H).
  destruct (findPattern rx_valid t (pattern +:+ "*")
            || findPattern rx_valid t (pattern +:+ "/*")); [discriminate|].
  apply bind_Ok_inv in H as (u & w3 & _ & H).
  apply bind_Ok_inv in H as (pattern' & w4 & H1 & H).
  apply bind_Ok_inv in H as (loc & w5 & H5 & H).
  apply handle_has_pattern in H5 as [Hlast Hkeep3].
  assert (Hmark : forall q, has_pattern w5 mx q -> has_pattern w' mx q).
  { intros q (x5 & t5 & Hx5 & Ht5 & Hq).
    destruct (as_engine h) as [subr|].
    - apply bind_Ok_inv in H as (y & w6 & Hy & H). apply getE_Ok in Hy as [-> Hy].
      apply bind_Ok_inv in H as (ty & w6 & Hty & H). apply getTree_Ok in Hty as [-> Hty].
      unfold setTree in H. injection H as <-.
      rewrite Hx5 in Hy. injection Hy as <-. rewrite Ht5 in Hty. injection Hty as <-.
      exists x5, (insert_at loc (set_subroutes (Some subr)) t5). cbn [engines trees].
      split; [exact Hx5|]. split.
      + apply list_lookup_insert_eq. eapply lookup_lt_Some, Ht5.
      + apply findPattern_mark, Hq.
    - injection H as <-. exists x5, t5. auto. }
  destruct (Str.is_empty pattern
            || negb (bool_decide (Str.last_char pattern = Some "/"%char))).
  - apply bind_Ok_inv in H1 as (l1 & wa & Ha & H1).
    apply bind_Ok_inv in H1 as (l2 & wb & Hb & H1). injection H1 as <- <-.
    apply handle_has_pattern in Ha as [Ha _].
    apply handle_has_pattern in Hb as [Hb Hkeep2].
    rewrite str_app_assoc in Hlast. cbn in Hlast.
    split; [apply Hmark, Hkeep3, Hkeep2, Ha|].
    split; [apply Hmark, Hkeep3, Hb|apply Hmark, Hlast].
  - injection H1 as <- <-. apply Hmark, Hlast.
Qed.

(** A mount that succeeds on a pattern that does not end in a slash
    registers the pattern, the pattern with a slash, and the pattern
    with a slash and the wildcard; on a pattern that ends in a slash, the
    pattern with the wildcard. *)
Theorem Mount_registers (fuel : nat) (mx : nat) (pattern : string)
        (h : option Handler) (w w' : World) :
  Mount rx_valid fuel mx pattern h w = Ok tt w' ->
  Forall (has_pattern w' mx)
         (if bool_decide (Str.last_char pattern = Some "/"%char)
          then [pattern +:+ "*"]
          else [pattern; pattern +:+ "/"; pattern +:+ "/*"]).
Proof.
  intros H. pose proof (Mount_leaves _ _ _ _ _ _ H) as HL.
  case_bool_decide as Hl.
  - destruct pattern as [|a p]; [discriminate|]. cbn [Str.is_empty negb orb] in HL.
    repeat constructor. exact HL.
  - rewrite orb_true_r in HL. destruct HL as (A & B & C). repeat constructor; assumption.
Qed.

(** Two mounts on the same pattern: the second one panics, and changes
    nothing. *)
Theorem Mount_twice_panics (fuel fuel' : nat) (mx : nat) (pattern : string)
        (h : option Handler) (h2 : Handler) (w w' : World) :
  Mount rx_valid fuel mx pattern h w = Ok tt w' ->
  Mount rx_valid fuel' mx pattern (Some h2) w'
  = Panic ("chi: attempting to Mount() a handler on an existing path, '"
             +:+ pattern +:+ "'") w'.
Proof.
  intros H. pose proof (Mount_leaves _ _ _ _ _ _ H) as HL.
  assert (Hex : exists x t, engines w' !! mx = Some x /\ trees w' !! tree x = Some t /\
                  findPattern rx_valid t (pattern +:+ "*")
                  || findPattern rx_valid t (pattern +:+ "/*") = true).
  { destruct (_ || _) in HL.
    - destruct HL as (_ & _ & x & t & Hx & Ht & Hq). exists x, t.
      rewrite Hq, orb_true_r. auto.
    - destruct HL as (x & t & Hx & Ht & Hq). exists x, t. rewrite Hq. auto. }
  destruct Hex as (x & t & Hx & Ht & Hq).
  unfold Mount. rewrite (bind_getE mx x) by exact Hx.
  unfold bind at 1. unfold getTree. rewrite Ht, Hq. reflexivity.
Qed.

(** A mount on a pattern panics when a route with the wildcard behind
    that pattern was registered before. *)
Theorem Mount_over_route_panics (fuel : nat) (mx : nat) (m : methodTyp)
        (pattern tail : string) (h h2 : Handler) (loc : list Segment) (w w' : World) :
  tail = "*" \/ tail = "/*" ->
  handle rx_valid mx m (pattern +:+ tail) h w = Ok loc w' ->
  Mount rx_valid fuel mx pattern (Some h2) w'
  = Panic ("chi: attempting to Mount() a handler on an existing path, '"
             +:+ pattern +:+ "'") w'.
Proof.
  intros Htail H. apply handle_has_pattern in H as [(x & t & Hx & Ht & Hq) _].
  unfold Mount. rewrite (bind_getE mx x) by exact Hx.
  unfold bind at 1. unfold getTree. rewrite Ht.
  destruct Htail as [-> | ->]; rewrite Hq, ?orb_true_r; reflexivity.
Qed.

End Mounted.

(** ** From registration to dispatch *)

Lemma applies_std (name : string) (m : methodTyp) :
  stdMethodMap !! name = Some m -> applies m m.
Proof.
  intros H. apply stdMethodMap_lookup in H. cbn [In] in H.
  repeat (destruct H as [H|H]; [injection H as <- <-; left; vm_compute;
                                apply list_elem_of_here|]).
  contradiction.
Qed.

Section EndToEnd.

Variable rx_valid : string -> bool.
Variable rx_match : string -> string -> bool.
Variable unicode_ToUpper : string -> string.

(** A literal route registered on a new engine, and then a request for
    that path with that method: the request is looked up once, in the
    tree of the engine, the handler of the route is called with a
    context that holds the engine and the method and no parameter, and
    the context ends up in the pool of the engine. *)
Theorem route_then_serve (w0 : World) (lit method name : string) (m : methodTyp)
        (fuel : nat) :
  methodMap w0 = stdMethodMap ->
  stdMethodMap !! ToUpper unicode_ToUpper method = Some m ->
  parsePattern rx_valid lit = Some [Static lit] ->
  Str.head_char lit = Some "/"%char ->
  let mx := length (engines w0) in
  let c := set_RouteMethod (ToUpper unicode_ToUpper method) (set_Routes mx NewRouteContext) in
  exists w2 w3,
    (e <- New ;; Method_ rx_valid unicode_ToUpper e method lit (HFunc name) ;;; ret e) w0 = Ok mx w2 /\
    ServeHTTP rx_match (4 + fuel) mx (mkRequest (ToUpper unicode_ToUpper method) "" lit) w2
    = Ok None w3 /\
    trace w3 = trace w0 ++ [EvFind mx lit c; EvCall name (Some c)] /\
    pools w3 = pools w0 ++ [[c]].
Proof.
  intros Hmm Hm Hparse Hhead mx c.
  assert (Hne : lit <> "") by (intros E; rewrite E in Hhead; discriminate).
  set (t' := insert_at [Static lit]
               (fun t => Node (children t) (setEndpoint m (HFunc name) (node_eps t))
                              (node_subroutes t) lit) empty_node).
  set (x2 := mkEngine (Some (HRouteHTTP mx)) (length (trees w0)) None None
                      (length (pools w0)) None [] false).
  set (w2 := mkWorld (engines w0 ++ [x2]) (trees w0 ++ [t']) (pools w0 ++ [[]])
                     (methodMap w0) (trace w0)).
  assert (Hreg : (e <- New ;; Method_ rx_valid unicode_ToUpper e method lit (HFunc name) ;;; ret e) w0
                 = Ok mx w2).
  { unfold bind at 1. unfold New. fold mx.
    unfold bind at 1. unfold Method_. unfold bind at 1. unfold getMethodMap.
    cbn [methodMap]. rewrite Hmm, Hm.
    unfold bind at 1. unfold handle. rewrite Hhead.
    rewrite bool_decide_eq_true_2 by reflexivity. cbn [negb].
    unfold bind at 1. unfold getE. cbn [engines].
    rewrite lookup_app_r by (unfold mx; lia). unfold mx at 1. rewrite Nat.sub_diag.
    cbn [lookup list_lookup inline handler is_some negb andb when tree middlewares].
    unfold bind at 1. unfold updateRouteHandler, modE. cbn [engines].
    rewrite lookup_app_r by (unfold mx; lia). unfold mx at 1. rewrite Nat.sub_diag.
    cbn [lookup list_lookup].
    unfold bind at 1. unfold ret at 1.
    unfold bind at 1. unfold getTree. cbn [trees].
    rewrite lookup_app_r by lia. rewrite Nat.sub_diag. cbn [lookup list_lookup].
    unfold InsertRoute. rewrite Hparse. fold t'.
    unfold bind, setTree, ret. cbn [engines trees pools methodMap trace].
    unfold w2. f_equal. f_equal.
    - unfold mx. rewrite insert_app_r_alt by lia. rewrite Nat.sub_diag. reflexivity.
    - rewrite insert_app_r_alt by lia. rewrite Nat.sub_diag. reflexivity.
    - symmetry. exact Hmm. }
  assert (Hx2 : engines w2 !! mx = Some x2).
  { cbn [w2 engines]. rewrite lookup_app_r by (unfold mx; lia).
    unfold mx. rewrite Nat.sub_diag. reflexivity. }
  assert (Ht2 : trees w2 !! tree x2 = Some t').
  { cbn [w2 trees x2 tree]. rewrite lookup_app_r by lia.
    rewrite Nat.sub_diag. reflexivity. }
  assert (Hp2 : pools w2 !! pool x2 = Some []).
  { cbn [w2 pools x2 pool]. rewrite lookup_app_r by lia.
    rewrite Nat.sub_diag. reflexivity. }
  assert (Htree : tree_of rx_valid [(m, lit, HFunc name)] t').
  { apply (tree_insert rx_valid [] empty_node m lit (HFunc name) t' [Static lit]).
    - constructor.
    - unfold InsertRoute. rewrite Hparse. reflexivity. }
  assert (Happ : exists mask h, In (mask, lit, h) [(m, lit, HFunc name)] /\ applies mask m).
  { exists m, (HFunc name). split; [left; reflexivity|]. eapply applies_std, Hm. }
  destruct (FindRoute_static rx_valid rx_match lit m Hparse
              [(m, lit, HFunc name)] t' c Hne Htree Happ)
    as (fin & h & Hfind & _ & mask & Hin & _).
  destruct Hin as [E|[]]. injection E as _ <-.
  assert (Hsel : route_select rx_match (methodMap w2) t'
                   (mkRequest (ToUpper unicode_ToUpper method) "" lit)
                   (set_Routes mx (Reset NewRouteContext))
                 = (SelHandler (HFunc name), c)).
  { unfold route_select, requestPath, resolveMethod.
    cbn [Reset set_Routes NewRouteContext RoutePath RouteMethod Str.is_empty
         RawPath Path Method].
    destruct lit as [|a l] eqn:El; [contradiction|]. cbn [Str.is_empty].
    rewrite <- El in *. cbn [w2 methodMap set_RouteMethod RouteMethod].
    rewrite Hmm, Hm.
    change (set_RouteMethod (ToUpper unicode_ToUpper method) (set_Routes mx (Reset NewRouteContext)))
      with c.
    rewrite Hfind. reflexivity. }
  exists w2. eexists. split; [exact Hreg|].
  unfold ServeHTTP. cbn [Nat.add].
  rewrite (serve_HEngine_top rx_match _ mx x2 (HRouteHTTP mx) _ w2 Hx2 eq_refl).
  unfold bind at 1. unfold poolGet. rewrite Hp2.
  unfold bind at 1.
  rewrite (serve_HRouteHTTP rx_match _ mx x2 t' _ _ w2 Hx2 Ht2), Hsel.
  cbn [fst snd selected_handler serve].
  unfold bind, log, ret, poolPut. cbn [engines trees pools methodMap trace].
  rewrite Hp2. cbn [default from_option id].
  split; [reflexivity|]. cbn [trace pools]. split.
  - unfold requestPath. cbn. destruct lit; [contradiction|].
    cbn [Str.is_empty]. rewrite <- app_assoc. reflexivity.
  - cbn [w2 pools x2 pool]. rewrite insert_app_r_alt by lia.
    rewrite Nat.sub_diag. reflexivity.
Qed.

(** The path that is looked up is never empty. *)
Theorem lookup_path_nonempty (r : Request) (c : Context) :
  Str.is_empty (requestPath r c) = false.
Proof.
  unfold requestPath.
  destruct (RoutePath c) as [|a p] eqn:E; cbn [Str.is_empty]; [|reflexivity].
  destruct (RawPath r) as [|b q]; cbn [Str.is_empty].
  - destruct (Path r); reflexivity.
  - reflexivity.
Qed.

(** A panic on the way of a request through a built engine leaves the
    pool of the engine without the context that was taken out of it:
    the hand-back is not deferred. *)
Theorem ServeHTTP_panic_drops_context (fuel : nat) (mx : nat) (x : Engine)
        (hd : Handler) (r : Request) (free : list Context) (msg : string)
        (w w' : World) :
  engines w !! mx = Some x -> handler x = Some hd ->
  pools w !! pool x = Some free ->
  ServeHTTP rx_match fuel mx r w = Panic msg w' ->
  pools w' = <[pool x := tail free]> (pools w).
Proof.
  intros Hx Hh Hp H. unfold ServeHTTP in H.
  destruct fuel as [|fuel]; [discriminate|].
  rewrite (serve_HEngine_top rx_match _ mx x hd _ w Hx Hh) in H.
  unfold bind at 1 in H. unfold poolGet in H. rewrite Hp in H.
  assert (Hgen : forall got w1,
             pools w1 = <[pool x := tail free]> (pools w) ->
             (rc' <- serve rx_match fuel hd r (Some (set_Routes mx (Reset got))) ;;
              poolPut (pool x) (default (set_Routes mx (Reset got)) rc') ;;;
              ret (@None Context)) w1
             = Panic msg w' ->
             pools w' = <[pool x := tail free]> (pools w)).
  { intros got w1 Hw1 H1. unfold bind at 1 in H1.
    pose proof (serve_nested rx_match fuel hd r (set_Routes mx (Reset got)) w1) as Hn.
    unfold respects in Hn.
    destruct (serve rx_match fuel hd r (Some (set_Routes mx (Reset got))) w1)
      as [rc' w2|msg2 w2|]; [| |discriminate].
    - exfalso. specialize (Hn w2 eq_refl). destruct Hn as [_ Hpo].
      unfold bind, poolPut in H1. rewrite Hpo, Hw1 in H1.
      rewrite list_lookup_insert_eq in H1 by (eapply lookup_lt_Some, Hp).
      discriminate.
    - injection H1 as <- <-. specialize (Hn w2 eq_refl). destruct Hn as [_ Hpo].
      rewrite Hpo. exact Hw1. }
  destruct free as [|c0 free].
  - eapply Hgen; [|exact H]. cbn [tail]. symmetry. apply list_insert_id, Hp.
  - eapply Hgen; [|exact H]. reflexivity.
Qed.

End EndToEnd.

(** ** The mark a mount leaves in the tree *)

Lemma update_child_ext s g g' cs :
  (forall c, g c = g' c) -> update_child s g cs = update_child s g' cs.
Proof.
  intros H. induction cs as [|[s' c] cs IH]; [reflexivity|].
  cbn [update_child]. rewrite H, IH. reflexivity.
Qed.

Lemma update_child_twice s g f cs :
  update_child s g (update_child s f cs) = update_child s (fun c => g (f c)) cs.
Proof.
  induction cs as [|[s' c] cs IH]; [reflexivity|].
  cbn [update_child]. destruct (same_child s s') eqn:E; cbn [update_child]; rewrite E.
  - reflexivity.
  - rewrite IH. reflexivity.
Qed.

Lemma update_child_place s g c cs :
  has_child s cs = false ->
  update_child s g (place_child s c cs) = place_child s (g c) cs.
Proof.
  unfold has_child.
  induction cs as [|[s' c'] cs IH]; cbn [place_child update_child existsb fst].
  - intros _. rewrite same_child_refl. reflexivity.
  - intros H. apply orb_false_iff in H as [H1 H2].
    destruct (_ && _); cbn [update_child].
    + rewrite same_child_refl. reflexivity.
    + rewrite H1, (IH H2). reflexivity.
Qed.

Lemma has_child_update s g cs : has_child s (update_child s g cs) = has_child s cs.
Proof.
  unfold has_child.
  induction cs as [|[s' c] cs IH]; [reflexivity|].
  cbn [update_child]. destruct (same_child s s') eqn:E; cbn [existsb fst]; rewrite E.
  - reflexivity.
  - exact IH.
Qed.

Lemma has_child_place s c cs : has_child s (place_child s c cs) = true.
Proof.
  unfold has_child.
  induction cs as [|[s' c'] cs IH]; cbn [place_child].
  - cbn [existsb fst]. rewrite same_child_refl. reflexivity.
  - destruct (_ && _); cbn [existsb fst].
    + rewrite same_child_refl. reflexivity.
    + rewrite IH. apply orb_true_r.
Qed.

(** Two insertions along the same segments are one. *)
Lemma insert_at_twice segs g f : forall n,
  insert_at segs g (insert_at segs f n) = insert_at segs (fun t => g (f t)) n.
Proof.
  induction segs as [|s segs IH]; intros n; [reflexivity|].
  rewrite (insert_at_cons s segs f n), (insert_at_cons s segs (fun t => g (f t)) n).
  rewrite insert_at_cons. cbn [children node_eps node_subroutes node_pattern].
  destruct (has_child s (children n)) eqn:Hc.
  - rewrite has_child_update, Hc, update_child_twice.
    f_equal. apply update_child_ext. intros c. apply IH.
  - rewrite has_child_place, (update_child_place _ _ _ _ Hc), IH. reflexivity.
Qed.

Definition route_of (n : node) : Route :=
  mkRoute (node_subroutes n) (node_eps n) (node_pattern n).

Lemma routes_self n : is_leaf (node_eps n) = true -> In (route_of n) (routes n).
Proof.
  destruct n as [cs eps sub pat]. cbn [routes node_eps]. intros ->. left. reflexivity.
Qed.

Lemma routes_child s c n r :
  In (s, c) (children n) -> In r (routes c) -> In r (routes n).
Proof.
  destruct n as [cs eps sub pat]. cbn [routes children]. intros Hin Hr.
  apply in_or_app. right. apply in_flat_map. exists (s, c). auto.
Qed.

Lemma update_child_In s g cs :
  has_child s cs = true -> exists s' c, In (s', g c) (update_child s g cs).
Proof.
  unfold has_child.
  induction cs as [|[s' c] cs IH]; cbn [existsb update_child fst]; [discriminate|].
  destruct (same_child s s').
  - intros _. exists s', c. left. reflexivity.
  - cbn [orb]. intros H. destruct (IH H) as (s0 & c0 & Hin). exists s0, c0. right. exact Hin.
Qed.

Lemma place_child_here s c cs : In (s, c) (place_child s c cs).
Proof.
  induction cs as [|[s' c'] cs IH]; cbn [place_child]; [left; reflexivity|].
  destruct (_ && _); [left; reflexivity|right; exact IH].
Qed.

(** The node an insertion ends at is one of the routes of the tree when
    the insertion leaves it with a handler. *)
Lemma routes_insert_at segs f :
  (forall t, is_leaf (node_eps (f t)) = true) ->
  forall n, exists t0, In (route_of (f t0)) (routes (insert_at segs f n)).
Proof.
  intros Hf. induction segs as [|s segs IH]; intros n.
  - exists n. apply routes_self, Hf.
  - rewrite insert_at_cons. destruct (has_child s (children n)) eqn:Hc.
    + destruct (update_child_In s (insert_at segs f) _ Hc) as (s' & c & Hin).
      destruct (IH c) as (t0 & Ht0). exists t0.
      eapply routes_child; [|exact Ht0]. exact Hin.
    + destruct (IH empty_node) as (t0 & Ht0). exists t0.
      eapply routes_child; [|exact Ht0]. cbn [children]. apply place_child_here.
Qed.

Section Marked.

Variable rx_valid : string -> bool.

(** Where a mount leaves the router it was given. *)
Lemma Mount_marks (fuel : nat) (mx s : nat) (pattern : string)
      (w w' : World) :
  Mount rx_valid fuel mx pattern (Some (HEngine s)) w = Ok tt w' ->
  exists x t r,
    engines w' !! mx = Some x /\ trees w' !! tree x = Some t /\
    In r (routes t) /\ SubRoutes r = Some s /\
    Pattern r = (if bool_decide (Str.last_char pattern = Some "/"%char)
                 then pattern +:+ "*" else pattern +:+ "/*").
Proof.
  intros H. unfold Mount in H.
  apply bind_Ok_inv in H as (x0 & w1 & _ & H).
  apply bind_Ok_inv in H as (t0 & w2 & _ & H).
  destruct (findPattern rx_valid t0 (pattern +:+ "*")
            || findPattern rx_valid t0 (pattern +:+ "/*")); [discriminate|].
  apply bind_Ok_inv in H as (u & w3 & _ & H).
  apply bind_Ok_inv in H as (pattern' & w4 & H1 & H).
  assert (Hpat : pattern' +:+ "*"
                 = if bool_decide (Str.last_char pattern = Some "/"%char)
                   then pattern +:+ "*" else pattern +:+ "/*").
  { case_bool_decide as Hl.
    - destruct pattern as [|a p]; [discriminate|]. cbn [Str.is_empty negb orb] in H1.
      injection H1 as <- _. reflexivity.
    - rewrite orb_true_r in H1.
      apply bind_Ok_inv in H1 as (l1 & wa & _ & H1).
      apply bind_Ok_inv in H1 as (l2 & wb & _ & H1). injection H1 as <- _.
      rewrite str_app_assoc. reflexivity. }
  rewrite <- Hpat. clear Hpat H1.
  apply bind_Ok_inv in H as (loc & w5 & H5 & H).
  cbn [as_engine is_some] in H5, H.
  apply handle_Ok_inv in H5 as (x & x' & t & t' & Hx & Hx' & Htx & Ht & HI & Htr).
  assert (Ht' : trees w5 !! tree x' = Some t').
  { rewrite Htr, Htx. apply list_lookup_insert_eq. eapply lookup_lt_Some, Ht. }
  apply bind_Ok_inv in H as (y & w6 & Hy & H). apply getE_Ok in Hy as [-> Hy].
  apply bind_Ok_inv in H as (ty & w6 & Hty & H). apply getTree_Ok in Hty as [-> Hty].
  unfold setTree in H. injection H as <-.
  rewrite Hx' in Hy. injection Hy as <-. rewrite Ht' in Hty. injection Hty as <-.
  cbn [engines trees].
  unfold InsertRoute in HI.
  destruct (parsePattern rx_valid (pattern' +:+ "*")) as [segs|]; [|discriminate].
  injection HI as <- <-. rewrite insert_at_twice.
  match goal with
  | |- context [insert_at segs ?f t] =>
      destruct (routes_insert_at segs f ltac:(reflexivity) t) as (n0 & Hn0)
  end.
  eexists x', _, _. split; [exact Hx'|]. split.
  { apply list_lookup_insert_eq. eapply lookup_lt_Some, Ht'. }
  split; [exact Hn0|]. split; reflexivity.
Qed.

(** A router that was mounted is among the routes of the tree of the
    engine it was mounted on, under the pattern with the wildcard: it
    is what [updateSubRoutes] visits from then on. *)
Theorem Mount_marks_subrouter (fuel : nat) (mx s : nat) (pattern : string)
        (w w' : World) :
  Mount rx_valid fuel mx pattern (Some (HEngine s)) w = Ok tt w' ->
  exists x t r,
    engines w' !! mx = Some x /\ trees w' !! tree x = Some t /\
    In r (routes t) /\ SubRoutes r = Some s /\
    Pattern r = (if bool_decide (Str.last_char pattern = Some "/"%char)
                 then pattern +:+ "*" else pattern +:+ "/*").
Proof. apply Mount_marks. Qed.

(** [Engine.Route]: a new engine, set up by [fn] and then mounted.  A nil
    [fn] is [None]. *)
Definition Route_ (fuel : nat) (mx : nat) (pattern : string)
           (fn : option (nat -> M unit)) : M nat :=
  match fn with
  | None => panic ("chi: attempting to Route() a nil subrouter on '" +:+ pattern +:+ "'")
  | Some f =>
      subRouter <- New ;;
      f subRouter ;;;
      Mount rx_valid fuel mx pattern (Some (HEngine subRouter)) ;;;
      ret subRouter
  end.

(** [Controller]: [Engine.Route] with the [Router] method of the
    controller. *)
Definition Controller (fuel : nat) (mx : nat) (pattern : string)
           (c : nat -> M unit) : M unit :=
  Route_ fuel mx pattern (Some (fun r => c r)) ;;; ret tt.

(** A controller that was attached has an engine of its own, the one
    that was new when [Controller] was called, and that engine is mounted
    in the tree of the engine [Controller] was called on, under the
    pattern with the wildcard. *)
Theorem Controller_mounts_new_engine (fuel : nat) (mx : nat) (pattern : string)
        (c : nat -> M unit) (w w' : World) :
  Controller fuel mx pattern c w = Ok tt w' ->
  exists x t r,
    engines w' !! mx = Some x /\ trees w' !! tree x = Some t /\
    In r (routes t) /\ SubRoutes r = Some (length (engines w)) /\
    Pattern r = (if bool_decide (Str.last_char pattern = Some "/"%char)
                 then pattern +:+ "*" else pattern +:+ "/*").
Proof.
  intros H. unfold Controller, Route_ in H.
  apply bind_Ok_inv in H as (s0 & w0 & H & Hret). injection Hret as <-.
  apply bind_Ok_inv in H as (s & w1 & HN & H).
  unfold New in HN. injection HN as <- <-.
  apply bind_Ok_inv in H as (u & w2 & Hc & H).
  apply bind_Ok_inv in H as (u' & w3 & HM & H). injection H as _ <-.
  destruct u'. exact (Mount_marks _ _ _ _ _ _ HM).
Qed.

End Marked.

(** * The render helpers *)

(** The calls a helper makes on the [http.ResponseWriter], in order.
    [http.Error] is the standard library's and is kept as one call. *)
Inductive WriterCall :=
| CallHeaderSet (key value : string)
| CallWriteHeader (status : Z)
| CallWrite (b : list Byte.byte)
| CallError (msg : string) (code : Z).

(** [b[:n]]: out of range it panics. *)
Definition slice_to (b : list Byte.byte) (n : nat) : option (list Byte.byte) :=
  if (n <=? length b)%nat then Some (take n b) else None.

Fixpoint has_prefix (p s : list Byte.byte) : bool :=
  match p, s with
  | [], _ => true
  | x :: p', y :: s' => Byte.eqb x y && has_prefix p' s'
  | _ :: _, [] => false
  end.

(** [bytes.Contains]. *)
Fixpoint Contains (s sep : list Byte.byte) : bool :=
  has_prefix sep s
  || match s with
     | [] => false
     | _ :: s' => Contains s' sep
     end.

(** [xml.Header] of the standard library: the declaration and a line
    feed. *)
Definition xml_Header : list Byte.byte :=
  list_byte_of_string "<?xml version="
    ++ [Byte.x22] ++ list_byte_of_string "1.0" ++ [Byte.x22]
    ++ list_byte_of_string " encoding="
    ++ [Byte.x22] ++ list_byte_of_string "UTF-8" ++ [Byte.x22]
    ++ list_byte_of_string "?>" ++ [Byte.x0a].

Definition xml_mark : list Byte.byte := list_byte_of_string "<?xml".

(** [XML], given what [xml.Marshal] returned: the bytes, or the message
    of the error.  [None] is a panic. *)
Definition XML (marshalled : list Byte.byte + string) (status : Z)
  : option (list WriterCall) :=
  match marshalled with
  | inr err => Some [CallError err 500]
  | inl b =>
      let findHeaderUntil := if (100 <? length b)%nat then 100%nat else length b in
      match slice_to b findHeaderUntil with
      | None => None
      | Some window =>
          Some ([CallHeaderSet "Content-Type" "application/xml; charset=utf-8";
                 CallWriteHeader status]
                  ++ (if negb (Contains window xml_mark) then [CallWrite xml_Header] else [])
                  ++ [CallWrite b])
      end
  end.

(** The body that the calls add up to. *)
Fixpoint written (calls : list WriterCall) : list Byte.byte :=
  match calls with
  | [] => []
  | CallWrite b :: calls' => b ++ written calls'
  | _ :: calls' => written calls'
  end.

(** [XML] never slices out of range, and the body it writes always
    holds an XML declaration within its first hundred bytes: it is
    the marshalled value when that holds one there, and the marshalled
    value behind the standard header when not. *)
Theorem XML_declares (b : list Byte.byte) (status : Z) :
  exists calls,
    XML (inl b) status = Some calls /\
    Contains (take 100 (written calls)) xml_mark = true /\
    written calls
    = (if Contains (take 100 b) xml_mark then b else xml_Header ++ b).
Proof.
  unfold XML, slice_to.
  assert (Hw : take (if (100 <? length b)%nat then 100%nat else length b) b = take 100 b).
  { destruct (100 <? length b)%nat eqn:E; [reflexivity|].
    apply Nat.ltb_ge in E. rewrite !take_ge by lia. reflexivity. }
  assert (Hle : ((if (100 <? length b)%nat then 100%nat else length b) <=? length b)%nat
                = true).
  { destruct (100 <? length b)%nat eqn:E.
    - apply Nat.ltb_lt in E. apply Nat.leb_le. lia.
    - apply Nat.leb_le. lia. }
  rewrite Hle, Hw. eexists. split; [reflexivity|].
  destruct (Contains (take 100 b) xml_mark) eqn:Hc; cbn [negb app written].
  - rewrite app_nil_r. auto.
  - rewrite app_nil_r. split; [|reflexivity].
    reflexivity.
Qed.

(** * Further runs *)

(** No rune outside ASCII occurs in the runs below. *)
Definition upper_none (s : string) : string := s.

Definition x_built : Engine :=
  mkEngine (Some (HRouteHTTP 0)) 0 None None 0 None [] false.

Definition x_new : Engine := mkEngine None 0 None None 0 None [] false.

(** [w_get_x] after [GET /x] was served. *)
Definition w_get_x_served : World :=
  world_of (ServeHTTP rx_none 5 0 (req "GET" "/x") w_get_x).

(** [w_get_x] after [GET /x] was served with a context of its own. *)
Definition w_get_x_nested : World :=
  world_of (serve rx_none 5 (HEngine 0) (req "GET" "/x") (Some NewRouteContext) w_get_x).

(** The two engines of [w_api] before the mount. *)
Definition w_pre_api : World :=
  world_of ((mx <- New ;;
             sub <- New ;;
             Get rx_any sub "/widgets/{id}" (HFunc "widget")) init_world).

(** An engine and an inline engine of it. *)
Definition w_group : World :=
  world_of ((mx <- New ;; With mx [MwPass "a"]) init_world).

(** An engine with a route under [/files/]. *)
Definition w_files : World :=
  world_of (handle rx_any 0 mGET "/files/*" (HFunc "files") w_new).

(** [w_boom] after the route that panics was asked for. *)
Definition w_boom_panicked : World :=
  world_of (ServeHTTP rx_none 5 0 (req "GET" "/boom") w_boom).

Lemma ServeHTTP_reads_only_witness :
  engines w_get_x_served = engines w_get_x /\
  trees w_get_x_served = trees w_get_x /\
  methodMap w_get_x_served = methodMap w_get_x /\
  exists evs, trace w_get_x_served = trace w_get_x ++ evs.
Proof.
  exact (ServeHTTP_reads_only rx_none 5 0 (req "GET" "/x") w_get_x w_get_x_served
           ltac:(vm_compute; reflexivity)).
Defined.

Lemma nested_dispatch_keeps_pools_witness :
  pools w_get_x_nested = pools w_get_x.
Proof.
  exact (nested_dispatch_keeps_pools rx_none 5 0 (req "GET" "/x") NewRouteContext
           w_get_x w_get_x_nested ltac:(vm_compute; reflexivity)).
Defined.

Lemma ServeHTTP_pool_size_witness :
  @None Context = None /\
  exists c, pools w_get_x_served = <[0%nat := c :: tail []]> (pools w_get_x).
Proof.
  exact (ServeHTTP_pool_size rx_none 5 0 x_built (HRouteHTTP 0) (req "GET" "/x") []
           None w_get_x w_get_x_served
           ltac:(vm_compute; reflexivity) ltac:(reflexivity)
           ltac:(vm_compute; reflexivity) ltac:(vm_compute; reflexivity)).
Defined.

Lemma ServeHTTP_ignores_pool_contents_witness :
  seen (ServeHTTP rx_none 5 0 (req "GET" "/x")
          (set_pools [[set_RoutePath "/stale" NewRouteContext]] w_get_x))
  = seen (ServeHTTP rx_none 5 0 (req "GET" "/x") w_get_x).
Proof.
  exact (ServeHTTP_ignores_pool_contents rx_none 5 0 x_built (HRouteHTTP 0)
           (req "GET" "/x") w_get_x [[set_RoutePath "/stale" NewRouteContext]]
           [] [set_RoutePath "/stale" NewRouteContext]
           ltac:(vm_compute; reflexivity) ltac:(reflexivity)
           ltac:(vm_compute; reflexivity) ltac:(reflexivity)).
Defined.

Lemma Match_reads_only_witness :
  world_of (Match rx_none 4 0 NewRouteContext "GET" "/api/widgets/7" w_api) = w_api.
Proof.
  exact (Match_reads_only rx_none 4 0 NewRouteContext "GET" "/api/widgets/7" w_api
           (world_of (Match rx_none 4 0 NewRouteContext "GET" "/api/widgets/7" w_api))
           ltac:(vm_compute; reflexivity)).
Defined.

Lemma no_mounts_get_x : no_mounts t_get_x.
Proof.
  intros r Hr. vm_compute in Hr. destruct Hr as [<-|[]]. reflexivity.
Qed.

Lemma Match_predicts_dispatch_witness :
  exists b c,
    Match rx_none 1 0 NewRouteContext "GET" "/x" w_get_x = Ok (b, c) w_get_x /\
    (b = true <-> method_matches rx_none t_get_x "/x" mGET).
Proof.
  destruct (Match_predicts_dispatch rx_none 0 0 x_built t_get_x "GET" "/x" mGET
              NewRouteContext w_get_x
              ltac:(vm_compute; reflexivity) ltac:(vm_compute; reflexivity)
              ltac:(vm_compute; reflexivity) no_mounts_get_x)
    as (b & c & H1 & H2 & _).
  exists b, c. split; [exact H1|exact H2].
Defined.

Lemma Method_case_insensitive_witness :
  Method_ rx_any upper_none 0 "get" "/x" (HFunc "x") w_new
  = Method_ rx_any upper_none 0 "GeT" "/x" (HFunc "x") w_new /\
  Method_ rx_any upper_none 0 "link" "/x" (HFunc "x") w_new
  = Panic "chi: 'link' http method is not supported." w_new /\
  Method_ rx_any upper_none 0 "LINK" "/x" (HFunc "x") w_new
  = Panic "chi: 'LINK' http method is not supported." w_new.
Proof.
  split.
  - apply (proj1 (Method_case_insensitive rx_any upper_none 0 "get" "GeT" "/x"
                    (HFunc "x") w_new eq_refl)).
    exists mGET. vm_compute. reflexivity.
  - apply (proj2 (Method_case_insensitive rx_any upper_none 0 "link" "LINK" "/x"
                    (HFunc "x") w_new eq_refl)).
    vm_compute. reflexivity.
Defined.

Lemma Method_is_verb_helper_witness :
  Method_ rx_any upper_none 0 "get" "/x" (HFunc "x") w_new
  = Get rx_any 0 "/x" (HFunc "x") w_new.
Proof.
  apply (Method_is_verb_helper rx_any upper_none 0 "get" "/x" "GET" (Get rx_any)
           (HFunc "x") w_new).
  - reflexivity.
  - right. right. left. reflexivity.
  - reflexivity.
Defined.

Lemma Method_unsupported_witness :
  Method_ rx_any upper_none 0 "link" "/x" (HFunc "x") w_new
  = Panic "chi: 'link' http method is not supported." w_new.
Proof.
  apply (Method_unsupported rx_any upper_none 0 "link" "/x" (HFunc "x") w_new).
  - reflexivity.
  - cbn. intros H. repeat (destruct H as [H|H]; [discriminate|]). exact H.
Defined.

Lemma helpers_need_slash_witness :
  Handle rx_any 0 "x" (HFunc "x") w_new
  = Panic "chi: routing pattern must begin with '/' in 'x'" w_new.
Proof.
  apply (helpers_need_slash rx_any (Handle rx_any) 0 "x" (HFunc "x") w_new).
  - left. reflexivity.
  - discriminate.
Defined.

Lemma Mount_needs_slash_witness :
  Str.head_char "api" = Some "a"%char /\
  Mount rx_any 3 0 "api" (Some (HFunc "h")) w_new <> Ok tt w_new.
Proof.
  split; [reflexivity|].
  apply (Mount_needs_slash rx_any 3 0 "api" (Some (HFunc "h")) w_new w_new).
  discriminate.
Defined.

Lemma With_inline_engine_witness :
  exists w',
    With 0 [MwPass "a"] w_new = Ok 1%nat w' /\
    trees w' = trees w_new /\ pools w' = pools w_new /\
    exists msg, Use 0 [MwPass "late"] w' = Panic msg w'.
Proof.
  destruct (With_inline_engine 0 x_new [MwPass "a"] w_new ltac:(reflexivity))
    as (w' & H1 & _ & H3 & H4 & H5).
  exists w'. split; [exact H1|]. split; [exact H3|]. split; [exact H4|].
  exact (H5 eq_refl [MwPass "late"]).
Defined.

Lemma With_registers_in_parent_tree_witness :
  exists w' t',
    (im <- With 0 [MwPass "a"] ;; handle rx_any im mGET "/x" (HFunc "x")) w_new
    = Ok [Static "/x"] w' /\
    InsertRoute rx_any empty_node mGET "/x" (HMw (MwPass "a") (HFunc "x"))
    = Some (t', [Static "/x"]) /\
    trees w' = <[0%nat := t']> (trees w_new).
Proof.
  destruct (With_registers_in_parent_tree rx_any 0 x_new empty_node [MwPass "a"]
              mGET "/x" (HFunc "x") [Static "/x"] w_new
              ltac:(reflexivity) ltac:(reflexivity) ltac:(reflexivity)
              ltac:(vm_compute; reflexivity))
    as (w' & t' & H1 & H2 & H3 & _).
  exists w', t'. split; [exact H1|]. split; [exact H2|exact H3].
Defined.

Lemma handle_builds_engine_witness :
  pools w_get_x = pools w_new /\
  exists msg, Use 0 [MwPass "late"] w_get_x = Panic msg w_get_x.
Proof.
  destruct (handle_builds_engine rx_any 0 mGET "/x" (HFunc "x") w_new w_get_x
              [Static "/x"] ltac:(vm_compute; reflexivity))
    as (_ & _ & H3 & _ & _ & H6).
  split; [exact H3|exact (H6 [MwPass "late"])].
Defined.

Lemma NotFound_sets_and_spreads_witness :
  exists w' x',
    NotFound 3 1 (HFunc "lost") w_override = Ok tt w' /\
    engines w' !! 1%nat = Some x' /\ NotFoundHandler x' = HFunc "lost" /\
    trees w' = trees w_override.
Proof.
  destruct (NotFound_sets_and_spreads 3 (HFunc "lost") 1 w_override
              (mkEngine None 1 None None 1 None [] false)
              mounts_ok_override ltac:(vm_compute; reflexivity) eq_refl
              ltac:(vm_compute; lia))
    as (w' & H1 & (x' & Hx' & Hh) & _ & _ & Ht & _).
  exists w', x'. split; [exact H1|]. split; [exact Hx'|]. split; [exact Hh|exact Ht].
Defined.

Lemma MethodNotAllowed_sets_and_spreads_witness :
  exists w' x',
    MethodNotAllowed 3 1 (HFunc "no") w_override = Ok tt w' /\
    engines w' !! 1%nat = Some x' /\ MethodNotAllowedHandler x' = HFunc "no" /\
    trees w' = trees w_override.
Proof.
  destruct (MethodNotAllowed_sets_and_spreads 3 (HFunc "no") 1 w_override
              (mkEngine None 1 None None 1 None [] false)
              mounts_ok_override ltac:(vm_compute; reflexivity) eq_refl
              ltac:(vm_compute; lia))
    as (w' & H1 & (x' & Hx' & Hh) & _ & _ & Ht & _).
  exists w', x'. split; [exact H1|]. split; [exact Hx'|]. split; [exact Hh|exact Ht].
Defined.

Lemma NotFound_inline_delegates_witness :
  NotFound 2 1 (HFunc "lost") w_group
  = NotFound 2 0 (HMw (MwPass "a") (HFunc "lost")) w_group.
Proof.
  apply (NotFound_inline_delegates 1 1 0
           (mkEngine None 0 None (Some 0%nat) 0 None [MwPass "a"] true)
           (HFunc "lost") w_group).
  - vm_compute. reflexivity.
  - reflexivity.
  - reflexivity.
  - intros xp Hxp. vm_compute in Hxp. injection Hxp as <-. left. reflexivity.
Defined.

Lemma Mount_registers_witness :
  Forall (has_pattern rx_any w_api 0) ["/api"; "/api/"; "/api/*"].
Proof.
  exact (Mount_registers rx_any 3 0 "/api" (Some (HEngine 1)) w_pre_api w_api
           ltac:(vm_compute; reflexivity)).
Defined.

Lemma Mount_twice_panics_witness :
  Mount rx_any 3 0 "/api" (Some (HFunc "again")) w_api
  = Panic "chi: attempting to Mount() a handler on an existing path, '/api'" w_api.
Proof.
  exact (Mount_twice_panics rx_any 3 3 0 "/api" (Some (HEngine 1)) (HFunc "again")
           w_pre_api w_api ltac:(vm_compute; reflexivity)).
Defined.

Lemma Mount_over_route_panics_witness :
  Mount rx_any 3 0 "/files" (Some (HFunc "other")) w_files
  = Panic "chi: attempting to Mount() a handler on an existing path, '/files'" w_files.
Proof.
  eapply (Mount_over_route_panics rx_any 3 0 mGET "/files" "/*" (HFunc "files")
            (HFunc "other") _ w_new w_files).
  - right. reflexivity.
  - vm_compute. reflexivity.
Defined.

Lemma route_then_serve_witness :
  exists w2 w3,
    (e <- New ;; Method_ rx_any upper_none e "get" "/x" (HFunc "x") ;;; ret e) init_world
    = Ok 0%nat w2 /\
    ServeHTTP rx_none 4 0 (mkRequest "GET" "" "/x") w2 = Ok None w3 /\
    pools w3 = [[set_RouteMethod "GET" (set_Routes 0 NewRouteContext)]].
Proof.
  destruct (route_then_serve rx_any rx_none upper_none init_world "/x" "get" "x" mGET 0
              ltac:(reflexivity) ltac:(vm_compute; reflexivity)
              ltac:(vm_compute; reflexivity) ltac:(reflexivity))
    as (w2 & w3 & H1 & H2 & _ & H4).
  exists w2, w3. split; [exact H1|]. split; [exact H2|exact H4].
Defined.

Lemma ServeHTTP_panic_drops_context_witness :
  pools w_boom_panicked = <[0%nat := []]> (pools w_boom).
Proof.
  exact (ServeHTTP_panic_drops_context rx_none 5 0 x_built (HRouteHTTP 0)
           (req "GET" "/boom") [set_RouteMethod "GET" (set_Routes 0 NewRouteContext)]
           "boom" w_boom w_boom_panicked
           ltac:(vm_compute; reflexivity) ltac:(reflexivity)
           ltac:(vm_compute; reflexivity) ltac:(vm_compute; reflexivity)).
Defined.

Lemma Mount_marks_subrouter_witness :
  exists x t r,
    engines w_api !! 0%nat = Some x /\ trees w_api !! tree x = Some t /\
    In r (routes t) /\ SubRoutes r = Some 1%nat /\ Pattern r = "/api/*".
Proof.
  exact (Mount_marks_subrouter rx_any 3 0 1 "/api" w_pre_api w_api
           ltac:(vm_compute; reflexivity)).
Defined.

(** ** What a nested dispatch reads *)

Section Nested.

Variable rx_match : string -> string -> bool.

(** Once the context holds a route path and a method, as it does behind
    a mount, the lookup reads the path and the method of the context:
    the URL and the method of the request have no part in it. *)
Theorem route_select_context_wins (mm : gmap string methodTyp) (t : node)
        (r r' : Request) (rctx : Context) :
  RoutePath rctx <> "" -> RouteMethod rctx <> "" ->
  route_select rx_match mm t r rctx = route_select rx_match mm t r' rctx.
Proof.
  intros Hp Hm. unfold route_select, requestPath, resolveMethod.
  destruct (RoutePath rctx) as [|a p]; [contradiction|].
  destruct (RouteMethod rctx) as [|b q] eqn:E; [contradiction|].
  cbn [Str.is_empty]. reflexivity.
Qed.

End Nested.

Lemma route_select_context_wins_witness :
  route_select rx_none stdMethodMap t_get_x (req "POST" "/elsewhere")
               (set_RouteMethod "GET" (set_RoutePath "/x" NewRouteContext))
  = route_select rx_none stdMethodMap t_get_x (req "GET" "/x")
                 (set_RouteMethod "GET" (set_RoutePath "/x" NewRouteContext)).
Proof.
  apply (route_select_context_wins rx_none stdMethodMap t_get_x
           (req "POST" "/elsewhere") (req "GET" "/x")
           (set_RouteMethod "GET" (set_RoutePath "/x" NewRouteContext)));
    discriminate.
Defined.

(** The login controller of the example program, attached at [/login]. *)
Definition w_login : World :=
  world_of (Controller rx_any 3 0 "/login"
              (fun r => Get rx_any r "/" (HFunc "login")) w_new).

Lemma Controller_mounts_new_engine_witness :
  exists x t r,
    engines w_login !! 0%nat = Some x /\ trees w_login !! tree x = Some t /\
    In r (routes t) /\ SubRoutes r = Some 1%nat /\ Pattern r = "/login/*".
Proof.
  exact (Controller_mounts_new_engine rx_any 3 0 "/login"
           (fun r => Get rx_any r "/" (HFunc "login")) w_new w_login
           ltac:(vm_compute; reflexivity)).
Defined.
